(** * InvestMate: the ledger engine of [src/utils.ts] and [src/App.tsx]

    A shallow embedding of the calendar adapter, the schedule engine, the
    monthly ledger aggregator, the bulk mark-paid operation and the import
    merge resolver, together with the part of the ECMAScript [Date] object
    and of the string primitives that this code relies on; then of the
    display and loose parsing of dates, the ticket search of the form, the
    editing and payment operations of the collection, the collected
    interest, the maturity ladder, the chart of the months, the preview of
    an import and the split into active and past investments.

    Conventions of the embedding.
    - A JavaScript number that is an integer or [NaN] is an [option Z]
      ([None] is [NaN]); a [Date] object is its time value, again an
      [option Z] in milliseconds since the epoch ([None] is Invalid Date).
    - A function that can throw returns [option]; [None] is the exception
      ([toISOString] raises [RangeError] on an Invalid Date).
    - The local time zone is a fixed offset [LocalTZA] (milliseconds east of
      UTC), a section variable: [8 * msPerHour] is Asia/Taipei.
    - An amount, a rate or a total is a double: a value of the binary64
      format of IEEE 754, with the arithmetic of [SpecFloat] (module
      [Double]); sums, products and quotients round as the language says.
    - [paymentHistory] is a [gmap Z PaymentRecord]; the month report, a JS
      object whose keys are read back in insertion order, is a list. *)

From Stdlib Require Import ZArith QArith Qround Lia List Ascii String Sorted.
From Stdlib Require Import Floats.SpecFloat.
From stdpp Require Import gmap strings list fin_maps.

Local Open Scope Z_scope.

(** ** Strings *)

Module JSString.

(** [\d] of a regular expression without the unicode flag: [0-9]. *)
Definition isDigit (c : ascii) : bool :=
  let n := Z.of_nat (nat_of_ascii c) in (48 <=? n) && (n <=? 57).

Definition digitValue (c : ascii) : Z := Z.of_nat (nat_of_ascii c) - 48.

Definition digitChar (k : Z) : ascii := ascii_of_nat (Z.to_nat (48 + k)).

(** [s.replace(/\D/g, '')] *)
Fixpoint replace_nondigits (s : string) : string :=
  match s with
  | EmptyString => EmptyString
  | String c r => if isDigit c then String c (replace_nondigits r)
                  else replace_nondigits r
  end.

Definition strlen (s : string) : Z := Z.of_nat (String.length s).

(** [s.substring(a, b)] for [0 <= a <= b]. *)
Definition substring (a b : Z) (s : string) : string :=
  String.substring (Z.to_nat a) (Z.to_nat (b - a)) s.

(** The digits of a non-negative integer, most significant first. *)
Fixpoint digits_fuel (fuel : nat) (n : Z) (acc : string) : string :=
  match fuel with
  | O => acc
  | S f => let acc' := String (digitChar (n mod 10)) acc in
           if n <? 10 then acc' else digits_fuel f (n / 10) acc'
  end.

Definition Z_toString (n : Z) : string :=
  if n <? 0
  then String "-"%char (digits_fuel (S (Z.to_nat (Z.log2 (- n)))) (- n) EmptyString)
  else digits_fuel (S (Z.to_nat (Z.log2 n))) n EmptyString.

(** [Number.prototype.toString] on an integer or [NaN]. *)
Definition Number_toString (x : option Z) : string :=
  match x with
  | Some n => Z_toString n
  | None => "NaN"
  end.

Fixpoint replicate_char (n : nat) (c : ascii) : string :=
  match n with
  | O => EmptyString
  | S k => String c (replicate_char k c)
  end.

(** [s.padStart(w, '0')] *)
Definition padStart (w : nat) (s : string) : string :=
  replicate_char (w - String.length s) "0"%char +:+ s.

(** The value of a string of decimal digits read left to right. *)
Fixpoint digits_value (acc : Z) (s : string) : Z :=
  match s with
  | EmptyString => acc
  | String c r => digits_value (10 * acc + digitValue c) r
  end.

Fixpoint all_digits (s : string) : bool :=
  match s with
  | EmptyString => true
  | String c r => isDigit c && all_digits r
  end.

Fixpoint leading_digits (s : string) : string :=
  match s with
  | EmptyString => EmptyString
  | String c r => if isDigit c then String c (leading_digits r) else EmptyString
  end.

(** [parseInt(s, 10)] on a string that starts with a digit or is empty:
    the longest prefix of digits, [NaN] when there is none.  (Leading white
    space and signs, which [parseInt] also accepts, do not occur: every
    caller passes a substring of a digit-only string.) *)
Definition parseInt (s : string) : option Z :=
  match leading_digits s with
  | EmptyString => None
  | ds => Some (digits_value 0 ds)
  end.

(** [Number(s)] on the pieces of a month key: the empty string is [0], a
    string of digits is its value, anything else is [NaN]. *)
Definition Number_of_string (s : string) : option Z :=
  if all_digits s then Some (digits_value 0 s) else None.

(** [s.split(c)] for a one-character separator. *)
Fixpoint split (sep : ascii) (s : string) : list string :=
  match s with
  | EmptyString => [EmptyString]
  | String c r =>
      if Ascii.eqb c sep then EmptyString :: split sep r
      else match split sep r with
           | h :: t => String c h :: t
           | [] => [String c EmptyString]
           end
  end.

(** [a.localeCompare(b) <= 0] on month keys.  The keys are made of digits,
    ['-'] and the letters of [NaN], on which the collation order agrees with
    the order of the code units. *)
Definition localeCompare_le (a b : string) : bool := String.leb a b.

End JSString.

Import JSString.

(** ** JavaScript numbers that are integers or NaN *)

Module JSNum.

Definition add (x y : option Z) : option Z := a ← x; b ← y; Some (a + b).
Definition sub (x y : option Z) : option Z := a ← x; b ← y; Some (a - b).

(** [x < y], [x > y], [x <= y], [x >= y]: false when an operand is NaN. *)
Definition lt (x y : option Z) : bool :=
  match x, y with Some a, Some b => a <? b | _, _ => false end.
Definition gt (x y : option Z) : bool := lt y x.
Definition le (x y : option Z) : bool :=
  match x, y with Some a, Some b => a <=? b | _, _ => false end.
Definition ge (x y : option Z) : bool := le y x.

(** [x !== y]: true when an operand is NaN. *)
Definition strict_neq (x y : option Z) : bool :=
  match x, y with Some a, Some b => negb (a =? b) | _, _ => true end.

End JSNum.

(** ** JavaScript numbers in general: doubles

    A Number is a value of the binary64 format of IEEE 754.  The Standard
    Library specifies the format and its arithmetic in [SpecFloat]
    ([spec_float], with precision 53 and maximal exponent 1024): a finite
    value [S754_finite s m e] is [m * 2 ^ e], negative when [s] is set;
    every operation rounds its exact result to the nearest value, a tie to
    the value with an even mantissa. *)

Module Double.

Definition prec : Z := 53.
Definition emax : Z := 1024.

Definition t : Type := spec_float.

Definition zero : t := S754_zero false.

(** [x + y], [x * y] and [x / y] *)
Definition add : t -> t -> t := SFadd prec emax.
Definition mul : t -> t -> t := SFmul prec emax.
Definition div : t -> t -> t := SFdiv prec emax.

(** The double nearest to a whole number: the number itself up to
    [2 ^ 53]. *)
Definition ofZ (n : Z) : t := binary_normalize prec emax n 0 false.

(** The value of a decimal literal with [k] digits after the point, as
    [1.4] is [decimal 14 1]: the double nearest to [n / 10 ^ k] (for [n]
    below [2 ^ 53] and [k] up to 22, where [n] and [10 ^ k] are doubles). *)
Definition decimal (n : Z) (k : nat) : t := div (ofZ n) (ofZ (10 ^ Z.of_nat k)).

(** The whole part of a finite double, 0 for the others. *)
Definition toZ (x : t) : Z :=
  match x with
  | S754_finite s m e =>
      cond_Zopp s (if 0 <=? e then Zpos m * 2 ^ e else Zpos m / 2 ^ (- e))
  | _ => 0
  end.

(** The exact value of a finite double, 0 for the others. *)
Definition toQ (x : t) : Q :=
  match x with
  | S754_finite s m e =>
      if 0 <=? e then inject_Z (cond_Zopp s (Zpos m) * 2 ^ e)
      else Qmake (cond_Zopp s (Zpos m)) (Z.to_pos (2 ^ (- e)))
  | _ => inject_Z 0
  end.

(** [Number.isSafeInteger(x)] on a double in its normal form: a zero, or a
    mantissa of 53 bits with an exponent from -52 to 0 that leaves no bit
    behind the point.  These are the whole numbers below [2 ^ 53] in
    magnitude. *)
Definition isSafeInteger (x : t) : bool :=
  match x with
  | S754_zero _ => true
  | S754_finite _ m e =>
      (-52 <=? e) && (e <=? 0) && (Z.log2 (Zpos m) =? 52)
      && (Zpos m mod 2 ^ (- e) =? 0)
  | _ => false
  end.

(** A sum as a loop accumulates it: [x + a1 + a2 + ...], from the left. *)
Definition sumFrom (x : t) (l : list t) : t := foldl add x l.

Definition sum (l : list t) : t := sumFrom zero l.

End Double.

(** ** The ECMAScript Date object

    Time values, the day and year arithmetic of the language specification
    (section "Time Values and Time Range"), and the methods the application
    calls. *)

Module JSDate.

Definition msPerDay : Z := 86400000.
Definition msPerHour : Z := 3600000.
Definition msPerMinute : Z := 60000.
Definition msPerSecond : Z := 1000.

Definition Day (t : Z) : Z := t / msPerDay.
Definition TimeWithinDay (t : Z) : Z := t mod msPerDay.

Definition isLeapYear (y : Z) : bool :=
  (y mod 4 =? 0) && (negb (y mod 100 =? 0) || (y mod 400 =? 0)).

Definition DaysInYear (y : Z) : Z := if isLeapYear y then 366 else 365.

Definition DayFromYear (y : Z) : Z :=
  365 * (y - 1970) + (y - 1969) / 4 - (y - 1901) / 100 + (y - 1601) / 400.

(** The largest [y] with [DayFromYear y <= n]: an estimate from the mean
    year length, corrected by at most one year. *)
Definition YearFromDay (n : Z) : Z :=
  let y := 1970 + n * 400 / 146097 in
  if DayFromYear (y + 1) <=? n then y + 1
  else if DayFromYear y <=? n then y
  else y - 1.

Definition YearFromTime (t : Z) : Z := YearFromDay (Day t).

Definition InLeapYear (t : Z) : Z :=
  if isLeapYear (YearFromTime t) then 1 else 0.

Definition DayWithinYear (t : Z) : Z := Day t - DayFromYear (YearFromTime t).

(** Day within the year of the first day of month [m] (0 = January), with
    [l = 1] in a leap year. *)
Definition monthStart (l m : Z) : Z :=
  match m with
  | 0 => 0 | 1 => 31 | 2 => 59 + l | 3 => 90 + l | 4 => 120 + l
  | 5 => 151 + l | 6 => 181 + l | 7 => 212 + l | 8 => 243 + l
  | 9 => 273 + l | 10 => 304 + l | 11 => 334 + l | _ => 365 + l
  end.

Definition MonthFromTime (t : Z) : Z :=
  let d := DayWithinYear t in
  let l := InLeapYear t in
  if d <? 31 then 0
  else if d <? 59 + l then 1
  else if d <? 90 + l then 2
  else if d <? 120 + l then 3
  else if d <? 151 + l then 4
  else if d <? 181 + l then 5
  else if d <? 212 + l then 6
  else if d <? 243 + l then 7
  else if d <? 273 + l then 8
  else if d <? 304 + l then 9
  else if d <? 334 + l then 10
  else 11.

Definition DateFromTime (t : Z) : Z :=
  DayWithinYear t - monthStart (InLeapYear t) (MonthFromTime t) + 1.

Definition HourFromTime (t : Z) : Z := (t / msPerHour) mod 24.
Definition MinFromTime (t : Z) : Z := (t / msPerMinute) mod 60.
Definition SecFromTime (t : Z) : Z := (t / msPerSecond) mod 60.
Definition msFromTime (t : Z) : Z := t mod msPerSecond.

(** [MakeDay(year, month, date)]: months outside 0..11 carry into the year
    and [date] is added as a plain offset, so a day past the end of the
    month runs on into the following month. *)
Definition MakeDay (year month date : Z) : Z :=
  let ym := year + month / 12 in
  let mn := month mod 12 in
  DayFromYear ym + monthStart (if isLeapYear ym then 1 else 0) mn + date - 1.

Definition MakeTime (h m s ms : Z) : Z :=
  h * msPerHour + m * msPerMinute + s * msPerSecond + ms.

Definition MakeDate (day time : Z) : Z := day * msPerDay + time.

Definition TimeClip (t : Z) : option Z :=
  if Z.abs t >? 8640000000000000 then None else Some t.

Definition DaysInMonth (y m : Z) : Z :=
  let l := if isLeapYear y then 1 else 0 in
  monthStart l (m + 1) - monthStart l m.

(** [YYYY-MM-DD] with a four-digit year, [+YYYYYY-...] or [-YYYYYY-...]
    outside 0..9999, as [toISOString] prints the date. *)
Definition isoDate (y m d : Z) : string :=
  (if (0 <=? y) && (y <=? 9999) then padStart 4 (Z_toString y)
   else if y <? 0 then String "-"%char (padStart 6 (Z_toString (- y)))
   else String "+"%char (padStart 6 (Z_toString y)))
  +:+ "-" +:+ padStart 2 (Z_toString m) +:+ "-" +:+ padStart 2 (Z_toString d).

(** [Date.parse] on the date-only form [YYYY-MM-DD], which is read as UTC
    midnight.  A string of another shape, or a month or day out of range,
    is no instance of the format and gives [NaN]; the other formats of the
    language (and the lenient fallbacks of particular engines) are not
    modelled: the application stores dates in this form only. *)
Definition parse (s : string) : option Z :=
  match s with
  | String y1 (String y2 (String y3 (String y4 (String h1
      (String m1 (String m2 (String h2 (String d1 (String d2 EmptyString))))))))) =>
      if isDigit y1 && isDigit y2 && isDigit y3 && isDigit y4
         && Ascii.eqb h1 "-" && isDigit m1 && isDigit m2
         && Ascii.eqb h2 "-" && isDigit d1 && isDigit d2
      then
        let y := 1000 * digitValue y1 + 100 * digitValue y2
                 + 10 * digitValue y3 + digitValue y4 in
        let m := 10 * digitValue m1 + digitValue m2 in
        let d := 10 * digitValue d1 + digitValue d2 in
        if (1 <=? m) && (m <=? 12) && (1 <=? d) && (d <=? DaysInMonth y (m - 1))
        then TimeClip (MakeDate (MakeDay y (m - 1) d) 0)
        else None
      else None
  | _ => None
  end.

(** [d.toISOString()]; [None] is the [RangeError] of an Invalid Date. *)
Definition toISOString (d : option Z) : option string :=
  t ← d;
  Some (isoDate (YearFromTime t) (MonthFromTime t + 1) (DateFromTime t)
        +:+ "T" +:+ padStart 2 (Z_toString (HourFromTime t))
        +:+ ":" +:+ padStart 2 (Z_toString (MinFromTime t))
        +:+ ":" +:+ padStart 2 (Z_toString (SecFromTime t))
        +:+ "." +:+ padStart 3 (Z_toString (msFromTime t)) +:+ "Z").

(** [d.toISOString().split('T')[0]] *)
Definition toISODate (d : option Z) : option string :=
  s ← toISOString d; Some (hd EmptyString (split "T" s)).

Section LocalTime.

(** Offset of local time from UTC, in milliseconds. *)
Variable LocalTZA : Z.

Definition LocalTime (t : Z) : Z := t + LocalTZA.
Definition UTC (t : Z) : Z := t - LocalTZA.

(** [new Date(s)] *)
Definition ofString (s : string) : option Z := parse s.

(** [new Date(year, month, date)]: local midnight. *)
Definition ofFields (year month date : option Z) : option Z :=
  y ← year; m ← month; dt ← date;
  let yr := if (0 <=? y) && (y <=? 99) then 1900 + y else y in
  TimeClip (UTC (MakeDate (MakeDay yr m dt) (MakeTime 0 0 0 0))).

Definition getTime (d : option Z) : option Z := d.

Definition getFullYear (d : option Z) : option Z :=
  t ← d; Some (YearFromTime (LocalTime t)).
Definition getMonth (d : option Z) : option Z :=
  t ← d; Some (MonthFromTime (LocalTime t)).
Definition getDate (d : option Z) : option Z :=
  t ← d; Some (DateFromTime (LocalTime t)).

(** [d.setMonth(month)]: the new time value of [d]. *)
Definition setMonth (d : option Z) (month : option Z) : option Z :=
  u ← d; m ← month;
  let t := LocalTime u in
  TimeClip (UTC (MakeDate (MakeDay (YearFromTime t) m (DateFromTime t))
                          (TimeWithinDay t))).

End LocalTime.

Definition TZ_UTC : Z := 0.
Definition TZ_Taipei : Z := 8 * msPerHour.

End JSDate.

Import JSDate.


(** ** [src/types.ts]

    Rocq has one name space for the fields of all records: the fields of
    [PaymentRecord], [Funder] and the detail rows that would clash carry a
    prefix ([pr_note], [f_id], [d_source], [c_amount]). *)

Inductive InvestmentStatus : Type :=
  | Active | Renewed | Returned | Reinvested | Defaulted.

Record PaymentRecord : Type := mkPaymentRecord {
  isPaid : bool;
  paidDate : option string;
  pr_note : option string
}.

Record Funder : Type := mkFunder {
  f_id : string;
  f_name : string;
  f_amount : Double.t;
  f_ticketNumber : option string
}.

Record Investment : Type := mkInvestment {
  id : string;
  source : string;
  funders : option (list Funder);
  amount : Double.t;
  rate : Double.t;
  introFeeRate : Double.t;
  introFeePaid : option bool;
  introFeePaidDate : option string;
  startDate : string;
  endDate : string;
  duration : Z;
  ticketNumber : option string;
  note : string;
  status : InvestmentStatus;
  paymentHistory : gmap Z PaymentRecord;
  order : option Z
}.

(** [{ ...inv, order: o }], [{ ...inv, id: i, funders: fs, order: o }],
    [{ ...inv, paymentHistory: h }] and [{ ...f, id: i }]. *)
Definition with_order (inv : Investment) (o : option Z) : Investment :=
  mkInvestment (id inv) (source inv) (funders inv) (amount inv) (rate inv)
    (introFeeRate inv) (introFeePaid inv) (introFeePaidDate inv)
    (startDate inv) (endDate inv) (duration inv) (ticketNumber inv)
    (note inv) (status inv) (paymentHistory inv) o.

Definition with_id_funders_order (inv : Investment) (i : string)
    (fs : option (list Funder)) (o : option Z) : Investment :=
  mkInvestment i (source inv) fs (amount inv) (rate inv)
    (introFeeRate inv) (introFeePaid inv) (introFeePaidDate inv)
    (startDate inv) (endDate inv) (duration inv) (ticketNumber inv)
    (note inv) (status inv) (paymentHistory inv) o.

Definition with_paymentHistory (inv : Investment)
    (h : gmap Z PaymentRecord) : Investment :=
  mkInvestment (id inv) (source inv) (funders inv) (amount inv) (rate inv)
    (introFeeRate inv) (introFeePaid inv) (introFeePaidDate inv)
    (startDate inv) (endDate inv) (duration inv) (ticketNumber inv)
    (note inv) (status inv) h (order inv).

Definition funder_with_id (f : Funder) (i : string) : Funder :=
  mkFunder i (f_name f) (f_amount f) (f_ticketNumber f).

(** ** [src/utils.ts] *)

(** [Math.round(x)]: the whole number nearest to [x], a half upwards:
    [floor(x + 1/2)], taken exactly.  A value with no bit behind the point
    (and a zero, an infinity or [NaN]) is returned as it is; a result of 0
    keeps the sign of [x]. *)
Definition Math_round (x : Double.t) : Double.t :=
  match x with
  | S754_finite s m e =>
      if 0 <=? e then x
      else
        let n := (2 * cond_Zopp s (Zpos m) + 2 ^ (- e)) / 2 ^ (1 - e) in
        if n =? 0 then S754_zero s else Double.ofZ n
  | _ => x
  end.

(** [Math.round(inv.amount * (inv.rate / 100))] *)
Definition monthlyInterest (inv : Investment) : Double.t :=
  Math_round (Double.mul (amount inv) (Double.div (rate inv) (Double.ofZ 100))).

Section Utils.

Variable LocalTZA : Z.

Definition isoToROCInput (isoDate : string) : string :=
  if String.eqb isoDate "" then ""
  else
    let date := ofString isoDate in
    match getTime date with
    | None => ""
    | Some _ =>
        let year := JSNum.sub (getFullYear LocalTZA date) (Some 1911) in
        let month :=
          padStart 2 (Number_toString (JSNum.add (getMonth LocalTZA date) (Some 1))) in
        let day := padStart 2 (Number_toString (getDate LocalTZA date)) in
        Number_toString year +:+ month +:+ day
    end.

(** [None] is the [null] result. *)
Definition rocInputToISO (rocInput : string) : option string :=
  let clean := replace_nondigits rocInput in
  if negb (strlen clean =? 6) && negb (strlen clean =? 7) then None
  else
    let '(yearStr, monthStr, dayStr) :=
      if strlen clean =? 7
      then (substring 0 3 clean, substring 3 5 clean, substring 5 7 clean)
      else (substring 0 2 clean, substring 2 4 clean, substring 4 6 clean) in
    let year := JSNum.add (parseInt yearStr) (Some 1911) in
    let month := parseInt monthStr in
    let day := parseInt dayStr in
    if JSNum.lt month (Some 1) || JSNum.gt month (Some 12) then None
    else
      let date := ofFields LocalTZA year (JSNum.sub month (Some 1)) day in
      if JSNum.strict_neq (getFullYear LocalTZA date) year
         || JSNum.strict_neq (JSNum.add (getMonth LocalTZA date) (Some 1)) month
         || JSNum.strict_neq (getDate LocalTZA date) day
      then None
      else Some (Number_toString year +:+ "-"
                 +:+ padStart 2 (Number_toString month) +:+ "-"
                 +:+ padStart 2 (Number_toString day)).

(** [None] is the [RangeError] that [toISOString] raises when the date is
    invalid. *)
Definition calculateEndDate (startDate : string) (months : Z) : option string :=
  if String.eqb startDate "" then Some ""
  else
    let date := ofString startDate in
    let date := setMonth LocalTZA date
                  (JSNum.add (getMonth LocalTZA date) (Some months)) in
    toISODate date.

Definition getPeriodDueDate (startDate : string) (periodIndex : Z) : option string :=
  let date := ofString startDate in
  let date := setMonth LocalTZA date
                (JSNum.add (getMonth LocalTZA date) (Some periodIndex)) in
  toISODate date.

End Utils.

(** *** The monthly report *)

Record InterestDetail : Type := mkInterestDetail {
  invId : string;
  d_source : string;
  d_ticketNumber : option string;
  d_amount : Double.t;
  period : Z;
  d_rate : Double.t;
  dueDate : string;
  d_isPaid : bool;
  d_paidDate : option string
}.

Record CapitalDetail : Type := mkCapitalDetail {
  c_source : string;
  c_ticketNumber : option string;
  c_amount : Double.t;
  c_date : string
}.

Record MonthlyReportItem : Type := mkMonthlyReportItem {
  monthStr : string;
  rocMonth : string;
  newCapital : Double.t;
  returnedCapital : Double.t;
  interestExpected : Double.t;
  interestActual : Double.t;
  interestDetails : list InterestDetail;
  capitalInDetails : list CapitalDetail;
  capitalOutDetails : list CapitalDetail
}.

(** The object [report: Record<string, MonthlyReportItem>]: its entries in
    insertion order, each under the key [monthStr]. *)
Definition Report : Type := list MonthlyReportItem.

Definition report_get (key : string) (report : Report) : option MonthlyReportItem :=
  List.find (fun it => String.eqb (monthStr it) key) report.

(** [report[key] = it] *)
Fixpoint report_set (key : string) (it : MonthlyReportItem) (report : Report) : Report :=
  match report with
  | [] => [it]
  | x :: r => if String.eqb (monthStr x) key then it :: r
              else x :: report_set key it r
  end.

(** An update in place of the entry under [key]. *)
Fixpoint report_modify (key : string) (f : MonthlyReportItem -> MonthlyReportItem)
    (report : Report) : Report :=
  match report with
  | [] => []
  | x :: r => if String.eqb (monthStr x) key then f x :: r
              else x :: report_modify key f r
  end.

Definition initReportMonth (report : Report) (key : string) : Report :=
  let parts := List.map Number_of_string (split "-" key) in
  let y := nth 0 parts None in
  let m := nth 1 parts None in
  let roc := Number_toString (JSNum.sub y (Some 1911)) +:+ "/"
             +:+ padStart 2 (Number_toString m) in
  report_set key
    (mkMonthlyReportItem key roc Double.zero Double.zero Double.zero Double.zero
       [] [] []) report.

(** [if(!report[key]) initReportMonth(report, key);] *)
Definition ensureMonth (key : string) (report : Report) : Report :=
  match report_get key report with
  | Some _ => report
  | None => initReportMonth report key
  end.

Definition addNewCapital (inv : Investment) (it : MonthlyReportItem) : MonthlyReportItem :=
  mkMonthlyReportItem (monthStr it) (rocMonth it)
    (Double.add (newCapital it) (amount inv)) (returnedCapital it)
    (interestExpected it) (interestActual it) (interestDetails it)
    (capitalInDetails it
     ++ [mkCapitalDetail (source inv) (ticketNumber inv) (amount inv) (startDate inv)])
    (capitalOutDetails it).

Definition addReturnedCapital (inv : Investment) (it : MonthlyReportItem) : MonthlyReportItem :=
  mkMonthlyReportItem (monthStr it) (rocMonth it)
    (newCapital it) (Double.add (returnedCapital it) (amount inv))
    (interestExpected it) (interestActual it) (interestDetails it)
    (capitalInDetails it)
    (capitalOutDetails it
     ++ [mkCapitalDetail (source inv) (ticketNumber inv) (amount inv) (endDate inv)]).

Definition addInterest (mi : Double.t) (paid : bool) (det : InterestDetail)
    (it : MonthlyReportItem) : MonthlyReportItem :=
  mkMonthlyReportItem (monthStr it) (rocMonth it)
    (newCapital it) (returnedCapital it)
    (Double.add (interestExpected it) mi)
    (if paid then Double.add (interestActual it) mi else interestActual it)
    (interestDetails it ++ [det])
    (capitalInDetails it) (capitalOutDetails it).

(** A loop whose body may throw. *)
Fixpoint forEachM {A S : Type} (f : S -> A -> option S) (l : list A) (s : S) : option S :=
  match l with
  | [] => Some s
  | x :: r => s' ← f s x; forEachM f r s'
  end.

(** [arr.sort(cmp)], a stable sort, by insertion. *)
Fixpoint insert_by {A : Type} (le : A -> A -> bool) (x : A) (l : list A) : list A :=
  match l with
  | [] => [x]
  | y :: r => if le x y then x :: y :: r else y :: insert_by le x r
  end.

Definition sort_by {A : Type} (le : A -> A -> bool) (l : list A) : list A :=
  foldr (insert_by le) [] l.

Section Report.

Variable LocalTZA : Z.

(** [`${d.getFullYear()}-${(d.getMonth()+1).toString().padStart(2, '0')}`] *)
Definition monthKey (d : option Z) : string :=
  Number_toString (getFullYear LocalTZA d) +:+ "-"
  +:+ padStart 2 (Number_toString (JSNum.add (getMonth LocalTZA d) (Some 1))).

(** One turn of the interest loop, for period [i]. *)
Definition interestStep (inv : Investment) (report : Report) (i : Z) : option Report :=
  let monthlyInterest := monthlyInterest inv in
  let d := ofString (startDate inv) in
  let d := setMonth LocalTZA d (JSNum.add (getMonth LocalTZA d) (Some i)) in
  let iKey := monthKey d in
  let report := ensureMonth iKey report in
  let isPaid := default false (isPaid <$> paymentHistory inv !! i) in
  due ← toISODate d;
  Some (report_modify iKey
          (addInterest monthlyInterest isPaid
             (mkInterestDetail (id inv) (source inv) (ticketNumber inv)
                monthlyInterest i (rate inv) due isPaid
                (paymentHistory inv !! i ≫= paidDate)))
          report).

(** The body of [investments.forEach]. *)
Definition reportInvestment (report : Report) (inv : Investment) : option Report :=
  let start := ofString (startDate inv) in
  let startKey := monthKey start in
  let report := ensureMonth startKey report in
  let report := report_modify startKey (addNewCapital inv) report in
  let end_ := ofString (endDate inv) in
  let endKey := monthKey end_ in
  let report := ensureMonth endKey report in
  let report := report_modify endKey (addReturnedCapital inv) report in
  forEachM (interestStep inv) (seqZ 1 (duration inv)) report.

(** [None] when [toISOString] throws in the interest loop. *)
Definition getMonthlyReport (investments : list Investment) : option (list MonthlyReportItem) :=
  report ← forEachM reportInvestment investments [];
  Some (sort_by (fun a b => localeCompare_le (monthStr a) (monthStr b)) report).

End Report.

(** *** Identifiers *)

(** [generateId()] draws a random UUID.  The draws are a sequence [uuid],
    and a computation that generates identifiers threads the number of
    draws made so far. *)
Module Gen.

Definition t (A : Type) : Type := nat -> A * nat.

Definition ret {A : Type} (a : A) : t A := fun k => (a, k).

Definition bind {A B : Type} (m : t A) (f : A -> t B) : t B :=
  fun k => let '(a, k') := m k in f a k'.

(** [arr.map((x, idx) => ...)] with an effectful callback. *)
Fixpoint mapi_from {A B : Type} (f : nat -> A -> t B) (idx : nat) (l : list A)
    : t (list B) :=
  match l with
  | [] => ret []
  | x :: r => bind (f idx x) (fun y =>
              bind (mapi_from f (S idx) r) (fun ys => ret (y :: ys)))
  end.

Definition mapi {A B : Type} (f : nat -> A -> t B) (l : list A) : t (list B) :=
  mapi_from f 0%nat l.

Definition map {A B : Type} (f : A -> t B) (l : list A) : t (list B) :=
  mapi (fun _ => f) l.

End Gen.

Section Identifiers.

Variable uuid : nat -> string.

Definition generateId : Gen.t string := fun k => (uuid k, S k).

End Identifiers.

(** ** [src/App.tsx] *)

(** [prev.length > 0 ? Math.max(...prev.map(i => i.order || 0)) : 0] *)
Definition maxOrder (prev : list Investment) : Z :=
  match List.map (fun i => default 0 (order i)) prev with
  | [] => 0
  | o :: os => foldl Z.max o os
  end.

Section BulkPay.

Variable LocalTZA : Z.

(** [new Date().toISOString().split('T')[0]] at the time of the call. *)
Variable today : string.

Definition bulkPayStep (inv : Investment) (targetMonthStart targetMonthEnd : option Z)
    (st : gmap Z PaymentRecord * bool) (i : Z) : gmap Z PaymentRecord * bool :=
  let '(updatedHistory, changed) := st in
  let d := ofString (startDate inv) in
  let d := setMonth LocalTZA d (JSNum.add (getMonth LocalTZA d) (Some i)) in
  if JSNum.ge d targetMonthStart && JSNum.le d targetMonthEnd
  then
    if negb (default false (isPaid <$> updatedHistory !! i))
    then (<[i := mkPaymentRecord true (Some today) (Some "一鍵入帳")]> updatedHistory,
          true)
    else (updatedHistory, changed)
  else (updatedHistory, changed).

Definition handleBulkPay (monthStr : string) (prev : list Investment) : list Investment :=
  let targetMonthStart := ofString (monthStr +:+ "-01") in
  let targetMonthEnd :=
    ofFields LocalTZA (getFullYear LocalTZA targetMonthStart)
      (JSNum.add (getMonth LocalTZA targetMonthStart) (Some 1)) (Some 0) in
  List.map (fun inv =>
    let '(updatedHistory, changed) :=
      foldl (bulkPayStep inv targetMonthStart targetMonthEnd)
            (paymentHistory inv, false) (seqZ 1 (duration inv)) in
    if changed then with_paymentHistory inv updatedHistory else inv) prev.

End BulkPay.

Inductive ImportStrategy : Type := skip | overwrite | new.

Section ImportMerge.

Variable uuid : nat -> string.

(** [new Map(conflicts.map(i => [i.id, i]))]: a later entry replaces an
    earlier one with the same key. *)
Definition conflictMap (conflicts : list Investment) : gmap string Investment :=
  foldl (fun m i => <[id i := i]> m) ∅ conflicts.

Definition handleImportConfirm (strategy : ImportStrategy)
    (importCandidates prev : list Investment) : Gen.t (list Investment) :=
  match strategy with
  | new =>
      let maxOrder := maxOrder prev in
      Gen.bind
        (Gen.mapi (fun idx item =>
           Gen.bind (generateId uuid) (fun newId =>
           Gen.bind (match funders item with
                     | Some fs =>
                         Gen.bind (Gen.map (fun f =>
                                     Gen.bind (generateId uuid) (fun fid =>
                                     Gen.ret (funder_with_id f fid))) fs)
                                  (fun fs' => Gen.ret (Some fs'))
                     | None => Gen.ret None
                     end) (fun fs' =>
           Gen.ret (with_id_funders_order item newId fs'
                      (Some (maxOrder + Z.of_nat idx + 1))))))
           importCandidates)
        (fun newItems => Gen.ret (prev ++ newItems))
  | _ =>
      let existingIds : gset string := list_to_set (List.map id prev) in
      let conflicts :=
        List.filter (fun i => bool_decide (id i ∈ existingIds)) importCandidates in
      let newItems :=
        List.filter (fun i => negb (bool_decide (id i ∈ existingIds))) importCandidates in
      let result :=
        match strategy with
        | overwrite =>
            let conflictMap := conflictMap conflicts in
            List.map (fun item =>
                   match conflictMap !! id item with
                   | Some c => with_order c (order item)
                   | None => item
                   end) prev
        | _ => prev
        end in
      let currentMaxOrder := maxOrder result in
      let newItemsWithOrder :=
        imap (fun idx item =>
                with_order item (Some (currentMaxOrder + Z.of_nat idx + 1)))
             newItems in
      Gen.ret (result ++ newItemsWithOrder)
  end.

End ImportMerge.

(** ** Vocabulary of the statements *)

(** *** Dates and schedules *)

(** A civil date: month 1..12 and a day that exists in that month. *)
Definition ValidDate (y m d : Z) : Prop :=
  1 <= m <= 12 /\ 1 <= d <= DaysInMonth y (m - 1).

(** The year and month (1..12) that lie [n] calendar months after month
    [m] of year [y]. *)
Definition monthsAfter (y m n : Z) : Z * Z :=
  (y + (m - 1 + n) / 12, (m - 1 + n) mod 12 + 1).

(** The civil date that [setMonth] reaches [n] months after the date
    [y]-[m]-[d]: the same day of the target month when that day exists,
    otherwise the surplus days run on into the following month. *)
Definition rolledDate (y m d n : Z) : Z * Z * Z :=
  let '(y', m') := monthsAfter y m n in
  if d <=? DaysInMonth y' (m' - 1) then (y', m', d)
  else (y', m' + 1, d - DaysInMonth y' (m' - 1)).

(** The spec's reading of month addition: the day is clamped to the length
    of the target month. *)
Definition clampedDate (y m d n : Z) : Z * Z * Z :=
  let '(y', m') := monthsAfter y m n in
  (y', m', Z.min d (DaysInMonth y' (m' - 1))).

Definition isoOf (ymd : Z * Z * Z) : string :=
  let '(y, m, d) := ymd in isoDate y m d.

(** Chronological order of two ISO dates. *)
Definition isoBefore (a b : string) : bool :=
  match parse a, parse b with
  | Some ta, Some tb => ta <? tb
  | _, _ => false
  end.

(** The schedule of an investment: the due dates of periods 1 to [n]. *)
Definition dueDates (LocalTZA : Z) (start : string) (n : Z) : list (option string) :=
  getPeriodDueDate LocalTZA start <$> seqZ 1 n.

(** Whether a due date lies in the month [key] (in the form [YYYY-MM]). *)
Definition dueInMonth (key : string) (due : option string) : bool :=
  match due with
  | Some s => String.eqb (String.substring 0 7 s) key
  | None => false
  end.

(** *** The strict parser in two halves *)

(** The fields that [rocInputToISO] reads from the text, and its check of
    these fields against the calendar. *)
Definition rocFields (rocInput : string) : option (option Z * option Z * option Z) :=
  let clean := replace_nondigits rocInput in
  if negb (strlen clean =? 6) && negb (strlen clean =? 7) then None
  else
    let '(yearStr, monthStr, dayStr) :=
      if strlen clean =? 7
      then (substring 0 3 clean, substring 3 5 clean, substring 5 7 clean)
      else (substring 0 2 clean, substring 2 4 clean, substring 4 6 clean) in
    Some (JSNum.add (parseInt yearStr) (Some 1911), parseInt monthStr, parseInt dayStr).

Definition rocCheck (LocalTZA : Z) (year month day : option Z) : option string :=
  if JSNum.lt month (Some 1) || JSNum.gt month (Some 12) then None
  else
    let date := ofFields LocalTZA year (JSNum.sub month (Some 1)) day in
    if JSNum.strict_neq (getFullYear LocalTZA date) year
       || JSNum.strict_neq (JSNum.add (getMonth LocalTZA date) (Some 1)) month
       || JSNum.strict_neq (getDate LocalTZA date) day
    then None
    else Some (Number_toString year +:+ "-"
               +:+ padStart 2 (Number_toString month) +:+ "-"
               +:+ padStart 2 (Number_toString day)).

(** *** The ledger *)

(** An investment the ledger can schedule: a start date that parses and a
    whole number of periods in the range of the Date object. *)
Definition wfInvestment (inv : Investment) : Prop :=
  (exists t, parse (startDate inv) = Some t) /\ 0 <= duration inv <= 3000000.

Definition sumZ (l : list Z) : Z := foldr Z.add 0 l.

(** The spec's wording of the monthly interest, on exact numbers:
    [round(principal * ratePercent / 100)], a half away from zero. *)
Definition roundedInterest (principal ratePercent : Q) : Z :=
  let x := Qdiv (Qmult principal ratePercent) (inject_Z 100) in
  if Qle_bool 0 x then Qfloor (Qplus x (Qmake 1 2))
  else Qceiling (Qminus x (Qmake 1 2)).

(** The monthly interest and the amount of an investment as whole
    numbers. *)
Definition interestOf (inv : Investment) : Z := Double.toZ (monthlyInterest inv).

Definition principalOf (inv : Investment) : Z := Double.toZ (amount inv).

(** An investment whose monthly interest, or whose amount, is a whole
    number below [2 ^ 53] in magnitude. *)
Definition wholeInterest (inv : Investment) : Prop :=
  Double.isSafeInteger (monthlyInterest inv) = true.

Definition wholeAmount (inv : Investment) : Prop :=
  Double.isSafeInteger (amount inv) = true.

(** The interest a collection is scheduled to pay: the monthly interest of
    each investment times its number of periods. *)
Definition scheduledInterest (investments : list Investment) : Z :=
  sumZ (List.map (fun inv => interestOf inv * duration inv) investments).

(** The magnitudes of the interest and of the capital of a collection:
    while they stay below [2 ^ 53], no sum of the ledger rounds. *)
Definition interestVolume (investments : list Investment) : Z :=
  sumZ (List.map (fun inv => Z.abs (interestOf inv) * duration inv) investments).

Definition capitalVolume (investments : list Investment) : Z :=
  sumZ (List.map (fun inv => Z.abs (principalOf inv)) investments).

(** The mantissa and the exponent of the double of a whole number other
    than 0: the number shifted to 53 bits. *)
Definition mant (n : Z) : positive := Z.to_pos (Z.abs n * 2 ^ (52 - Z.log2 (Z.abs n))).

Definition expo (n : Z) : Z := Z.log2 (Z.abs n) - 52.

(** The sum of the magnitudes of a list of doubles. *)
Definition absSum (l : list Double.t) : Z :=
  sumZ (List.map (fun x => Z.abs (Double.toZ x)) l).

(** The entry that [initReportMonth] stores under [key]. *)
Definition newMonth (key : string) : MonthlyReportItem :=
  let parts := List.map Number_of_string (split "-" key) in
  mkMonthlyReportItem key
    (Number_toString (JSNum.sub (nth 0 parts None) (Some 1911)) +:+ "/"
     +:+ padStart 2 (Number_toString (nth 1 parts None)))
    Double.zero Double.zero Double.zero Double.zero [] [] [].

Definition keysOf (report : Report) : list string := List.map monthStr report.

(** The total of a field at month [key], 0 when the month has no entry. *)
Definition fieldAt (f : MonthlyReportItem -> Double.t) (key : string) (report : Report)
    : Double.t :=
  match report_get key report with
  | Some it => f it
  | None => Double.zero
  end.

(** The total of a field, read as a whole number, over all months. *)
Definition total (f : MonthlyReportItem -> Double.t) (report : list MonthlyReportItem) : Z :=
  sumZ (List.map (fun it => Double.toZ (f it)) report).

(** [x] when the two month keys are the same, otherwise 0. *)
Definition keyIs (k k' : string) (x : Z) : Z := if String.eqb k k' then x else 0.

(** The months an investment touches and what it adds to each of them. *)
Definition startKey (LocalTZA : Z) (inv : Investment) : string :=
  monthKey LocalTZA (ofString (startDate inv)).

Definition endKey (LocalTZA : Z) (inv : Investment) : string :=
  monthKey LocalTZA (ofString (endDate inv)).

Definition dueKey (LocalTZA : Z) (inv : Investment) (i : Z) : string :=
  monthKey LocalTZA
    (setMonth LocalTZA (ofString (startDate inv))
       (JSNum.add (getMonth LocalTZA (ofString (startDate inv))) (Some i))).

Definition paidAt (inv : Investment) (i : Z) : bool :=
  default false (isPaid <$> paymentHistory inv !! i).

Definition monthsOf (LocalTZA : Z) (inv : Investment) : list string :=
  startKey LocalTZA inv :: endKey LocalTZA inv
  :: List.map (dueKey LocalTZA inv) (seqZ 1 (duration inv)).

(** The periods of [inv] that fall due in the month [k], and those of them
    that are paid. *)
Definition dueIn (LocalTZA : Z) (inv : Investment) (k : string) : list Z :=
  List.filter (fun i => String.eqb (dueKey LocalTZA inv i) k) (seqZ 1 (duration inv)).

Definition paidIn (LocalTZA : Z) (inv : Investment) (k : string) : list Z :=
  List.filter (fun i => String.eqb (dueKey LocalTZA inv i) k && paidAt inv i)
    (seqZ 1 (duration inv)).

(** The amounts that [inv] adds to each total of the month [k], in the
    order in which the code adds them. *)
Definition newCapitalOf (LocalTZA : Z) (inv : Investment) (k : string) : list Double.t :=
  if String.eqb (startKey LocalTZA inv) k then [amount inv] else [].

Definition returnedCapitalOf (LocalTZA : Z) (inv : Investment) (k : string)
    : list Double.t :=
  if String.eqb (endKey LocalTZA inv) k then [amount inv] else [].

Definition interestExpectedOf (LocalTZA : Z) (inv : Investment) (k : string)
    : list Double.t :=
  List.map (fun _ => monthlyInterest inv) (dueIn LocalTZA inv k).

Definition interestActualOf (LocalTZA : Z) (inv : Investment) (k : string)
    : list Double.t :=
  List.map (fun _ => monthlyInterest inv) (paidIn LocalTZA inv k).

(** The same amounts as whole numbers. *)
Definition wholeNewOf (LocalTZA : Z) (inv : Investment) (k : string) : Z :=
  keyIs (startKey LocalTZA inv) k (principalOf inv).

Definition wholeReturnedOf (LocalTZA : Z) (inv : Investment) (k : string) : Z :=
  keyIs (endKey LocalTZA inv) k (principalOf inv).

Definition wholeExpectedOf (LocalTZA : Z) (inv : Investment) (k : string) : Z :=
  sumZ (List.map (fun i => keyIs (dueKey LocalTZA inv i) k (interestOf inv))
          (seqZ 1 (duration inv))).

Definition wholeActualOf (LocalTZA : Z) (inv : Investment) (k : string) : Z :=
  sumZ (List.map (fun i => keyIs (dueKey LocalTZA inv i) k
                             (if paidAt inv i then interestOf inv else 0))
          (seqZ 1 (duration inv))).

(** What the report [r'] has gained over the report [r]: the months
    [months], and at each month [k] the amounts [dN k], [dR k], [dE k] and
    [dA k] added, one after the other, to the four totals. *)
Definition Gains (r r' : Report) (months : list string)
    (dN dR dE dA : string -> list Double.t) : Prop :=
  (List.NoDup (keysOf r) -> List.NoDup (keysOf r'))
  /\ (forall k, In k (keysOf r') <-> In k (keysOf r) \/ In k months)
  /\ (forall k, fieldAt newCapital k r'
                 = Double.sumFrom (fieldAt newCapital k r) (dN k))
  /\ (forall k, fieldAt returnedCapital k r'
                 = Double.sumFrom (fieldAt returnedCapital k r) (dR k))
  /\ (forall k, fieldAt interestExpected k r'
                 = Double.sumFrom (fieldAt interestExpected k r) (dE k))
  /\ (forall k, fieldAt interestActual k r'
                 = Double.sumFrom (fieldAt interestActual k r) (dA k)).

(** *** The merge *)

(** Identifiers in use, and the incoming records that conflict with none
    of them. *)
Definition existingIds (prev : list Investment) : list string := List.map id prev.

Definition nonConflicting (prev incoming : list Investment) : list Investment :=
  List.filter (fun i => negb (bool_decide (id i ∈ existingIds prev))) incoming.

(** Two records with the same contract: every field but the identifier,
    the funders and the sort order. *)
Definition sameContract (a b : Investment) : Prop :=
  source a = source b /\ amount a = amount b /\ rate a = rate b
  /\ introFeeRate a = introFeeRate b /\ introFeePaid a = introFeePaid b
  /\ introFeePaidDate a = introFeePaidDate b
  /\ startDate a = startDate b /\ endDate a = endDate b /\ duration a = duration b
  /\ ticketNumber a = ticketNumber b /\ note a = note b /\ status a = status b
  /\ paymentHistory a = paymentHistory b.

(** Two records that differ in the sort order at most. *)
Definition sameButOrder (a b : Investment) : Prop :=
  id a = id b /\ funders a = funders b /\ sameContract a b.

(** The funders [fs'] are the funders [fs] under the identifiers drawn from
    draw [d] on. *)
Definition fundersRenamed (uuid : nat -> string) (d : nat) (fs fs' : list Funder) : Prop :=
  length fs' = length fs
  /\ forall (q : nat) f, fs !! q = Some f ->
       exists f', fs' !! q = Some f'
                  /\ f_id f' = uuid (d + q)%nat /\ f_name f' = f_name f
                  /\ f_amount f' = f_amount f /\ f_ticketNumber f' = f_ticketNumber f.

(** A source of identifiers that returns one value again and again, and a
    record that has this value as its identifier. *)
Definition sameDraw : nat -> string :=
  fun _ => "3b241101-e2bb-4d55-8caf-4136c566a962"%string.

(** The number of identifiers drawn for a list of cloned records: one for
    each record and one for each of its funders. *)
Definition drawsFor (items : list Investment) : nat :=
  foldr (fun item n => (S (length (default [] (funders item))) + n)%nat) 0%nat items.

(** The clone of [item] made with the draws from [k] on, at sort order [o]. *)
Definition cloneOf (uuid : nat -> string) (k : nat) (item : Investment) (o : Z) : Investment :=
  with_id_funders_order item (uuid k)
    (imap (fun q f => funder_with_id f (uuid (S k + q)%nat)) <$> funders item)
    (Some o).

(** The clones of [items], the first at index [idx] of the incoming list
    and at draw [k]. *)
Fixpoint clonesFrom (uuid : nat -> string) (mo : Z) (idx k : nat)
    (items : list Investment) : list Investment :=
  match items with
  | [] => []
  | item :: r =>
      cloneOf uuid k item (mo + Z.of_nat idx + 1)
      :: clonesFrom uuid mo (S idx) (k + S (length (default [] (funders item)))) r
  end.

(** *** Two investments for the examples *)

(** The only period of the first falls due on the last day of June 2025;
    the second starts on the last day of January, has a funder, and has its
    first period paid. *)
Definition dueLastOfJune : Investment :=
  mkInvestment "inv-1" "ABC" None (Double.ofZ 500000) (Double.decimal 12 1)
    (Double.decimal 5 1) None None
    "2025-05-30" "2025-06-30" 1 None "" Active ∅ (Some 1).

Definition twoPeriods : Investment :=
  mkInvestment "inv-2" "XYZ" (Some [mkFunder "f-1" "F" (Double.ofZ 250) None])
    (Double.ofZ 250) (Double.decimal 14 1) (Double.decimal 5 1) None None
    "2025-01-31" "2025-03-31" 2 None "" Active
    (<[1 := mkPaymentRecord true (Some "2025-03-03"%string) None]> ∅) None.

(** *** Investments on which the doubles show

    An investment with nothing but a plan; one whose interest of a month,
    496.5 on paper, the code rounds to 496; one with a negative duration;
    one without a start date; two whose interests, [2 ^ 53] and 1, no
    double can add; and three with the amounts that the form stores for the
    entries 1.11, 1.13 and 2.01 (in units of 10000). *)
Definition plan (i : string) (a r : Double.t) (s e : string) (n : Z) : Investment :=
  mkInvestment i "ABC" None a r Double.zero None None s e n None "" Active ∅ None.

Definition knownRecord : Investment :=
  plan "3b241101-e2bb-4d55-8caf-4136c566a962" (Double.ofZ 100000) (Double.ofZ 1)
    "2025-01-15" "2025-07-15" 6.

Definition halfInterest : Investment :=
  plan "inv-4" (Double.ofZ 30000) (Double.decimal 1655 3) "2025-01-15" "2025-02-15" 1.

Definition negativeDuration : Investment :=
  plan "inv-5" (Double.ofZ 100000) (Double.ofZ 1) "2025-01-15" "2025-01-15" (-1).

Definition noStart : Investment :=
  plan "inv-9" (Double.ofZ 100000) (Double.ofZ 1) "" "" 6.

Definition largeInterests : list Investment :=
  [plan "inv-10" (Double.ofZ (2 ^ 53)) (Double.ofZ 100) "2025-01-15" "2025-02-15" 1;
   plan "inv-11" (Double.ofZ 1) (Double.ofZ 100) "2025-01-15" "2025-02-15" 1].

Definition fractionalAmounts : list Investment :=
  [plan "inv-6" (Double.mul (Double.decimal 111 2) (Double.ofZ 10000)) (Double.ofZ 1)
     "2025-01-15" "2025-01-15" 0;
   plan "inv-7" (Double.mul (Double.decimal 113 2) (Double.ofZ 10000)) (Double.ofZ 1)
     "2025-01-15" "2025-01-15" 0;
   plan "inv-8" (Double.mul (Double.decimal 201 2) (Double.ofZ 10000)) (Double.ofZ 1)
     "2025-01-15" "2025-01-15" 0].

(** ** Further functions of [src/utils.ts] and [src/App.tsx] *)

(** *** More string primitives

    Text is a sequence of bytes: the functions below are those of the
    language on text in the ASCII range, where a byte is a character
    ([padStart] counts bytes, [trim] knows the ASCII white space only). *)

Module JSText.

(** Tab, line feed, vertical tab, form feed, carriage return and space. *)
Definition isWhiteSpace (c : ascii) : bool :=
  let n := Z.of_nat (nat_of_ascii c) in
  ((9 <=? n) && (n <=? 13)) || (n =? 32).

Fixpoint trimStart (s : string) : string :=
  match s with
  | EmptyString => EmptyString
  | String c r => if isWhiteSpace c then trimStart r else s
  end.

Fixpoint trimEnd (s : string) : string :=
  match s with
  | EmptyString => EmptyString
  | String c r =>
      match trimEnd r with
      | EmptyString => if isWhiteSpace c then EmptyString else String c EmptyString
      | r' => String c r'
      end
  end.

(** [s.trim()] *)
Definition trim (s : string) : string := trimEnd (trimStart s).

(** [s.split(re)] for a regular expression that is one character class. *)
Fixpoint split_where (p : ascii -> bool) (s : string) : list string :=
  match s with
  | EmptyString => [EmptyString]
  | String c r =>
      if p c then EmptyString :: split_where p r
      else match split_where p r with
           | h :: t => String c h :: t
           | [] => [String c EmptyString]
           end
  end.

(** The class [[~/.-]]. *)
Definition isDateSeparator (c : ascii) : bool :=
  Ascii.eqb c "~" || Ascii.eqb c "/" || Ascii.eqb c "." || Ascii.eqb c "-".

(** [s.match(/^\d{4}-\d{2}-\d{2}$/)] is not null. *)
Definition isISOShape (s : string) : bool :=
  match s with
  | String y1 (String y2 (String y3 (String y4 (String h1
      (String m1 (String m2 (String h2 (String d1 (String d2 EmptyString))))))))) =>
      isDigit y1 && isDigit y2 && isDigit y3 && isDigit y4
      && Ascii.eqb h1 "-" && isDigit m1 && isDigit m2
      && Ascii.eqb h2 "-" && isDigit d1 && isDigit d2
  | _ => false
  end.

(** [parseInt(s, 10)] on any text: leading white space is skipped, a sign
    may follow, then the longest run of digits is read; [NaN] when there is
    no digit. *)
Definition parseInt10 (s : string) : option Z :=
  match trimStart s with
  | String c r =>
      if Ascii.eqb c "-" then Z.opp <$> parseInt r
      else if Ascii.eqb c "+" then parseInt r
      else parseInt (String c r)
  | EmptyString => None
  end.

(** [String.fromCharCode(c)]: the code unit [c mod 65536], in UTF-8. *)
Definition fromCharCode (c : Z) : string :=
  let u := c mod 65536 in
  let byte (n : Z) := ascii_of_nat (Z.to_nat n) in
  if u <? 128 then String (byte u) EmptyString
  else if u <? 2048
  then String (byte (192 + u / 64)) (String (byte (128 + u mod 64)) EmptyString)
  else String (byte (224 + u / 4096))
         (String (byte (128 + (u / 64) mod 64))
            (String (byte (128 + u mod 64)) EmptyString)).

End JSText.

Import JSText.

(** *** Display and loose parsing of alternate-calendar dates *)

Section UtilsDates.

Variable LocalTZA : Z.

(** [new Date().toISOString().split('T')[0]] and [new Date()] at the time
    of the call. *)
Variable today : string.
Variable now : Z.

Definition toROCDate (isoDate : string) : string :=
  if String.eqb isoDate "" then ""
  else
    let date := ofString isoDate in
    let year := JSNum.sub (getFullYear LocalTZA date) (Some 1911) in
    let month :=
      padStart 2 (Number_toString (JSNum.add (getMonth LocalTZA date) (Some 1))) in
    let day := padStart 2 (Number_toString (getDate LocalTZA date)) in
    Number_toString year +:+ "/" +:+ month +:+ "/" +:+ day.

Definition parseROCDate (rocDate : string) : string :=
  if String.eqb rocDate "" then today
  else
    let cleanDate := trim rocDate in
    if isISOShape cleanDate then cleanDate
    else
      let parts := split_where isDateSeparator cleanDate in
      match parts with
      | p0 :: p1 :: p2 :: _ =>
          let year := parseInt10 p0 in
          let year := if JSNum.lt year (Some 1911) then JSNum.add year (Some 1911)
                      else year in
          let month := padStart 2 p1 in
          let day := padStart 2 p2 in
          Number_toString year +:+ "-" +:+ month +:+ "-" +:+ day
      | _ => today
      end.

(** The period an investment is in at the time [now]: the months elapsed
    since the month of the start, from 1, and 1 when that is not positive
    or not a number. *)
Definition calculatePeriodDiff (startDate : string) : Z :=
  let start := ofString startDate in
  let months :=
    y ← JSNum.sub (getFullYear LocalTZA (Some now)) (getFullYear LocalTZA start);
    Some (y * 12) in
  let months := JSNum.sub months (getMonth LocalTZA start) in
  let months := JSNum.add months (getMonth LocalTZA (Some now)) in
  let currentMonthIdx := JSNum.add months (Some 1) in
  match currentMonthIdx with
  | Some c => if c >? 0 then c else 1
  | None => 1
  end.

End UtilsDates.

(** *** The ticket of the form ([getUniqueTicket] of the investment form,
    which follows [parseExcelData] in [src/utils.ts]) *)

(** [existingInvestments.some(i => i.ticketNumber === unique
    && i.id !== formData.id)]; [formId] is [None] when the form has no
    identifier yet. *)
Definition ticketTaken (existingInvestments : list Investment)
    (formId : option string) (unique : string) : bool :=
  existsb (fun i =>
             match ticketNumber i with
             | Some t => String.eqb t unique
             | None => false
             end
             && match formId with
                | Some fid => negb (String.eqb (id i) fid)
                | None => true
                end)
    existingInvestments.

(** The [while] loop, with a bound on its rounds: [None] when the bound is
    reached with the loop still running. *)
Fixpoint getUniqueTicket_loop (rounds : nat) (existingInvestments : list Investment)
    (formId : option string) (baseTicket unique : string) (suffixCode : Z)
    : option string :=
  if ticketTaken existingInvestments formId unique
  then match rounds with
       | O => None
       | S n =>
           getUniqueTicket_loop n existingInvestments formId baseTicket
             (baseTicket +:+ fromCharCode suffixCode) (suffixCode + 1)
       end
  else Some unique.

Definition getUniqueTicket (rounds : nat) (existingInvestments : list Investment)
    (formId : option string) (baseTicket : string) : option string :=
  getUniqueTicket_loop rounds existingInvestments formId baseTicket baseTicket 65.

(** *** Editing the collection *)

(** [handleAdd]; [editingItem] is the form's item, [None] for [null]. *)
Definition handleAdd (editingItem : option Investment) (inv : Investment)
    (prev : list Investment) : list Investment :=
  if bool_decide (is_Some editingItem)
     && existsb (fun i => String.eqb (id i) (id inv)) prev
  then List.map (fun item => if String.eqb (id item) (id inv)
                             then with_order inv (order item) else item) prev
  else
    let maxOrder := maxOrder prev in
    prev ++ [with_order inv (Some (maxOrder + 1))].

(** [handleDelete]; [confirmed] is the answer to [window.confirm]. *)
Definition handleDelete (confirmed : bool) (delId : string)
    (prev : list Investment) : list Investment :=
  if confirmed then List.filter (fun i => negb (String.eqb (id i) delId)) prev
  else prev.

(** [Partial<PaymentRecord>]: [None] is a key that is absent. *)
Record PaymentUpdate : Type := mkPaymentUpdate {
  u_isPaid : option bool;
  u_paidDate : option string;
  u_note : option string
}.

(** [!s] for an optional string: absent or empty. *)
Definition falsy (s : option string) : bool :=
  match s with
  | None => true
  | Some t => String.eqb t ""
  end.

Section Payments.

Variable today : string.

Definition handleUpdatePayment (updId : string) (monthIdx : Z) (data : PaymentUpdate)
    (prev : list Investment) : list Investment :=
  List.map (fun inv =>
    if String.eqb (id inv) updId then
      let currentRecord :=
        default (mkPaymentRecord false None None) (paymentHistory inv !! monthIdx) in
      let updates :=
        if bool_decide (u_isPaid data = Some true)
           && falsy (paidDate currentRecord) && falsy (u_paidDate data)
        then mkPaymentUpdate (u_isPaid data) (Some today) (u_note data)
        else data in
      let newHistory :=
        <[monthIdx :=
            mkPaymentRecord
              (default (isPaid currentRecord) (u_isPaid updates))
              (match u_paidDate updates with
               | Some d => Some d
               | None => paidDate currentRecord
               end)
              (match u_note updates with
               | Some n => Some n
               | None => pr_note currentRecord
               end)]> (paymentHistory inv) in
      with_paymentHistory inv newHistory
    else inv) prev.

Definition handleSimplePaymentUpdate (invId : string) (period : Z) (paid : bool)
    (prev : list Investment) : list Investment :=
  handleUpdatePayment invId period (mkPaymentUpdate (Some paid) None None) prev.

End Payments.

(** *** The collected interest of the statistics *)

(** [Object.values(inv.paymentHistory).filter(p => p.isPaid).length] *)
Definition paidCount (inv : Investment) : Z :=
  Z.of_nat (length (List.filter isPaid (snd <$> map_to_list (paymentHistory inv)))).

(** [investments.reduce((sum, inv) => sum + monthly * paidCount, 0)] *)
Definition totalCollectedInterest (investments : list Investment) : Double.t :=
  foldl (fun sum inv =>
           Double.add sum (Double.mul (monthlyInterest inv) (Double.ofZ (paidCount inv))))
        Double.zero investments.

(** *** The periods that [handleBulkPay] marks *)

(** The time at which period [i] falls due in the loop of [handleBulkPay]:
    the start date moved on by [i] months. *)
Definition dueTime (LocalTZA : Z) (inv : Investment) (i : Z) : option Z :=
  setMonth LocalTZA (ofString (startDate inv))
    (JSNum.add (getMonth LocalTZA (ofString (startDate inv))) (Some i)).

(** [d >= targetMonthStart && d <= targetMonthEnd] for the due time of
    period [i]. *)
Definition dueWithin (LocalTZA : Z) (inv : Investment)
    (targetMonthStart targetMonthEnd : option Z) (i : Z) : bool :=
  JSNum.ge (dueTime LocalTZA inv i) targetMonthStart
  && JSNum.le (dueTime LocalTZA inv i) targetMonthEnd.

(** The first and the last instant of the month [monthStr], as
    [handleBulkPay] computes them. *)
Definition targetMonth (LocalTZA : Z) (monthStr : string) : option Z * option Z :=
  let targetMonthStart := ofString (monthStr +:+ "-01") in
  (targetMonthStart,
   ofFields LocalTZA (getFullYear LocalTZA targetMonthStart)
     (JSNum.add (getMonth LocalTZA targetMonthStart) (Some 1)) (Some 0)).

(** Whether [handleBulkPay] marks period [i] of [inv]: a period of the
    investment, due within the month, and not paid yet. *)
Definition bulkMarks (LocalTZA : Z) (monthStr : string) (inv : Investment) (i : Z) : bool :=
  (1 <=? i) && (i <=? duration inv)
  && dueWithin LocalTZA inv (fst (targetMonth LocalTZA monthStr))
       (snd (targetMonth LocalTZA monthStr)) i
  && negb (paidAt inv i).

(** The record that the operation stores. *)
Definition bulkRecord (today : string) : PaymentRecord :=
  mkPaymentRecord true (Some today) (Some "一鍵入帳").

(** *** Paid periods *)

(** The periods of the investment, 1 to the duration, that are paid: what
    the report counts. *)
Definition paidPeriods (inv : Investment) : Z :=
  Z.of_nat (length (List.filter (paidAt inv) (seqZ 1 (duration inv)))).

(** Every paid record of the history belongs to a period of the
    investment. *)
Definition paidWithinTerm (inv : Investment) : Prop :=
  forall j rec, paymentHistory inv !! j = Some rec -> isPaid rec = true ->
                1 <= j <= duration inv.

(** *** The merge by overwrite *)

(** The last record of [l] with the identifier [i]. *)
Fixpoint lastWithId (i : string) (l : list Investment) : option Investment :=
  match l with
  | [] => None
  | c :: r =>
      match lastWithId i r with
      | Some c' => Some c'
      | None => if String.eqb (id c) i then Some c else None
      end
  end.

(** The record that the overwrite strategy leaves in the place of [p]. *)
Definition overwritten (incoming : list Investment) (p : Investment) : Investment :=
  match lastWithId (id p) incoming with
  | Some c => with_order c (order p)
  | None => p
  end.

(** *** Updates of a payment *)

(** The record that [handleUpdatePayment] stores for a period whose
    current record is [cur] ([{...currentRecord, ...updates}]). *)
Definition recordAfter (today : string) (data : PaymentUpdate) (cur : PaymentRecord)
    : PaymentRecord :=
  let updates :=
    if bool_decide (u_isPaid data = Some true)
       && falsy (paidDate cur) && falsy (u_paidDate data)
    then mkPaymentUpdate (u_isPaid data) (Some today) (u_note data)
    else data in
  mkPaymentRecord
    (default (isPaid cur) (u_isPaid updates))
    (match u_paidDate updates with Some d => Some d | None => paidDate cur end)
    (match u_note updates with Some n => Some n | None => pr_note cur end).

(** The current record of a period: [paymentHistory[p] || { isPaid: false }]. *)
Definition currentRecord (inv : Investment) (p : Z) : PaymentRecord :=
  default (mkPaymentRecord false None None) (paymentHistory inv !! p).

(** [{ ...inv, ticketNumber }] *)
Definition with_ticketNumber (inv : Investment) (t : option string) : Investment :=
  mkInvestment (id inv) (source inv) (funders inv) (amount inv) (rate inv)
    (introFeeRate inv) (introFeePaid inv) (introFeePaidDate inv)
    (startDate inv) (endDate inv) (duration inv) t
    (note inv) (status inv) (paymentHistory inv) (order inv).

(** *** The order of the report *)

(** The key of month [M] of year [Y] as the report writes it. *)
Definition monthText (Y M : Z) : string :=
  Z_toString Y +:+ "-" +:+ padStart 2 (Z_toString M).

(** Strictly before, in the order of [localeCompare] on month keys. *)
Definition keyBefore (a b : MonthlyReportItem) : Prop :=
  localeCompare_le (monthStr a) (monthStr b) = true /\ monthStr a <> monthStr b.

(** *** Objects used as maps from text to values

    The entries are kept in the order of insertion, which is the order of
    [Object.keys], [Object.values] and [Object.entries] for keys that are
    not array indices. *)

Definition obj_get {V : Type} (key : string) (o : list (string * V)) : option V :=
  snd <$> List.find (fun kv => String.eqb (fst kv) key) o.

(** [o[key] = v] *)
Fixpoint obj_set {V : Type} (key : string) (v : V) (o : list (string * V))
    : list (string * V) :=
  match o with
  | [] => [(key, v)]
  | kv :: r => if String.eqb (fst kv) key then (fst kv, v) :: r
               else kv :: obj_set key v r
  end.

(** *** The maturity ladder *)

Record LadderItem : Type := mkLadderItem {
  l_name : string;
  l_value : Double.t
}.

Section Ladder.

Variable LocalTZA : Z.

(** [new Date()]: the time of the call. *)
Variable now : Z.

(** The first loop: the twelve months from the current one on. *)
Definition ladderMonths : list (string * Double.t) :=
  let today := Some now in
  foldl (fun ladder i =>
           let d := ofFields LocalTZA (getFullYear LocalTZA today)
                      (JSNum.add (getMonth LocalTZA today) (Some i)) (Some 1) in
           let key := monthKey LocalTZA d in
           obj_set key Double.zero ladder)
        [] (seqZ 0 12).

(** The body of [investments.forEach]. *)
Definition ladderAdd (ladder : list (string * Double.t)) (inv : Investment)
    : list (string * Double.t) :=
  match status inv with
  | Active | Renewed =>
      let endDate := ofString (endDate inv) in
      let key := monthKey LocalTZA endDate in
      match obj_get key ladder with
      | Some v => obj_set key (Double.add v (amount inv)) ladder
      | None => ladder
      end
  | _ => ladder
  end.

Definition getMaturityLadder (investments : list Investment) : list LadderItem :=
  let ladder := foldl ladderAdd ladderMonths investments in
  List.map (fun entry =>
              let parts := split "-" (fst entry) in
              let y := hd EmptyString parts in
              let m := match parts with
                       | _ :: m :: _ => m
                       | _ => "undefined"%string
                       end in
              let rocY := JSNum.sub (parseInt y) (Some 1911) in
              mkLadderItem (Number_toString rocY +:+ "/" +:+ m) (snd entry))
    (sort_by (fun a b => localeCompare_le (fst a) (fst b)) ladder).

End Ladder.

(** An investment that the ladder counts. *)
Definition maturing (inv : Investment) : bool :=
  match status inv with
  | Active | Renewed => true
  | _ => false
  end.

(** The amount that [inv] adds to the month [key] of the ladder, if any. *)
Definition maturingIn (LocalTZA : Z) (inv : Investment) (key : string) : list Double.t :=
  if maturing inv && String.eqb (endKey LocalTZA inv) key then [amount inv] else [].


(** The key of the month [i] months after month [M] of year [Y]. *)
Definition monthKeyAt (Y M i : Z) : string :=
  monthText (fst (monthsAfter Y M i)) (snd (monthsAfter Y M i)).

(** *** The chart of the months *)

(** [Number(s)] on the text of an integer, with its sign: the empty text
    is [0], and a text of another form is [NaN].  (The other forms of a
    number, with white space, a plus sign, a fraction or an exponent, do not
    occur: the pieces come from integers printed by the program.) *)
Definition Number_of_text (s : string) : option Z :=
  match s with
  | String c r =>
      if Ascii.eqb c "-"
      then if all_digits r && negb (String.eqb r "") then Some (- digits_value 0 r)
           else None
      else Number_of_string s
  | EmptyString => Number_of_string s
  end.

(** [o[key].field += ...]: an update in place of the value under [key]. *)
Fixpoint obj_modify {V : Type} (key : string) (f : V -> V) (o : list (string * V))
    : list (string * V) :=
  match o with
  | [] => []
  | kv :: r => if String.eqb (fst kv) key then (fst kv, f (snd kv)) :: r
               else kv :: obj_modify key f r
  end.

Record ChartItem : Type := mkChartItem {
  ch_name : string;
  ch_activeCapital : Double.t;
  ch_returnedCapital : Double.t;
  ch_interest : Double.t
}.

Definition addActiveCapital (a : Double.t) (it : ChartItem) : ChartItem :=
  mkChartItem (ch_name it) (Double.add (ch_activeCapital it) a) (ch_returnedCapital it)
    (ch_interest it).

Definition addReturnedCapitalTo (a : Double.t) (it : ChartItem) : ChartItem :=
  mkChartItem (ch_name it) (ch_activeCapital it) (Double.add (ch_returnedCapital it) a)
    (ch_interest it).

Definition addInterestTo (a : Double.t) (it : ChartItem) : ChartItem :=
  mkChartItem (ch_name it) (ch_activeCapital it) (ch_returnedCapital it)
    (Double.add (ch_interest it) a).

(** [x === y] on numbers: false when an operand is [NaN]. *)
Definition strict_eq (x y : option Z) : bool := negb (JSNum.strict_neq x y).

Section Chart.

Variable LocalTZA : Z.

(** [new Date()]: the time of the call. *)
Variable now : Z.

(** The first loop: the months from six before the current one to twelve
    after it. *)
Definition chartMonths : list (string * ChartItem) :=
  let today := Some now in
  foldl (fun dataMap i =>
           let d := ofFields LocalTZA (getFullYear LocalTZA today)
                      (JSNum.add (getMonth LocalTZA today) (Some i)) (Some 1) in
           let key := monthKey LocalTZA d in
           let rocY := JSNum.sub (getFullYear LocalTZA d) (Some 1911) in
           let name :=
             Number_toString rocY +:+ "/"
             +:+ padStart 2 (Number_toString (JSNum.add (getMonth LocalTZA d) (Some 1))) in
           obj_set key (mkChartItem name Double.zero Double.zero Double.zero) dataMap)
        [] (seqZ (-6) 19).

(** [Object.keys(dataMap).forEach(key => ...)] for one investment. *)
Definition chartCapital (inv : Investment) (dataMap : list (string * ChartItem))
    : list (string * ChartItem) :=
  let start := ofString (startDate inv) in
  let end_ := ofString (endDate inv) in
  foldl (fun dataMap key =>
           let parts := List.map Number_of_string (split "-" key) in
           let y := nth 0 parts None in
           let m := nth 1 parts None in
           let monthStart := ofFields LocalTZA y (JSNum.sub m (Some 1)) (Some 1) in
           let monthEnd := ofFields LocalTZA y m (Some 0) in
           let dataMap :=
             if JSNum.le start monthEnd && JSNum.gt end_ monthStart
             then obj_modify key (addActiveCapital (amount inv)) dataMap
             else dataMap in
           if strict_eq (getFullYear LocalTZA end_) y
              && strict_eq (JSNum.add (getMonth LocalTZA end_) (Some 1)) m
           then obj_modify key (addReturnedCapitalTo (amount inv)) dataMap
           else dataMap)
        dataMap (List.map fst dataMap).

(** The loop over the periods of one investment. *)
Definition chartInterest (inv : Investment) (dataMap : list (string * ChartItem))
    : list (string * ChartItem) :=
  let monthlyInterest := monthlyInterest inv in
  foldl (fun dataMap i =>
           let dueDate := ofString (startDate inv) in
           let dueDate := setMonth LocalTZA dueDate
                            (JSNum.add (getMonth LocalTZA dueDate) (Some i)) in
           let key := monthKey LocalTZA dueDate in
           match obj_get key dataMap with
           | Some _ => obj_modify key (addInterestTo monthlyInterest) dataMap
           | None => dataMap
           end)
        dataMap (seqZ 1 (duration inv)).

(** The place of an entry in time, as the comparison of the sort reads it
    from the name. *)
Definition chartIndex (it : ChartItem) : option Z :=
  let parts := List.map Number_of_text (split "/" (ch_name it)) in
  JSNum.add (y ← nth 0 parts None; Some (y * 12)) (nth 1 parts None).

(** The comparison does not put [a] after [b]; a comparison that is [NaN]
    counts as equal. *)
Definition chartOrder (a b : ChartItem) : bool :=
  negb (JSNum.gt (JSNum.sub (chartIndex a) (chartIndex b)) (Some 0)).

Definition getMonthlyChartData (investments : list Investment) : list ChartItem :=
  let dataMap :=
    foldl (fun dataMap inv => chartInterest inv (chartCapital inv dataMap))
          chartMonths investments in
  sort_by chartOrder (List.map snd dataMap).

End Chart.


(** What one investment adds to the entry of the month with the key [key],
    as the loops compute it: its amount, or nothing. *)
Definition chartActive (LocalTZA : Z) (inv : Investment) (key : string) : list Double.t :=
  let parts := List.map Number_of_string (split "-" key) in
  let y := nth 0 parts None in
  let m := nth 1 parts None in
  if JSNum.le (ofString (startDate inv)) (ofFields LocalTZA y m (Some 0))
     && JSNum.gt (ofString (endDate inv))
          (ofFields LocalTZA y (JSNum.sub m (Some 1)) (Some 1))
  then [amount inv] else [].

Definition chartReturned (LocalTZA : Z) (inv : Investment) (key : string)
    : list Double.t :=
  let parts := List.map Number_of_string (split "-" key) in
  let y := nth 0 parts None in
  let m := nth 1 parts None in
  if strict_eq (getFullYear LocalTZA (ofString (endDate inv))) y
     && strict_eq (JSNum.add (getMonth LocalTZA (ofString (endDate inv))) (Some 1)) m
  then [amount inv] else [].

(** The entry [it] with the amounts of [a], of [r] and of [i] added, one
    after the other, to its three totals. *)
Definition chartAdd (a r i : list Double.t) (it : ChartItem) : ChartItem :=
  mkChartItem (ch_name it) (Double.sumFrom (ch_activeCapital it) a)
    (Double.sumFrom (ch_returnedCapital it) r) (Double.sumFrom (ch_interest it) i).

(** The day number of a date in text, when it is a date. *)
Definition dayOf (s : string) : option Z := t ← parse s; Some (Day t).

(** Whether the chart counts [inv] as active capital in month [M] of year
    [Y]: it starts on or before the last day of the month and ends after
    the first; east of UTC both limits lie one day earlier. *)
Definition activeIn (LocalTZA : Z) (inv : Investment) (Y M : Z) : bool :=
  let shift := if 0 <? LocalTZA then 1 else 0 in
  match dayOf (startDate inv), dayOf (endDate inv) with
  | Some ds, Some de =>
      (ds <=? MakeDay Y M 0 - shift) && (MakeDay Y (M - 1) 1 - shift <? de)
  | _, _ => false
  end.

(** Whether the end date of [inv] lies in month [M] of year [Y] on the
    local clock. *)
Definition endsIn (LocalTZA : Z) (inv : Investment) (Y M : Z) : bool :=
  match ofString (endDate inv) with
  | Some t => (YearFromTime (LocalTime LocalTZA t) =? Y)
              && (MonthFromTime (LocalTime LocalTZA t) + 1 =? M)
  | None => false
  end.

(** The name of the month [i] months after month [M] of year [Y]: its era
    year and its month. *)
Definition monthNameAt (Y M i : Z) : string :=
  Z_toString (fst (monthsAfter Y M i) - 1911) +:+ "/"
  +:+ padStart 2 (Z_toString (snd (monthsAfter Y M i))).

(** *** The preview of an import ([analysis] of
    [src/components/ImportPreviewModal.tsx]) *)

Record ImportAnalysis : Type := mkImportAnalysis {
  an_total : nat;
  an_conflicts : list Investment;
  an_newItems : list Investment;
  an_hasConflicts : bool
}.

Definition analysis (existingData incomingData : list Investment) : ImportAnalysis :=
  let existingIds : gset string := list_to_set (List.map id existingData) in
  let conflicts := List.filter (fun i => bool_decide (id i ∈ existingIds)) incomingData in
  let newItems :=
    List.filter (fun i => negb (bool_decide (id i ∈ existingIds))) incomingData in
  mkImportAnalysis (length incomingData) conflicts newItems
    (0 <? Z.of_nat (length conflicts)).

(** *** Active and past investments *)

(** [a < b] on texts: the order of the code units. *)
Definition text_lt (a b : string) : bool :=
  match String.compare a b with
  | Lt => true
  | _ => false
  end.

(** [checkIsHistory]; [today] is [new Date().toISOString().split('T')[0]]
    at the time of the call. *)
Definition checkIsHistory (today : string) (inv : Investment) : bool :=
  let isExpired := text_lt (endDate inv) today in
  let isReturned :=
    match status inv with
    | Returned | Defaulted => true
    | _ => false
    end in
  isExpired || isReturned.

Definition activeInvestments (today : string) (investments : list Investment)
    : list Investment :=
  List.filter (fun i => negb (checkIsHistory today i)) investments.

Definition historyInvestments (today : string) (investments : list Investment)
    : list Investment :=
  List.filter (fun i => checkIsHistory today i) investments.

(** An investment that is closed: returned or in default. *)
Definition closed (inv : Investment) : bool :=
  match status inv with
  | Returned | Defaulted => true
  | _ => false
  end.

(** *** Payments and the report *)

(** Two collections with the same records up to the payment histories. *)
Definition samePlans (invs invs' : list Investment) : Prop :=
  Forall2 (fun inv inv' => inv' = with_paymentHistory inv (paymentHistory inv')) invs invs'.

(** The periods 1 to the duration that the bulk operation marks. *)
Definition markedPeriods (LocalTZA : Z) (monthStr : string) (inv : Investment) : Z :=
  Z.of_nat (length (List.filter (bulkMarks LocalTZA monthStr inv) (seqZ 1 (duration inv)))).

(** * Properties *)

Ltac divlia := Z.div_mod_to_equations; lia.


(** ** Whole numbers as doubles

    Up to [2 ^ 53] the doubles hold the whole numbers, and their sums and
    products are exact. *)

Section WholeDoubles.

Import Double.

Lemma digits2_log2 p : Zpos (digits2_pos p) = Z.log2 (Zpos p) + 1.
Proof.
  assert (H : digits2_pos p = Pos.size p) by (induction p; simpl; congruence).
  rewrite H. destruct p; simpl; lia.
Qed.

Lemma iter_xO p d : Zpos (Pos.iter xO p d) = Zpos p * 2 ^ Zpos d.
Proof.
  revert p. induction d using Pos.peano_ind; intros p.
  - cbn [Pos.iter]. rewrite Pos2Z.inj_xO. lia.
  - rewrite Pos.iter_succ, Pos2Z.inj_xO, IHd, Pos2Z.inj_succ, Z.pow_succ_r by lia. lia.
Qed.

Lemma iter_pos_nat {A} (f : A -> A) p : forall x,
  SpecFloat.iter_pos f p x = Nat.iter (Pos.to_nat p) f x.
Proof.
  induction p as [p IH | p IH |]; intros x; simpl SpecFloat.iter_pos.
  - rewrite !IH, Pos2Nat.inj_xI.
    replace (S (2 * Pos.to_nat p)) with (Pos.to_nat p + (Pos.to_nat p + 1))%nat by lia.
    rewrite !Nat.iter_add. reflexivity.
  - rewrite !IH, Pos2Nat.inj_xO.
    replace (2 * Pos.to_nat p)%nat with (Pos.to_nat p + Pos.to_nat p)%nat by lia.
    rewrite Nat.iter_add. reflexivity.
  - reflexivity.
Qed.

Lemma shr_1_even m :
  shr_1 (Build_shr_record (2 * m) false false) = Build_shr_record m false false.
Proof. destruct m; reflexivity. Qed.

Lemma shr_zeros (k : nat) : forall m,
  Nat.iter k shr_1 (Build_shr_record (m * 2 ^ Z.of_nat k) false false)
  = Build_shr_record m false false.
Proof.
  induction k as [| k IH]; intros m.
  - simpl. f_equal. lia.
  - rewrite Nat.iter_succ_r.
    replace (m * 2 ^ Z.of_nat (S k)) with (2 * (m * 2 ^ Z.of_nat k))
      by (rewrite Nat2Z.inj_succ, Z.pow_succ_r by lia; lia).
    rewrite shr_1_even. apply IH.
Qed.

Lemma shr_exact m e k :
  0 <= k ->
  shr (Build_shr_record (m * 2 ^ k) false false) e k
  = (Build_shr_record m false false, e + k).
Proof.
  intros Hk. destruct k as [| p | p]; [| | lia].
  - simpl. rewrite Z.mul_1_r, Z.add_0_r. reflexivity.
  - unfold shr. rewrite iter_pos_nat.
    replace (Z.pos p) with (Z.of_nat (Pos.to_nat p)) at 1 by lia.
    rewrite shr_zeros. reflexivity.
Qed.

Lemma raux_exact s p e k q :
  0 <= k -> Zpos p = Zpos q * 2 ^ k -> Z.log2 (Zpos q) = 52 ->
  -1074 <= e + k <= 971 ->
  binary_round_aux prec emax s (Zpos p) e loc_Exact = S754_finite s q (e + k).
Proof.
  intros Hk Hp Hq He.
  assert (Hd : Zdigits2 (Zpos p) = 53 + k).
  { cbn [Zdigits2]. rewrite digits2_log2, Hp, Z.log2_mul_pow2; [| lia | lia]. lia. }
  unfold binary_round_aux, shr_fexp.
  rewrite Hd. unfold fexp, emin, prec, emax.
  replace (Z.max (53 + k + e - 53) (3 - 1024 - 53) - e) with k by lia.
  cbn [shr_record_of_loc]. rewrite Hp, shr_exact by lia.
  cbn [shr_m loc_of_shr_record round_nearest_even].
  assert (Hd' : Zdigits2 (Zpos q) = 53) by (simpl; rewrite digits2_log2; lia).
  rewrite Hd'.
  replace (Z.max (53 + (e + k) - 53) (3 - 1024 - 53) - (e + k)) with 0 by lia.
  cbn [shr_record_of_loc shr shr_m].
  destruct (Z.leb_spec (e + k) (1024 - 53)); [reflexivity | lia].
Qed.

Lemma log2_safe n : 0 < n < 2 ^ 53 -> 0 <= Z.log2 n <= 52.
Proof.
  intros Hn. split; [apply Z.log2_nonneg |].
  assert (Z.log2 n < 53); [| lia].
  apply Z.log2_lt_pow2; lia.
Qed.

Lemma mant_pos n : 0 < n < 2 ^ 53 ->
  Zpos (mant n) = n * 2 ^ (52 - Z.log2 n) /\ Z.log2 (Zpos (mant n)) = 52.
Proof.
  intros Hn. pose proof (log2_safe n Hn) as HL.
  unfold mant. rewrite Z.abs_eq by lia.
  assert (0 < n * 2 ^ (52 - Z.log2 n)) by (apply Z.mul_pos_pos; [lia | apply Z.pow_pos_nonneg; lia]).
  rewrite Z2Pos.id by lia. split; [reflexivity |].
  rewrite Z.log2_mul_pow2 by lia. lia.
Qed.

Lemma binary_round_int s p e n :
  -1000 <= e <= 0 -> Zpos p = n * 2 ^ (- e) -> 0 < n < 2 ^ 53 ->
  binary_round prec emax s p e = S754_finite s (mant n) (Z.log2 n - 52).
Proof.
  intros He Hp Hn. pose proof (log2_safe n Hn) as HL.
  destruct (mant_pos n Hn) as [Hm Hlog].
  unfold binary_round.
  rewrite digits2_log2, Hp, Z.log2_mul_pow2 by lia.
  unfold fexp, emin, prec, emax.
  replace (Z.max (- e + Z.log2 n + 1 + e - 53) (3 - 1024 - 53)) with (Z.log2 n - 52) by lia.
  unfold shl_align.
  destruct (Z.log2 n - 52 - e) as [| d | d] eqn:Hd.
  - replace (Z.log2 n - 52) with (e + 0) by lia.
    apply raux_exact; try lia.
    rewrite Hm, Hp, Z.mul_1_r. replace (- e) with (52 - Z.log2 n) by lia. reflexivity.
  - replace (Z.log2 n - 52) with (e + Zpos d) by lia.
    apply raux_exact; try lia.
    rewrite Hm, Hp, <- Z.mul_assoc, <- Z.pow_add_r by lia.
    replace (52 - Z.log2 n + Z.pos d) with (- e) by lia. reflexivity.
  - replace (Z.log2 n - 52) with (Z.log2 n - 52 + 0) at 2 by lia.
    apply raux_exact; try lia.
    rewrite iter_xO, Hm, Hp, <- Z.mul_assoc, <- Z.pow_add_r, Z.mul_1_r by lia.
    replace (- e + Z.pos d) with (52 - Z.log2 n) by lia. reflexivity.
Qed.

Lemma ofZ_pos n : 0 < n < 2 ^ 53 -> ofZ n = S754_finite false (mant n) (Z.log2 n - 52).
Proof.
  intros Hn. unfold ofZ, binary_normalize. destruct n as [| p | p]; try lia.
  apply binary_round_int; lia.
Qed.

Lemma mant_opp n : mant (- n) = mant n.
Proof. unfold mant. rewrite Z.abs_opp. reflexivity. Qed.

Lemma ofZ_neg n : 0 < n < 2 ^ 53 -> ofZ (- n) = S754_finite true (mant n) (Z.log2 n - 52).
Proof.
  intros Hn. unfold ofZ, binary_normalize. destruct n as [| p | p]; try lia.
  simpl Z.opp. apply binary_round_int; lia.
Qed.

Lemma toZ_ofZ n : Z.abs n < 2 ^ 53 -> toZ (ofZ n) = n.
Proof.
  intros Hn.
  assert (Hpos : forall k, 0 < k < 2 ^ 53 ->
            (if 0 <=? Z.log2 k - 52 then Zpos (mant k) * 2 ^ (Z.log2 k - 52)
             else Zpos (mant k) / 2 ^ (- (Z.log2 k - 52))) = k).
  { intros k Hk. pose proof (log2_safe k Hk) as HL.
    destruct (mant_pos k Hk) as [Hm _]. rewrite Hm.
    destruct (Z.leb_spec 0 (Z.log2 k - 52)).
    - replace (Z.log2 k) with 52 by lia. simpl. lia.
    - replace (- (Z.log2 k - 52)) with (52 - Z.log2 k) by lia.
      apply Z.div_mul. apply Z.pow_nonzero; lia. }
  destruct (Z.lt_trichotomy n 0) as [H | [-> | H]].
  - replace n with (- (- n)) by lia. rewrite ofZ_neg by lia.
    unfold toZ, cond_Zopp. rewrite Hpos by lia. reflexivity.
  - reflexivity.
  - rewrite ofZ_pos by lia. unfold toZ, cond_Zopp. apply Hpos. lia.
Qed.

Lemma ofZ_0 : ofZ 0 = S754_zero false.
Proof. reflexivity. Qed.

Lemma ofZ_finite n : n <> 0 -> Z.abs n < 2 ^ 53 ->
  ofZ n = S754_finite (n <? 0) (mant n) (expo n).
Proof.
  intros Hn Hb. unfold expo. destruct (Z.ltb_spec n 0).
  - replace n with (- (- n)) at 1 by lia. rewrite ofZ_neg by lia.
    rewrite <- (mant_opp n). replace (Z.abs n) with (- n) by lia. reflexivity.
  - rewrite ofZ_pos by lia. replace (Z.abs n) with n by lia. reflexivity.
Qed.

Lemma mant_abs n : n <> 0 -> Z.abs n < 2 ^ 53 ->
  Zpos (mant n) = Z.abs n * 2 ^ (- expo n) /\ -52 <= expo n <= 0.
Proof.
  intros Hn Hb. unfold expo.
  assert (Ha : 0 < Z.abs n < 2 ^ 53) by lia.
  pose proof (log2_safe _ Ha). destruct (mant_pos _ Ha) as [Hm _].
  replace (mant n) with (mant (Z.abs n)) by (unfold mant; rewrite Z.abs_idemp; reflexivity).
  rewrite Hm. split; [| lia]. f_equal. f_equal. lia.
Qed.

Lemma shl_align_fst m e e' : e' <= e ->
  Zpos (fst (shl_align m e e')) = Zpos m * 2 ^ (e - e').
Proof.
  intros He. unfold shl_align. destruct (e' - e) as [| d | d] eqn:Hd; try lia.
  - replace (e - e') with 0 by lia. simpl fst. lia.
  - simpl fst. rewrite iter_xO. f_equal. f_equal. lia.
Qed.

Lemma normalize_int M e n :
  -1000 <= e <= 0 -> M = n * 2 ^ (- e) -> Z.abs n < 2 ^ 53 ->
  binary_normalize prec emax M e false = ofZ n.
Proof.
  intros He HM Hn.
  assert (Hp : 0 < 2 ^ (- e)) by (apply Z.pow_pos_nonneg; lia).
  destruct (Z.lt_trichotomy n 0) as [H | [-> | H]].
  - destruct M as [| p | p]; try nia.
    replace n with (- (- n)) by lia. rewrite ofZ_neg by lia.
    unfold binary_normalize. apply binary_round_int; lia.
  - subst M. reflexivity.
  - destruct M as [| p | p]; try nia.
    rewrite ofZ_pos by lia.
    unfold binary_normalize. apply binary_round_int; lia.
Qed.

Lemma cond_Zopp_abs n : cond_Zopp (n <? 0) (Z.abs n) = n.
Proof. unfold cond_Zopp. destruct (Z.ltb_spec n 0); lia. Qed.

Lemma cond_Zopp_mul b x y : cond_Zopp b (x * y) = cond_Zopp b x * y.
Proof. destruct b; simpl; lia. Qed.

(** Sums of whole numbers below [2 ^ 53] are exact. *)
Lemma add_ofZ a b :
  Z.abs a < 2 ^ 53 -> Z.abs b < 2 ^ 53 -> Z.abs (a + b) < 2 ^ 53 ->
  add (ofZ a) (ofZ b) = ofZ (a + b).
Proof.
  intros Ha Hb Hab.
  destruct (Z.eq_dec a 0) as [-> | Ha0].
  { destruct (Z.eq_dec b 0) as [-> | Hb0]; [reflexivity |].
    rewrite Z.add_0_l, (ofZ_finite b) by assumption. reflexivity. }
  destruct (Z.eq_dec b 0) as [-> | Hb0].
  { rewrite Z.add_0_r, (ofZ_finite a) by assumption. reflexivity. }
  rewrite (ofZ_finite a), (ofZ_finite b) by assumption.
  destruct (mant_abs a Ha0 Ha) as [Hma Hea], (mant_abs b Hb0 Hb) as [Hmb Heb].
  unfold add, SFadd.
  apply normalize_int; [lia | | assumption].
  rewrite !shl_align_fst by lia.
  rewrite Hma, Hmb, <- !Z.mul_assoc, <- !Z.pow_add_r by lia.
  replace (- expo a + (expo a - Z.min (expo a) (expo b)))
    with (- Z.min (expo a) (expo b)) by lia.
  replace (- expo b + (expo b - Z.min (expo a) (expo b)))
    with (- Z.min (expo a) (expo b)) by lia.
  rewrite !cond_Zopp_mul, !cond_Zopp_abs. lia.
Qed.

Lemma add_negzero a : Z.abs a < 2 ^ 53 -> add (ofZ a) (S754_zero true) = ofZ a.
Proof.
  intros Ha. destruct (Z.eq_dec a 0) as [-> | Ha0]; [reflexivity |].
  rewrite (ofZ_finite a) by assumption. reflexivity.
Qed.

Lemma log2_mul_safe a b : 0 < a -> 0 < b ->
  Z.log2 a + Z.log2 b <= Z.log2 (a * b) <= Z.log2 a + Z.log2 b + 1.
Proof.
  intros Ha Hb. split; [apply Z.log2_mul_below; assumption |].
  apply Z.log2_mul_above; lia.
Qed.

(** Products of whole numbers are exact while they stay below [2 ^ 53]. *)
Lemma mul_ofZ a b :
  a <> 0 -> b <> 0 -> Z.abs (a * b) < 2 ^ 53 ->
  mul (ofZ a) (ofZ b) = ofZ (a * b).
Proof.
  intros Ha0 Hb0 Hab.
  assert (Ha : Z.abs a < 2 ^ 53) by nia.
  assert (Hb : Z.abs b < 2 ^ 53) by nia.
  assert (Hab0 : a * b <> 0) by nia.
  rewrite (ofZ_finite a), (ofZ_finite b), (ofZ_finite (a * b)) by assumption.
  destruct (mant_abs a Ha0 Ha) as [Hma Hea], (mant_abs b Hb0 Hb) as [Hmb Heb].
  destruct (mant_abs (a * b) Hab0 Hab) as [Hm He].
  assert (HL : Z.log2 (Z.pos (mant (a * b))) = 52).
  { assert (Hx : 0 < Z.abs (a * b) < 2 ^ 53) by lia.
    destruct (mant_pos _ Hx) as [_ HL].
    unfold mant in *. rewrite Z.abs_idemp in HL. exact HL. }
  pose proof (log2_mul_safe (Z.abs a) (Z.abs b) ltac:(lia) ltac:(lia)) as Hlog.
  rewrite <- Z.abs_mul in Hlog.
  unfold mul, SFmul.
  replace (xorb (a <? 0) (b <? 0)) with (a * b <? 0)
    by (destruct (Z.ltb_spec a 0), (Z.ltb_spec b 0), (Z.ltb_spec (a * b) 0); try reflexivity; nia).
  rewrite (raux_exact _ _ _ (expo (a * b) - expo a - expo b) (mant (a * b)));
    unfold expo in *; try lia.
  - f_equal. lia.
  - rewrite Pos2Z.inj_mul, Hma, Hmb, Hm.
    set (x := Z.log2 (Z.abs a)) in *. set (y := Z.log2 (Z.abs b)) in *.
    set (z := Z.log2 (Z.abs (a * b))) in *.
    rewrite <- (Z.mul_assoc (Z.abs (a * b))), <- Z.pow_add_r by lia.
    replace (- (z - 52) + (z - 52 - (x - 52) - (y - 52)))
      with (- (x - 52) + - (y - 52)) by lia.
    rewrite Z.pow_add_r, Z.abs_mul by lia. lia.
Qed.

Lemma safe_finite s m e :
  isSafeInteger (S754_finite s m e) = true ->
  let n := cond_Zopp s (Zpos m / 2 ^ (- e)) in
  toZ (S754_finite s m e) = n /\ n <> 0 /\ Z.abs n < 2 ^ 53
  /\ S754_finite s m e = ofZ n.
Proof.
  unfold isSafeInteger. intros H.
  apply andb_true_iff in H as [H H4]. apply andb_true_iff in H as [H H3].
  apply andb_true_iff in H as [H1 H2].
  apply Z.leb_le in H1, H2. apply Z.eqb_eq in H3, H4.
  assert (Hp : 0 < 2 ^ (- e)) by (apply Z.pow_pos_nonneg; lia).
  set (q := Zpos m / 2 ^ (- e)).
  assert (Hm : Zpos m = q * 2 ^ (- e)).
  { pose proof (Z.div_mod (Zpos m) (2 ^ (- e)) ltac:(lia)) as Hdm.
    rewrite H4 in Hdm. subst q. lia. }
  assert (Hq : 0 < q) by nia.
  assert (Hlog : Z.log2 q = 52 + e).
  { rewrite Hm, Z.log2_mul_pow2 in H3 by lia. lia. }
  assert (Hb : q < 2 ^ 53).
  { apply Z.log2_lt_pow2; lia. }
  cbv zeta. fold q.
  assert (Habs : Z.abs (cond_Zopp s q) = q) by (destruct s; simpl; lia).
  split; [| split; [| split]].
  - unfold toZ. destruct (Z.leb_spec 0 e); [| reflexivity].
    f_equal. rewrite Hm. replace e with 0 by lia. simpl. lia.
  - destruct s; simpl; lia.
  - lia.
  - rewrite ofZ_finite by (destruct s; simpl; lia).
    unfold mant, expo. rewrite Habs, Hlog.
    replace (52 - (52 + e)) with (- e) by lia. rewrite <- Hm.
    assert (Hs : (cond_Zopp s q <? 0) = s).
    { destruct s; simpl; [apply Z.ltb_lt | apply Z.ltb_ge]; lia. }
    rewrite Hs. f_equal. lia.
Qed.

(** A safe integer is the double of its whole part, or the negative zero. *)
Lemma safe_repr x :
  isSafeInteger x = true ->
  (x = ofZ (toZ x) \/ x = S754_zero true) /\ Z.abs (toZ x) < 2 ^ 53.
Proof.
  destruct x as [[|] | | | s m e]; try discriminate; intros H.
  - split; [right; reflexivity | simpl; lia].
  - split; [left; reflexivity | simpl; lia].
  - destruct (safe_finite s m e H) as (E & _ & Hb & Hx). cbv zeta in *.
    rewrite E. split; [left; exact Hx | exact Hb].
Qed.

Lemma ofZ_safe n : Z.abs n < 2 ^ 53 -> isSafeInteger (ofZ n) = true.
Proof.
  intros Hn. destruct (Z.eq_dec n 0) as [-> | Hn0]; [reflexivity |].
  rewrite ofZ_finite by assumption.
  destruct (mant_abs n Hn0 Hn) as [Hm He].
  assert (Ha : 0 < Z.abs n < 2 ^ 53) by lia.
  destruct (mant_pos _ Ha) as [_ HL].
  replace (mant (Z.abs n)) with (mant n) in HL
    by (unfold mant; rewrite Z.abs_idemp; reflexivity).
  unfold isSafeInteger. rewrite HL, Hm, Z.mod_mul by (apply Z.pow_nonzero; lia).
  destruct (Z.leb_spec (-52) (expo n)), (Z.leb_spec (expo n) 0); first [lia | reflexivity].
Qed.

Lemma add_whole a y :
  Z.abs a < 2 ^ 53 -> isSafeInteger y = true -> Z.abs (a + toZ y) < 2 ^ 53 ->
  add (ofZ a) y = ofZ (a + toZ y).
Proof.
  intros Ha Hy Hs. destruct (safe_repr y Hy) as [[E | E] Hb].
  - rewrite E at 1. apply add_ofZ; assumption.
  - subst y. simpl toZ. rewrite Z.add_0_r. apply add_negzero. assumption.
Qed.

Lemma absSum_cons x l : absSum (x :: l) = Z.abs (toZ x) + absSum l.
Proof. reflexivity. Qed.

Lemma absSum_nonneg l : 0 <= absSum l.
Proof. induction l as [| x l IH]; [cbv; discriminate | rewrite absSum_cons; lia]. Qed.

Lemma sumZ_abs_le l : Z.abs (sumZ (List.map toZ l)) <= absSum l.
Proof.
  induction l as [| x l IH]; [cbv; discriminate |].
  rewrite absSum_cons. cbn [List.map]. unfold sumZ in *. cbn [foldr]. lia.
Qed.

(** A loop that adds whole numbers adds them exactly while the magnitudes
    together stay below [2 ^ 53]. *)
Lemma sumFrom_whole l : forall a,
  Forall (fun x => isSafeInteger x = true) l -> Z.abs a + absSum l < 2 ^ 53 ->
  sumFrom (ofZ a) l = ofZ (a + sumZ (List.map toZ l)).
Proof.
  induction l as [| x l IH]; intros a Hl Hb.
  - cbn. f_equal. lia.
  - apply Forall_cons_1 in Hl as [Hx Hl]. rewrite absSum_cons in Hb.
    pose proof (absSum_nonneg l).
    unfold sumFrom in *. cbn [foldl].
    rewrite add_whole by (assumption || lia).
    rewrite IH by (assumption || lia).
    f_equal. cbn [List.map]. unfold sumZ. cbn [foldr]. lia.
Qed.

Lemma sum_whole l :
  Forall (fun x => isSafeInteger x = true) l -> absSum l < 2 ^ 53 ->
  sum l = ofZ (sumZ (List.map toZ l)).
Proof.
  intros Hl Hb. unfold sum. change zero with (ofZ 0).
  rewrite sumFrom_whole by (assumption || (simpl Z.abs; lia)). reflexivity.
Qed.

Lemma sumZ_perm l l' : Permutation l l' -> sumZ l = sumZ l'.
Proof. induction 1; unfold sumZ in *; cbn [foldr]; lia. Qed.

(** Whole numbers can be added in any order. *)
Lemma sum_whole_perm l l' :
  Permutation l l' ->
  Forall (fun x => isSafeInteger x = true) l -> absSum l < 2 ^ 53 ->
  sum l = sum l'.
Proof.
  intros Hp Hl Hb.
  assert (Hl' : Forall (fun x => isSafeInteger x = true) l')
    by (rewrite <- Hp; assumption).
  assert (Hb' : absSum l' = absSum l)
    by (unfold absSum; apply sumZ_perm, Permutation_map; symmetry; assumption).
  rewrite !sum_whole by (assumption || lia).
  f_equal. apply sumZ_perm, Permutation_map. assumption.
Qed.

(** The product of a whole number and a count. *)
Lemma mul_whole x c :
  isSafeInteger x = true -> 0 <= c -> Z.abs (toZ x * c) < 2 ^ 53 -> c < 2 ^ 53 ->
  isSafeInteger (mul x (ofZ c)) = true /\ toZ (mul x (ofZ c)) = toZ x * c.
Proof.
  intros Hx Hc Hb Hc'.
  destruct (Z.eq_dec c 0) as [-> | Hc0].
  { rewrite Z.mul_0_r. destruct x; try discriminate; split; reflexivity. }
  destruct x as [s | | | s m e]; try discriminate.
  - rewrite (ofZ_finite c) by lia. split; reflexivity.
  - destruct (safe_finite s m e Hx) as (E & Hn0 & Hn & Hrepr). cbv zeta in *.
    rewrite E in *. rewrite Hrepr, mul_ofZ by assumption.
    split; [apply ofZ_safe; assumption | apply toZ_ofZ; assumption].
Qed.

End WholeDoubles.

(** ** Digits and padding *)

Section Digits.

Lemma nat_of_digitChar k :
  0 <= k < 10 -> nat_of_ascii (digitChar k) = Z.to_nat (48 + k).
Proof.
  intros Hk. unfold digitChar. apply nat_ascii_embedding. lia.
Qed.

Lemma isDigit_digitChar k : 0 <= k < 10 -> isDigit (digitChar k) = true.
Proof.
  intros Hk. unfold isDigit. rewrite nat_of_digitChar by assumption.
  apply andb_true_iff. split; apply Z.leb_le; lia.
Qed.

Lemma digitValue_digitChar k : 0 <= k < 10 -> digitValue (digitChar k) = k.
Proof.
  intros Hk. unfold digitValue. rewrite nat_of_digitChar by assumption. lia.
Qed.

Lemma digitChar_not c k :
  0 <= k < 10 -> isDigit c = false -> Ascii.eqb (digitChar k) c = false.
Proof.
  intros Hk Hc. apply Ascii.eqb_neq. intros <-.
  rewrite isDigit_digitChar in Hc by assumption. discriminate.
Qed.

Lemma digits_fuel_enough f :
  forall n acc g, 0 <= n < 10 ^ Z.of_nat (S f) -> (S f <= g)%nat ->
    digits_fuel g n acc = digits_fuel (S f) n acc.
Proof.
  induction f as [| f IH]; intros n acc g Hn Hg;
    (destruct g as [| g]; [lia |]); simpl digits_fuel.
  - change (10 ^ Z.of_nat 1) with 10 in Hn.
    destruct (Z.ltb_spec n 10); [reflexivity | lia].
  - destruct (Z.ltb_spec n 10); [reflexivity |].
    apply IH; [| lia].
    rewrite Nat2Z.inj_succ, Z.pow_succ_r in Hn by lia.
    split; [apply Z.div_pos; lia |].
    apply Z.div_lt_upper_bound; lia.
Qed.

Lemma Z_toString_fuel n f :
  0 <= n < 10 ^ Z.of_nat (S f) -> Z.of_nat f <= Z.log2 n ->
  Z_toString n = digits_fuel (S f) n EmptyString.
Proof.
  intros Hn Hf. unfold Z_toString.
  destruct (Z.ltb_spec n 0); [lia |].
  apply digits_fuel_enough; [assumption | lia].
Qed.

Lemma Z_toString_1 n :
  0 <= n < 10 -> Z_toString n = String (digitChar n) EmptyString.
Proof.
  intros Hn. rewrite (Z_toString_fuel n 0).
  - simpl. destruct (Z.ltb_spec n 10); [| lia].
    rewrite Z.mod_small by lia. reflexivity.
  - change (10 ^ Z.of_nat 1) with 10. lia.
  - apply Z.log2_nonneg.
Qed.

Lemma Z_toString_2 n :
  10 <= n < 100 ->
  Z_toString n = String (digitChar (n / 10)) (String (digitChar (n mod 10)) EmptyString).
Proof.
  intros Hn. rewrite (Z_toString_fuel n 1).
  - simpl. destruct (Z.ltb_spec n 10); [lia |].
    destruct (Z.ltb_spec (n / 10) 10); [| divlia].
    rewrite (Z.mod_small (n / 10)) by divlia. reflexivity.
  - change (10 ^ Z.of_nat 2) with 100. lia.
  - change (Z.of_nat 1) with (Z.log2 2). apply Z.log2_le_mono. lia.
Qed.

Lemma Z_toString_3 n :
  100 <= n < 1000 ->
  Z_toString n = String (digitChar (n / 100))
                   (String (digitChar (n / 10 mod 10))
                      (String (digitChar (n mod 10)) EmptyString)).
Proof.
  intros Hn. rewrite (Z_toString_fuel n 2).
  - simpl. destruct (Z.ltb_spec n 10); [lia |].
    destruct (Z.ltb_spec (n / 10) 10); [divlia |].
    destruct (Z.ltb_spec (n / 10 / 10) 10); [| divlia].
    replace (n / 10 / 10 mod 10) with (n / 100) by divlia. reflexivity.
  - change (10 ^ Z.of_nat 3) with 1000. lia.
  - change (Z.of_nat 2) with (Z.log2 4). apply Z.log2_le_mono. lia.
Qed.

Lemma Z_toString_4 n :
  1000 <= n < 10000 ->
  Z_toString n = String (digitChar (n / 1000))
                   (String (digitChar (n / 100 mod 10))
                      (String (digitChar (n / 10 mod 10))
                         (String (digitChar (n mod 10)) EmptyString))).
Proof.
  intros Hn. rewrite (Z_toString_fuel n 3).
  - simpl. destruct (Z.ltb_spec n 10); [lia |].
    destruct (Z.ltb_spec (n / 10) 10); [divlia |].
    destruct (Z.ltb_spec (n / 10 / 10) 10); [divlia |].
    destruct (Z.ltb_spec (n / 10 / 10 / 10) 10); [| divlia].
    replace (n / 10 / 10 / 10 mod 10) with (n / 1000) by divlia.
    replace (n / 10 / 10 mod 10) with (n / 100 mod 10) by divlia.
    reflexivity.
  - change (10 ^ Z.of_nat 4) with 10000. lia.
  - change (Z.of_nat 3) with (Z.log2 8). apply Z.log2_le_mono. lia.
Qed.

(** Two-digit and four-digit zero padding, digit by digit. *)
Lemma pad2_digits n :
  0 <= n < 100 ->
  padStart 2 (Z_toString n)
  = String (digitChar (n / 10)) (String (digitChar (n mod 10)) EmptyString).
Proof.
  intros Hn. destruct (Z.ltb_spec n 10).
  - rewrite Z_toString_1 by lia.
    rewrite Z.div_small, Z.mod_small by lia. reflexivity.
  - rewrite Z_toString_2 by lia. reflexivity.
Qed.

Lemma pad4_digits n :
  0 <= n < 10000 ->
  padStart 4 (Z_toString n)
  = String (digitChar (n / 1000))
      (String (digitChar (n / 100 mod 10))
         (String (digitChar (n / 10 mod 10))
            (String (digitChar (n mod 10)) EmptyString))).
Proof.
  intros Hn.
  destruct (Z.ltb_spec n 10); [| destruct (Z.ltb_spec n 100);
                                 [| destruct (Z.ltb_spec n 1000)]].
  - rewrite Z_toString_1 by lia.
    replace (n / 1000) with 0 by divlia.
    replace (n / 100 mod 10) with 0 by divlia.
    replace (n / 10 mod 10) with 0 by divlia.
    rewrite Z.mod_small by lia. reflexivity.
  - rewrite Z_toString_2 by lia.
    replace (n / 1000) with 0 by divlia.
    replace (n / 100 mod 10) with 0 by divlia.
    replace (n / 10 mod 10) with (n / 10) by divlia. reflexivity.
  - rewrite Z_toString_3 by lia.
    replace (n / 1000) with 0 by divlia.
    replace (n / 100 mod 10) with (n / 100) by divlia. reflexivity.
  - rewrite Z_toString_4 by lia. reflexivity.
Qed.

End Digits.

(** ** Calendar arithmetic *)

Section Calendar.

(** The epoch, a leap day, and the last day of January 2025. *)
Example MakeDay_epoch : MakeDay 1970 0 1 = 0.
Proof. reflexivity. Qed.

Example MakeDay_leap_day : MakeDay 2000 1 29 = 11016 /\ MakeDay 2000 2 1 = 11017.
Proof. split; reflexivity. Qed.

Example civil_of_day_20119 :
  YearFromTime (20119 * msPerDay) = 2025
  /\ MonthFromTime (20119 * msPerDay) = 0
  /\ DateFromTime (20119 * msPerDay) = 31.
Proof. repeat split; vm_compute; reflexivity. Qed.

Lemma isLeapYear_spec y :
  isLeapYear y = true <-> y mod 4 = 0 /\ (y mod 100 <> 0 \/ y mod 400 = 0).
Proof.
  unfold isLeapYear.
  rewrite andb_true_iff, orb_true_iff, negb_true_iff, !Z.eqb_eq, Z.eqb_neq.
  tauto.
Qed.

Lemma DayFromYear_succ y : DayFromYear (y + 1) = DayFromYear y + DaysInYear y.
Proof.
  unfold DayFromYear, DaysInYear.
  destruct (isLeapYear y) eqn:E.
  - apply isLeapYear_spec in E. divlia.
  - assert (~ (y mod 4 = 0 /\ (y mod 100 <> 0 \/ y mod 400 = 0))) as N.
    { rewrite <- isLeapYear_spec, E. discriminate. }
    divlia.
Qed.

Lemma DaysInYear_pos y : 365 <= DaysInYear y <= 366.
Proof. unfold DaysInYear. destruct (isLeapYear y); lia. Qed.

Lemma DayFromYear_lower y : 146097 * (y - 1970) - 607 <= 400 * DayFromYear y.
Proof. unfold DayFromYear. divlia. Qed.

Lemma DayFromYear_upper y : 400 * DayFromYear y <= 146097 * (y - 1970) + 592.
Proof. unfold DayFromYear. divlia. Qed.

Lemma YearFromDay_unique y n :
  DayFromYear y <= n < DayFromYear (y + 1) -> YearFromDay n = y.
Proof.
  intros [Hlo Hhi]. unfold YearFromDay.
  set (e := 1970 + n * 400 / 146097).
  pose proof (DayFromYear_lower y) as L.
  pose proof (DayFromYear_upper (y + 1)) as U.
  assert (y - 1 <= e <= y + 1) as He by (subst e; divlia).
  pose proof (DayFromYear_succ (y + 1)) as S1.
  pose proof (DaysInYear_pos (y + 1)) as P1.
  assert (e = y - 1 \/ e = y \/ e = y + 1) as [-> | [-> | ->]] by lia.
  - replace (y - 1 + 1) with y by lia.
    destruct (Z.leb_spec (DayFromYear y) n); lia.
  - destruct (Z.leb_spec (DayFromYear (y + 1)) n); [lia |].
    destruct (Z.leb_spec (DayFromYear y) n); lia.
  - destruct (Z.leb_spec (DayFromYear (y + 1 + 1)) n); [lia |].
    destruct (Z.leb_spec (DayFromYear (y + 1)) n); lia.
Qed.

(** The months of a year partition its days. *)
Lemma monthStart_bounds l m :
  0 <= l <= 1 -> 0 <= m <= 11 ->
  0 <= monthStart l m /\ 28 <= monthStart l (m + 1) - monthStart l m <= 31
  /\ monthStart l (m + 1) <= 365 + l.
Proof.
  intros Hl Hm.
  assert (m = 0 \/ m = 1 \/ m = 2 \/ m = 3 \/ m = 4 \/ m = 5 \/ m = 6
          \/ m = 7 \/ m = 8 \/ m = 9 \/ m = 10 \/ m = 11) as Hc by lia.
  repeat (destruct Hc as [-> | Hc]); try subst m; simpl; lia.
Qed.

Lemma DaysInMonth_bounds y m : 0 <= m <= 11 -> 28 <= DaysInMonth y m <= 31.
Proof.
  intros Hm. unfold DaysInMonth.
  destruct (isLeapYear y); apply monthStart_bounds; lia.
Qed.

(** A day of the year lies in the month whose span contains it. *)
Lemma month_of_day l m d :
  0 <= l <= 1 -> 0 <= m <= 11 ->
  monthStart l m <= d < monthStart l (m + 1) ->
  (if d <? 31 then 0
   else if d <? 59 + l then 1
   else if d <? 90 + l then 2
   else if d <? 120 + l then 3
   else if d <? 151 + l then 4
   else if d <? 181 + l then 5
   else if d <? 212 + l then 6
   else if d <? 243 + l then 7
   else if d <? 273 + l then 8
   else if d <? 304 + l then 9
   else if d <? 334 + l then 10
   else 11) = m.
Proof.
  intros Hl Hm.
  assert (m = 0 \/ m = 1 \/ m = 2 \/ m = 3 \/ m = 4 \/ m = 5 \/ m = 6
          \/ m = 7 \/ m = 8 \/ m = 9 \/ m = 10 \/ m = 11) as Hc by lia.
  repeat (destruct Hc as [-> | Hc]); try subst m; simpl; intros Hd;
    repeat (match goal with
            | |- context [?a <? ?b] => destruct (Z.ltb_spec a b); try lia
            end); reflexivity.
Qed.

(** The civil date of a day number built from a valid civil date. *)
Lemma civil_of_MakeDay y m d tw :
  0 <= m <= 11 -> 1 <= d <= DaysInMonth y m -> 0 <= tw < msPerDay ->
  let t := MakeDate (MakeDay y m d) tw in
  YearFromTime t = y /\ MonthFromTime t = m /\ DateFromTime t = d
  /\ TimeWithinDay t = tw /\ Day t = MakeDay y m d.
Proof.
  intros Hm Hd Htw t.
  assert (Day t = MakeDay y m d) as HD.
  { unfold t, Day, MakeDate, msPerDay in *. divlia. }
  assert (TimeWithinDay t = tw) as HT.
  { unfold t, TimeWithinDay, MakeDate, msPerDay in *. divlia. }
  assert (MakeDay y m d
          = DayFromYear y + monthStart (if isLeapYear y then 1 else 0) m + d - 1) as HM.
  { unfold MakeDay. rewrite Z.div_small, Z.mod_small by lia.
    replace (y + 0) with y by lia. reflexivity. }
  set (l := if isLeapYear y then 1 else 0) in *.
  assert (0 <= l <= 1) as Hl by (subst l; destruct (isLeapYear y); lia).
  pose proof (monthStart_bounds l m Hl Hm) as (B0 & B1 & B2).
  unfold DaysInMonth in Hd. fold l in Hd.
  assert (YearFromTime t = y) as HY.
  { unfold YearFromTime. rewrite HD. apply YearFromDay_unique.
    rewrite DayFromYear_succ, HM. unfold DaysInYear. subst l.
    destruct (isLeapYear y); lia. }
  assert (InLeapYear t = l) as HL by (unfold InLeapYear; rewrite HY; reflexivity).
  assert (DayWithinYear t = monthStart l m + d - 1) as HW.
  { unfold DayWithinYear. rewrite HD, HY, HM. lia. }
  assert (MonthFromTime t = m) as HMo.
  { unfold MonthFromTime. rewrite HW, HL. apply month_of_day; lia. }
  repeat split; try assumption.
  unfold DateFromTime. rewrite HW, HL, HMo. lia.
Qed.

End Calendar.


(** ** Dates and their text *)

Section DateText.

Lemma TimeClip_ok t : Z.abs t <= 8640000000000000 -> TimeClip t = Some t.
Proof.
  intros H. unfold TimeClip. destruct (Z.gtb_spec (Z.abs t) 8640000000000000); [lia | reflexivity].
Qed.

(** Day numbers of the years the Date object can hold stay far inside the
    range of time values. *)
Lemma MakeDay_range y m d :
  -270000 <= y <= 270000 -> 0 <= m <= 11 -> -40 <= d <= 40 ->
  -99500000 <= MakeDay y m d <= 99500000.
Proof.
  intros Hy Hm Hd. unfold MakeDay.
  rewrite Z.div_small, Z.mod_small by lia. replace (y + 0) with y by lia.
  pose proof (DayFromYear_lower y). pose proof (DayFromYear_upper y).
  assert (0 <= (if isLeapYear y then 1 else 0) <= 1) as Hl
    by (destruct (isLeapYear y); lia).
  pose proof (monthStart_bounds _ m Hl Hm). lia.
Qed.

Lemma ValidDate_day y m d : ValidDate y m d -> 1 <= d <= 31.
Proof.
  intros [Hm Hd]. pose proof (DaysInMonth_bounds y (m - 1)). lia.
Qed.

Lemma isoDate_digits y m d :
  0 <= y <= 9999 -> 0 <= m < 100 -> 0 <= d < 100 ->
  isoDate y m d
  = String (digitChar (y / 1000)) (String (digitChar (y / 100 mod 10))
      (String (digitChar (y / 10 mod 10)) (String (digitChar (y mod 10))
        (String "-" (String (digitChar (m / 10)) (String (digitChar (m mod 10))
          (String "-" (String (digitChar (d / 10))
             (String (digitChar (d mod 10)) EmptyString))))))))).
Proof.
  intros Hy Hm Hd. unfold isoDate.
  destruct (Z.leb_spec 0 y); [| lia]. destruct (Z.leb_spec y 9999); [| lia].
  cbn [andb]. rewrite pad4_digits, !pad2_digits by lia. reflexivity.
Qed.

Lemma parse_isoDate y m d :
  0 <= y <= 9999 -> ValidDate y m d ->
  parse (isoDate y m d) = Some (MakeDate (MakeDay y (m - 1) d) 0).
Proof.
  intros Hy Hv. pose proof (ValidDate_day _ _ _ Hv) as Hd31.
  destruct Hv as [Hm Hd].
  rewrite isoDate_digits by lia. unfold parse.
  rewrite !isDigit_digitChar by divlia.
  rewrite !digitValue_digitChar by divlia.
  change (Ascii.eqb "-" "-") with true. cbn [andb].
  replace (1000 * (y / 1000) + 100 * (y / 100 mod 10) + 10 * (y / 10 mod 10) + y mod 10)
    with y by divlia.
  replace (10 * (m / 10) + m mod 10) with m by divlia.
  replace (10 * (d / 10) + d mod 10) with d by divlia.
  destruct (Z.leb_spec 1 m); [| lia]. destruct (Z.leb_spec m 12); [| lia].
  destruct (Z.leb_spec 1 d); [| lia].
  destruct (Z.leb_spec d (DaysInMonth y (m - 1))); [| lia].
  cbn [andb]. apply TimeClip_ok.
  pose proof (MakeDay_range y (m - 1) d). unfold MakeDate, msPerDay. lia.
Qed.

(** In a zone east of Greenwich the local date at UTC midnight is the UTC
    date. *)
Lemma local_fields tz y m d :
  0 <= tz < msPerDay -> ValidDate y m d ->
  let date := Some (MakeDate (MakeDay y (m - 1) d) 0) in
  getFullYear tz date = Some y /\ getMonth tz date = Some (m - 1)
  /\ getDate tz date = Some d.
Proof.
  intros Htz [Hm Hd]. simpl. unfold LocalTime.
  assert (0 <= m - 1 <= 11) as Hm' by lia.
  destruct (civil_of_MakeDay y (m - 1) d tz Hm' Hd Htz) as (HY & HM & HD & _).
  replace (MakeDate (MakeDay y (m - 1) d) 0 + tz)
    with (MakeDate (MakeDay y (m - 1) d) tz) by (unfold MakeDate; lia).
  rewrite HY, HM, HD. auto.
Qed.

End DateText.

(** ** The calendar adapter *)

Section CalendarAdapter.

Lemma replace_nondigits_idem s :
  replace_nondigits (replace_nondigits s) = replace_nondigits s.
Proof.
  induction s as [| c r IH]; [reflexivity |].
  simpl. destruct (isDigit c) eqn:E; [| assumption].
  simpl. rewrite E, IH. reflexivity.
Qed.

Lemma replace_nondigits_digits s :
  all_digits s = true -> replace_nondigits s = s.
Proof.
  induction s as [| c r IH]; [reflexivity |].
  simpl. intros [Hc Hr]%andb_true_iff. rewrite Hc, IH by assumption. reflexivity.
Qed.

Lemma leading_digits_digits s : all_digits s = true -> leading_digits s = s.
Proof.
  induction s as [| c r IH]; [reflexivity |].
  simpl. intros [Hc Hr]%andb_true_iff. rewrite Hc, IH by assumption. reflexivity.
Qed.

Lemma parseInt_2 a b :
  0 <= a < 10 -> 0 <= b < 10 ->
  parseInt (String (digitChar a) (String (digitChar b) EmptyString)) = Some (10 * a + b).
Proof.
  intros Ha Hb. unfold parseInt. rewrite leading_digits_digits.
  - cbn [digits_value]. rewrite !digitValue_digitChar by assumption. f_equal; lia.
  - cbn [all_digits]. rewrite !isDigit_digitChar by assumption. reflexivity.
Qed.

Lemma parseInt_3 a b c :
  0 <= a < 10 -> 0 <= b < 10 -> 0 <= c < 10 ->
  parseInt (String (digitChar a) (String (digitChar b) (String (digitChar c) EmptyString)))
  = Some (100 * a + 10 * b + c).
Proof.
  intros Ha Hb Hc. unfold parseInt. rewrite leading_digits_digits.
  - cbn [digits_value]. rewrite !digitValue_digitChar by assumption. f_equal; lia.
  - cbn [all_digits]. rewrite !isDigit_digitChar by assumption. reflexivity.
Qed.

Lemma rocInputToISO_split tz s :
  rocInputToISO tz s
  = match rocFields s with
    | Some (y, m, d) => rocCheck tz y m d
    | None => None
    end.
Proof.
  unfold rocInputToISO, rocFields, rocCheck.
  destruct (negb (strlen (replace_nondigits s) =? 6)
            && negb (strlen (replace_nondigits s) =? 7)); [reflexivity |].
  destruct (strlen (replace_nondigits s) =? 7); reflexivity.
Qed.

(** Fields that name a day of the calendar pass the check. *)
Lemma rocCheck_valid tz y m d :
  - msPerDay < tz < msPerDay -> 100 <= y <= 9999 -> ValidDate y m d ->
  rocCheck tz (Some y) (Some m) (Some d)
  = Some (Z_toString y +:+ "-" +:+ padStart 2 (Z_toString m) +:+ "-"
          +:+ padStart 2 (Z_toString d)).
Proof.
  intros Htz Hy Hv. pose proof (ValidDate_day _ _ _ Hv) as Hd31.
  destruct Hv as [Hm Hd]. unfold rocCheck, JSNum.lt, JSNum.gt, JSNum.lt.
  destruct (Z.ltb_spec m 1); [lia |]. destruct (Z.ltb_spec 12 m); [lia |].
  cbn [orb JSNum.sub mbind option_bind].
  unfold ofFields. cbn [mbind option_bind].
  destruct (Z.leb_spec 0 y); [| lia]. destruct (Z.leb_spec y 99); [lia |].
  cbn [andb]. unfold UTC. change (MakeTime 0 0 0 0) with 0.
  rewrite TimeClip_ok.
  2:{ pose proof (MakeDay_range y (m - 1) d). unfold MakeDate, msPerDay in *. lia. }
  unfold getFullYear, getMonth, getDate, LocalTime. cbn [mbind option_bind].
  replace (MakeDate (MakeDay y (m - 1) d) 0 - tz + tz)
    with (MakeDate (MakeDay y (m - 1) d) 0) by lia.
  assert (0 <= m - 1 <= 11) as Hm' by lia.
  assert (0 <= 0 < msPerDay) as Hz by (unfold msPerDay; lia).
  destruct (civil_of_MakeDay y (m - 1) d 0 Hm' Hd Hz) as (HY & HM & HD & _).
  rewrite HY, HM, HD. unfold JSNum.strict_neq, JSNum.add. cbn [mbind option_bind].
  rewrite !Z.eqb_refl. replace (m - 1 + 1 =? m) with true by (symmetry; apply Z.eqb_eq; lia).
  reflexivity.
Qed.

Lemma append_cons c (s t : string) : String c s +:+ t = String c (s +:+ t).
Proof. reflexivity. Qed.

Lemma append_nil (t : string) : "" +:+ t = t.
Proof. reflexivity. Qed.

Lemma isoToROCInput_valid tz y m d :
  0 <= tz < msPerDay -> 0 <= y <= 9999 -> ValidDate y m d ->
  isoToROCInput tz (isoDate y m d)
  = Z_toString (y - 1911) +:+ padStart 2 (Z_toString m) +:+ padStart 2 (Z_toString d).
Proof.
  intros Htz Hy Hv. pose proof (ValidDate_day _ _ _ Hv) as Hd31.
  unfold isoToROCInput.
  assert (String.eqb (isoDate y m d) "" = false) as ->.
  { destruct Hv. rewrite isoDate_digits by lia. reflexivity. }
  unfold ofString, getTime. rewrite parse_isoDate by assumption.
  destruct (local_fields tz y m d Htz Hv) as (-> & -> & ->).
  cbn [JSNum.sub JSNum.add mbind option_bind Number_toString].
  replace (m - 1 + 1) with m by lia. reflexivity.
Qed.

Lemma rocFields_6 a b c d e f :
  0 <= a < 10 -> 0 <= b < 10 -> 0 <= c < 10 ->
  0 <= d < 10 -> 0 <= e < 10 -> 0 <= f < 10 ->
  rocFields (String (digitChar a) (String (digitChar b) (String (digitChar c)
              (String (digitChar d) (String (digitChar e)
                 (String (digitChar f) EmptyString))))))
  = Some (Some (10 * a + b + 1911), Some (10 * c + d), Some (10 * e + f)).
Proof.
  intros Ha Hb Hc Hd He Hf. unfold rocFields.
  rewrite replace_nondigits_digits
    by (cbn [all_digits]; rewrite !isDigit_digitChar by assumption; reflexivity).
  change (strlen _) with 6. cbn [Z.eqb Pos.eqb negb andb].
  change (substring 0 2 ?s) with (String.substring 0 2 s).
  change (substring 2 4 ?s) with (String.substring 2 2 s).
  change (substring 4 6 ?s) with (String.substring 4 2 s).
  cbn [String.substring]. rewrite !parseInt_2 by assumption. reflexivity.
Qed.

Lemma rocFields_7 a b c d e f g :
  0 <= a < 10 -> 0 <= b < 10 -> 0 <= c < 10 -> 0 <= d < 10 ->
  0 <= e < 10 -> 0 <= f < 10 -> 0 <= g < 10 ->
  rocFields (String (digitChar a) (String (digitChar b) (String (digitChar c)
              (String (digitChar d) (String (digitChar e)
                 (String (digitChar f) (String (digitChar g) EmptyString)))))))
  = Some (Some (100 * a + 10 * b + c + 1911), Some (10 * d + e), Some (10 * f + g)).
Proof.
  intros Ha Hb Hc Hd He Hf Hg. unfold rocFields.
  rewrite replace_nondigits_digits
    by (cbn [all_digits]; rewrite !isDigit_digitChar by assumption; reflexivity).
  change (strlen _) with 7. cbn [Z.eqb Pos.eqb negb andb].
  change (substring 0 3 ?s) with (String.substring 0 3 s).
  change (substring 3 5 ?s) with (String.substring 3 2 s).
  change (substring 5 7 ?s) with (String.substring 5 2 s).
  cbn [String.substring]. rewrite parseInt_3, !parseInt_2 by assumption. reflexivity.
Qed.

End CalendarAdapter.


(** C4, as the claim states it: the six-digit input 990101 does not parse
    to 1910-01-01. *)
Lemma rocInputToISO_990101_counterexample :
  rocInputToISO TZ_Taipei "990101" = Some "2010-01-01"%string
  /\ rocInputToISO TZ_Taipei "990101" <> Some "1910-01-01"%string.
Proof.
  split; vm_compute; [reflexivity | discriminate].
Qed.

(** C4, amended: with the era offset of 1911 years the input 1140715 is
    2025-07-15 and the six-digit input 990101 is 2010-01-01 (99 + 1911),
    in every time zone. *)
Theorem rocInputToISO_examples tz :
  - msPerDay < tz < msPerDay ->
  rocInputToISO tz "1140715" = Some "2025-07-15"%string
  /\ rocInputToISO tz "990101" = Some "2010-01-01"%string.
Proof.
  intros Htz. rewrite !rocInputToISO_split.
  change (rocFields "1140715") with (Some (Some 2025, Some 7, Some 15)).
  change (rocFields "990101") with (Some (Some 2010, Some 1, Some 1)).
  split.
  - rewrite rocCheck_valid; [reflexivity | lia | lia |].
    split; [lia |]. vm_compute. split; discriminate.
  - rewrite rocCheck_valid; [reflexivity | lia | lia |].
    split; [lia |]. vm_compute. split; discriminate.
Qed.

Lemma rocInputToISO_examples_witness :
  rocInputToISO TZ_Taipei "1140715" = Some "2025-07-15"%string
  /\ rocInputToISO TZ_Taipei "990101" = Some "2010-01-01"%string.
Proof.
  apply (rocInputToISO_examples TZ_Taipei). vm_compute. split; reflexivity.
Defined.

(** C2, as the claim states it: the first day of 1912 is printed as the
    five digits 10101, which the parser rejects. *)
Lemma roc_roundtrip_1912_counterexample :
  isoToROCInput TZ_Taipei "1912-01-01" = "10101"%string
  /\ rocInputToISO TZ_Taipei (isoToROCInput TZ_Taipei "1912-01-01") = None.
Proof.
  split; vm_compute; reflexivity.
Qed.

(** C2, amended: printing a valid date of the years 1921 to 2910 (era
    years 10 to 999, which print as two or three digits) in the alternate
    input form and parsing it back returns the date. *)
Theorem roc_roundtrip tz y m d :
  0 <= tz < msPerDay -> 1921 <= y <= 2910 -> ValidDate y m d ->
  rocInputToISO tz (isoToROCInput tz (isoDate y m d)) = Some (isoDate y m d).
Proof.
  intros Htz Hy Hv. pose proof (ValidDate_day _ _ _ Hv) as Hd31.
  pose proof Hv as [Hm Hd].
  rewrite isoToROCInput_valid by (assumption || lia).
  rewrite rocInputToISO_split, !pad2_digits by lia.
  assert (Z_toString y +:+ "-" +:+ padStart 2 (Z_toString m) +:+ "-"
          +:+ padStart 2 (Z_toString d) = isoDate y m d) as Hout.
  { rewrite isoDate_digits, Z_toString_4, !pad2_digits by lia. reflexivity. }
  destruct (Z.ltb_spec (y - 1911) 100).
  - rewrite Z_toString_2 by lia. rewrite !append_cons, !append_nil.
    rewrite rocFields_6 by (Z.div_mod_to_equations; lia).
    replace (10 * ((y - 1911) / 10) + (y - 1911) mod 10 + 1911) with y
      by (Z.div_mod_to_equations; lia).
    replace (10 * (m / 10) + m mod 10) with m by (Z.div_mod_to_equations; lia).
    replace (10 * (d / 10) + d mod 10) with d by (Z.div_mod_to_equations; lia).
    rewrite rocCheck_valid by (assumption || lia). rewrite Hout. reflexivity.
  - rewrite Z_toString_3 by lia. rewrite !append_cons, !append_nil.
    rewrite rocFields_7 by (Z.div_mod_to_equations; lia).
    replace (100 * ((y - 1911) / 100) + 10 * ((y - 1911) / 10 mod 10)
             + (y - 1911) mod 10 + 1911) with y by (Z.div_mod_to_equations; lia).
    replace (10 * (m / 10) + m mod 10) with m by (Z.div_mod_to_equations; lia).
    replace (10 * (d / 10) + d mod 10) with d by (Z.div_mod_to_equations; lia).
    rewrite rocCheck_valid by (assumption || lia). rewrite Hout. reflexivity.
Qed.

Lemma roc_roundtrip_witness :
  rocInputToISO TZ_Taipei (isoToROCInput TZ_Taipei (isoDate 2025 12 7))
  = Some (isoDate 2025 12 7).
Proof.
  apply (roc_roundtrip TZ_Taipei 2025 12 7).
  - vm_compute. split; [discriminate | reflexivity].
  - lia.
  - vm_compute. repeat split; discriminate.
Defined.

(** ** The schedule engine *)

Section Schedule.

Lemma hd_split_cons sep c r :
  Ascii.eqb c sep = false ->
  hd EmptyString (split sep (String c r)) = String c (hd EmptyString (split sep r)).
Proof.
  intros H. cbn [split]. rewrite H. destruct (split sep r); reflexivity.
Qed.

Lemma hd_split_sep sep r : hd EmptyString (split sep (String sep r)) = EmptyString.
Proof. cbn [split]. rewrite Ascii.eqb_refl. reflexivity. Qed.

Lemma toISODate_valid y m d :
  0 <= y <= 9999 -> ValidDate y m d ->
  toISODate (Some (MakeDate (MakeDay y (m - 1) d) 0)) = Some (isoDate y m d).
Proof.
  intros Hy Hv. pose proof (ValidDate_day _ _ _ Hv) as Hd31.
  destruct Hv as [Hm Hd].
  assert (0 <= m - 1 <= 11) as Hm' by lia.
  assert (0 <= 0 < msPerDay) as Hz by (unfold msPerDay; lia).
  destruct (civil_of_MakeDay y (m - 1) d 0 Hm' Hd Hz) as (HY & HM & HD & _).
  unfold toISODate, toISOString. cbn [mbind option_bind].
  rewrite HY, HM, HD. replace (m - 1 + 1) with m by lia.
  f_equal. rewrite isoDate_digits by lia. rewrite !append_cons, append_nil.
  assert (forall k, 0 <= k < 10 -> Ascii.eqb (digitChar k) "T" = false) as HT
    by (intros k Hk; apply digitChar_not; [assumption | reflexivity]).
  rewrite !hd_split_cons by (reflexivity || (apply HT; divlia)).
  rewrite hd_split_sep. reflexivity.
Qed.

Lemma MakeDay_norm y M d : MakeDay y M d = MakeDay (y + M / 12) (M mod 12) d.
Proof.
  unfold MakeDay. rewrite Z.mod_mod by lia.
  replace (M mod 12 / 12) with 0 by divlia.
  replace (y + M / 12 + 0) with (y + M / 12) by lia. reflexivity.
Qed.

Lemma MakeDay_succ_month y M d :
  MakeDay y (M + 1) d = MakeDay y M d + DaysInMonth (y + M / 12) (M mod 12).
Proof.
  unfold MakeDay, DaysInMonth.
  destruct (Z.eq_dec (M mod 12) 11) as [E | E].
  - replace ((M + 1) / 12) with (M / 12 + 1) by divlia.
    replace ((M + 1) mod 12) with 0 by divlia. rewrite E.
    replace (y + (M / 12 + 1)) with (y + M / 12 + 1) by lia.
    rewrite DayFromYear_succ. unfold DaysInYear.
    destruct (isLeapYear (y + M / 12)), (isLeapYear (y + M / 12 + 1)); simpl; lia.
  - replace ((M + 1) / 12) with (M / 12) by divlia.
    replace ((M + 1) mod 12) with (M mod 12 + 1) by divlia. lia.
Qed.

Lemma MakeDay_month_lt y d M1 M2 : M1 < M2 -> MakeDay y M1 d < MakeDay y M2 d.
Proof.
  intros H. replace M2 with (M1 + Z.of_nat (S (Z.to_nat (M2 - M1 - 1)))) by lia.
  generalize (Z.to_nat (M2 - M1 - 1)) as k. clear H M2.
  induction k as [| k IH].
  - change (Z.of_nat 1) with 1. rewrite MakeDay_succ_month.
    pose proof (DaysInMonth_bounds (y + M1 / 12) (M1 mod 12)). divlia.
  - replace (M1 + Z.of_nat (S (S k))) with (M1 + Z.of_nat (S k) + 1) by lia.
    rewrite MakeDay_succ_month.
    pose proof (DaysInMonth_bounds (y + (M1 + Z.of_nat (S k)) / 12)
                  ((M1 + Z.of_nat (S k)) mod 12)). divlia.
Qed.

(** A day past the end of a month is a day of the following month. *)
Lemma MakeDay_in_year y m d :
  0 <= m <= 11 ->
  MakeDay y m d
  = DayFromYear y + monthStart (if isLeapYear y then 1 else 0) m + d - 1.
Proof.
  intros Hm. unfold MakeDay. rewrite Z.div_small, Z.mod_small by lia.
  replace (y + 0) with y by lia. reflexivity.
Qed.

Lemma MakeDay_rollover y m d :
  0 <= m <= 11 -> DaysInMonth y m < d <= 31 ->
  m + 1 <= 11 /\ 1 <= d - DaysInMonth y m <= DaysInMonth y (m + 1)
  /\ MakeDay y m d = MakeDay y (m + 1) (d - DaysInMonth y m).
Proof.
  intros Hm Hd.
  assert (m + 1 <= 11 /\ 1 <= d - DaysInMonth y m <= DaysInMonth y (m + 1)) as [H1 H2].
  { unfold DaysInMonth in *.
    assert (m = 0 \/ m = 1 \/ m = 2 \/ m = 3 \/ m = 4 \/ m = 5 \/ m = 6
            \/ m = 7 \/ m = 8 \/ m = 9 \/ m = 10 \/ m = 11) as Hc by lia.
    repeat (destruct Hc as [-> | Hc]); try subst m;
      destruct (isLeapYear y); simpl in *; lia. }
  repeat split; try lia.
  rewrite !MakeDay_in_year by lia. unfold DaysInMonth. lia.
Qed.

(** The date of [rolledDate] is a day of the calendar, with the day number
    that [MakeDay] computes. *)
Lemma rolledDate_spec y m d n :
  ValidDate y m d ->
  let '(Y, M, D) := rolledDate y m d n in
  ValidDate Y M D /\ Y = fst (monthsAfter y m n)
  /\ MakeDay Y (M - 1) D = MakeDay y (m - 1 + n) d.
Proof.
  intros Hv. pose proof (ValidDate_day _ _ _ Hv) as Hd31. destruct Hv as [Hm Hd].
  unfold rolledDate, monthsAfter, ValidDate. cbn [fst].
  set (Y := y + (m - 1 + n) / 12). set (mn := (m - 1 + n) mod 12).
  replace (mn + 1 - 1) with mn by lia.
  assert (0 <= mn <= 11) as Hmn by (subst mn; divlia).
  rewrite (MakeDay_norm y (m - 1 + n) d). fold Y mn.
  destruct (Z.leb_spec d (DaysInMonth Y mn)).
  - replace (mn + 1 - 1) with mn by lia. repeat split; lia.
  - destruct (MakeDay_rollover Y mn d Hmn) as (H1 & H2 & H3); [lia |].
    replace (mn + 1 + 1 - 1) with (mn + 1) by lia.
    repeat split; try lia.
Qed.

(** The time value of the date [k] months after a valid start date. *)
Lemma setMonth_valid tz y m d k :
  0 <= tz < msPerDay -> 0 <= y <= 9999 -> ValidDate y m d ->
  0 <= k <= 3000000 ->
  let date := ofString (isoDate y m d) in
  setMonth tz date (JSNum.add (getMonth tz date) (Some k))
  = Some (MakeDate (MakeDay y (m - 1 + k) d) 0).
Proof.
  intros Htz Hy Hv Hk. pose proof (ValidDate_day _ _ _ Hv) as Hd31.
  cbn zeta. unfold ofString. rewrite parse_isoDate by assumption.
  destruct (local_fields tz y m d Htz Hv) as (_ & -> & _).
  destruct Hv as [Hm Hd]. assert (0 <= m - 1 <= 11) as Hm' by lia.
  destruct (civil_of_MakeDay y (m - 1) d tz Hm' Hd Htz) as (HY & _ & HD & HT & _).
  unfold setMonth, JSNum.add, LocalTime. cbn [mbind option_bind].
  replace (MakeDate (MakeDay y (m - 1) d) 0 + tz)
    with (MakeDate (MakeDay y (m - 1) d) tz) by (unfold MakeDate; lia).
  rewrite HY, HD, HT. unfold UTC.
  replace (MakeDate (MakeDay y (m - 1 + k) d) tz - tz)
    with (MakeDate (MakeDay y (m - 1 + k) d) 0) by (unfold MakeDate; lia).
  apply TimeClip_ok. rewrite MakeDay_norm.
  pose proof (MakeDay_range (y + (m - 1 + k) / 12) ((m - 1 + k) mod 12) d).
  unfold MakeDate, msPerDay. divlia.
Qed.

Lemma getPeriodDueDate_valid tz y m d k :
  0 <= tz < msPerDay -> 0 <= y -> ValidDate y m d -> 0 <= k ->
  fst (monthsAfter y m k) <= 9999 ->
  getPeriodDueDate tz (isoDate y m d) k = Some (isoOf (rolledDate y m d k))
  /\ parse (isoOf (rolledDate y m d k)) = Some (MakeDate (MakeDay y (m - 1 + k) d) 0).
Proof.
  intros Htz Hy Hv Hk Hmax.
  assert (y <= 9999 /\ k <= 3000000) as [Hy' Hk'].
  { destruct Hv as [Hm _]. unfold monthsAfter in Hmax. cbn [fst] in Hmax. divlia. }
  unfold getPeriodDueDate. rewrite setMonth_valid by (assumption || lia).
  pose proof (rolledDate_spec y m d k Hv) as HR.
  destruct (rolledDate y m d k) as [[Y M] D]. destruct HR as (HV & HY & HM).
  unfold isoOf. rewrite <- HM.
  assert (0 <= Y <= 9999) as HYr.
  { subst Y. split; [| assumption]. unfold monthsAfter. cbn [fst].
    destruct Hv as [Hm _]. divlia. }
  split; [apply toISODate_valid | apply parse_isoDate]; assumption.
Qed.

Lemma calculateEndDate_getPeriodDueDate tz y m d n :
  0 <= y <= 9999 -> 0 <= m < 100 -> 0 <= d < 100 ->
  calculateEndDate tz (isoDate y m d) n = getPeriodDueDate tz (isoDate y m d) n.
Proof.
  intros Hy Hm Hd. unfold calculateEndDate, getPeriodDueDate.
  rewrite isoDate_digits by lia. reflexivity.
Qed.

End Schedule.

(** The scenario of the spec: principal 500000 at 1.2 percent for six
    months from 2025-01-15 pays 6000 a month, on the 15th of February to
    July, and ends on 2025-07-15. *)
Example schedule_scenario :
  monthlyInterest dueLastOfJune = Double.ofZ 6000
  /\ roundedInterest 500000 (12 # 10) = 6000
  /\ dueDates TZ_Taipei "2025-01-15" 6
     = [Some "2025-02-15"; Some "2025-03-15"; Some "2025-04-15";
        Some "2025-05-15"; Some "2025-06-15"; Some "2025-07-15"]%string
  /\ calculateEndDate TZ_Taipei "2025-01-15" 6 = Some "2025-07-15"%string.
Proof. repeat split; vm_compute; reflexivity. Qed.

(** C1, as the claim states it: one month after 2025-01-31 is not the
    clamped date 2025-02-28; the surplus days run on to 2025-03-03, in
    Taipei as in UTC. *)
Lemma calculateEndDate_clamp_counterexample :
  isoOf (clampedDate 2025 1 31 1) = "2025-02-28"%string
  /\ calculateEndDate TZ_Taipei "2025-01-31" 1 = Some "2025-03-03"%string
  /\ calculateEndDate TZ_UTC "2025-01-31" 1 = Some "2025-03-03"%string
  /\ calculateEndDate TZ_Taipei "2025-01-31" 1 <> Some (isoOf (clampedDate 2025 1 31 1)).
Proof.
  repeat split; try (vm_compute; reflexivity).
  vm_compute. discriminate.
Qed.

(** C1, amended: for a valid date [y]-[m]-[d] (year 0 to 9999), [n >= 0]
    months with the target year at most 9999, and a zone at a fixed offset
    of 0 to 24 hours east of UTC, [calculateEndDate] returns the date [n]
    calendar months later on the same day of the month when the target
    month has that day (always so when the day is at most 28); otherwise
    the surplus days run on into the following month, with no clamping.
    Adding zero months returns the date itself. *)
Theorem calculateEndDate_rollover tz y m d n :
  0 <= tz < msPerDay -> 0 <= y -> ValidDate y m d -> 0 <= n ->
  fst (monthsAfter y m n) <= 9999 ->
  calculateEndDate tz (isoDate y m d) n = Some (isoOf (rolledDate y m d n))
  /\ (d <= DaysInMonth (fst (monthsAfter y m n)) (snd (monthsAfter y m n) - 1) ->
      calculateEndDate tz (isoDate y m d) n
      = Some (isoDate (fst (monthsAfter y m n)) (snd (monthsAfter y m n)) d))
  /\ (d <= 28 -> rolledDate y m d n = clampedDate y m d n)
  /\ calculateEndDate tz (isoDate y m d) 0 = Some (isoDate y m d).
Proof.
  intros Htz Hy Hv Hn Hmax. pose proof (ValidDate_day _ _ _ Hv) as Hd31.
  pose proof Hv as [Hm Hd].
  assert (y <= 9999) as Hy'.
  { unfold monthsAfter in Hmax. cbn [fst] in Hmax. Z.div_mod_to_equations. lia. }
  rewrite !calculateEndDate_getPeriodDueDate by lia.
  destruct (getPeriodDueDate_valid tz y m d n Htz Hy Hv Hn Hmax) as [HR _].
  assert (0 <= (m - 1 + n) mod 12 <= 11) as Hmn by (Z.div_mod_to_equations; lia).
  split; [assumption |]. split; [| split].
  - intros Hle. rewrite HR. unfold rolledDate, monthsAfter in *. cbn [fst snd] in *.
    destruct (Z.leb_spec d (DaysInMonth (y + (m - 1 + n) / 12)
                              ((m - 1 + n) mod 12 + 1 - 1))); [reflexivity | lia].
  - intros H28. unfold rolledDate, clampedDate, monthsAfter.
    pose proof (DaysInMonth_bounds (y + (m - 1 + n) / 12) ((m - 1 + n) mod 12 + 1 - 1)).
    destruct (Z.leb_spec d (DaysInMonth (y + (m - 1 + n) / 12)
                              ((m - 1 + n) mod 12 + 1 - 1))); [| lia].
    rewrite Z.min_l by lia. reflexivity.
  - assert (fst (monthsAfter y m 0) <= 9999) as Hmax0.
    { unfold monthsAfter. cbn [fst]. Z.div_mod_to_equations. lia. }
    destruct (getPeriodDueDate_valid tz y m d 0 Htz Hy Hv ltac:(lia) Hmax0) as [HR0 _].
    rewrite HR0. unfold rolledDate, monthsAfter.
    replace (y + (m - 1 + 0) / 12) with y by (Z.div_mod_to_equations; lia).
    replace ((m - 1 + 0) mod 12 + 1) with m by (Z.div_mod_to_equations; lia).
    destruct (Z.leb_spec d (DaysInMonth y (m - 1))); [reflexivity | lia].
Qed.

Lemma calculateEndDate_rollover_witness :
  calculateEndDate TZ_Taipei (isoDate 2025 1 15) 6 = Some (isoOf (rolledDate 2025 1 15 6))
  /\ (15 <= DaysInMonth (fst (monthsAfter 2025 1 6)) (snd (monthsAfter 2025 1 6) - 1) ->
      calculateEndDate TZ_Taipei (isoDate 2025 1 15) 6
      = Some (isoDate (fst (monthsAfter 2025 1 6)) (snd (monthsAfter 2025 1 6)) 15))
  /\ (15 <= 28 -> rolledDate 2025 1 15 6 = clampedDate 2025 1 15 6)
  /\ calculateEndDate TZ_Taipei (isoDate 2025 1 15) 0 = Some (isoDate 2025 1 15).
Proof.
  apply (calculateEndDate_rollover TZ_Taipei 2025 1 15 6).
  - vm_compute. split; [discriminate | reflexivity].
  - lia.
  - vm_compute. repeat split; discriminate.
  - lia.
  - vm_compute. discriminate.
Defined.

(** C3, as the claim states it: an investment that starts on 2025-01-31
    with two periods has both due dates in March 2025 and none in February. *)
Lemma dueDates_month_counterexample :
  dueDates TZ_Taipei "2025-01-31" 2 = [Some "2025-03-03"; Some "2025-03-31"]%string
  /\ List.filter (dueInMonth "2025-02") (dueDates TZ_Taipei "2025-01-31" 2) = []
  /\ length (List.filter (dueInMonth "2025-03") (dueDates TZ_Taipei "2025-01-31" 2)) = 2%nat.
Proof.
  repeat split; vm_compute; reflexivity.
Qed.

(** C3, amended: for a valid start date (year 0 to 9999) and a duration
    [n] whose last month lies in a year up to 9999, in a zone at a fixed
    offset of 0 to 24 hours east of UTC, the schedule has exactly [n] due
    dates and they are strictly increasing; the due date of period [k] is
    day [d] of the [k]-th calendar month after the start whenever that
    month has a day [d] (always so when [d <= 28]), which gives one due
    date in each of the [n] following months.  A day that the month lacks
    runs on into the month after it: when the [k]-th month has fewer than
    [d] days, the due date of period [k] lies in the month that follows it,
    on the day [d] less the length of the [k]-th month. *)
Theorem dueDates_schedule tz y m d n :
  0 <= tz < msPerDay -> 0 <= y -> ValidDate y m d -> 0 <= n ->
  fst (monthsAfter y m n) <= 9999 ->
  length (dueDates tz (isoDate y m d) n) = Z.to_nat n
  /\ (forall i j : nat, (i < j)%nat -> (j < Z.to_nat n)%nat ->
        exists a b, dueDates tz (isoDate y m d) n !! i = Some (Some a)
                    /\ dueDates tz (isoDate y m d) n !! j = Some (Some b)
                    /\ isoBefore a b = true)
  /\ (forall k, 1 <= k <= n ->
        d <= DaysInMonth (fst (monthsAfter y m k)) (snd (monthsAfter y m k) - 1) ->
        getPeriodDueDate tz (isoDate y m d) k
        = Some (isoDate (fst (monthsAfter y m k)) (snd (monthsAfter y m k)) d))
  /\ (forall k, 1 <= k <= n ->
        DaysInMonth (fst (monthsAfter y m k)) (snd (monthsAfter y m k) - 1) < d ->
        snd (monthsAfter y m k) < 12
        /\ getPeriodDueDate tz (isoDate y m d) k
           = Some (isoDate (fst (monthsAfter y m k)) (snd (monthsAfter y m k) + 1)
                     (d - DaysInMonth (fst (monthsAfter y m k))
                            (snd (monthsAfter y m k) - 1))))
  /\ (d <= 28 -> forall k, 1 <= k <= n ->
        dueDates tz (isoDate y m d) n !! Z.to_nat (k - 1)
        = Some (Some (isoDate (fst (monthsAfter y m k)) (snd (monthsAfter y m k)) d))).
Proof.
  intros Htz Hy Hv Hn Hmax. pose proof Hv as [Hm Hd].
  pose proof (ValidDate_day _ _ _ Hv) as Hd31.
  assert (forall k, 0 <= k <= n -> fst (monthsAfter y m k) <= 9999) as Hmaxk.
  { intros k Hk. unfold monthsAfter in *. cbn [fst] in *.
    Z.div_mod_to_equations. lia. }
  assert (forall i : nat, (i < Z.to_nat n)%nat ->
            dueDates tz (isoDate y m d) n !! i
            = Some (getPeriodDueDate tz (isoDate y m d) (1 + Z.of_nat i))) as Hlook.
  { intros i Hi. unfold dueDates. rewrite list_lookup_fmap, lookup_seqZ_lt by lia.
    reflexivity. }
  assert (forall k, 1 <= k <= n ->
            d <= DaysInMonth (fst (monthsAfter y m k)) (snd (monthsAfter y m k) - 1) ->
            getPeriodDueDate tz (isoDate y m d) k
            = Some (isoDate (fst (monthsAfter y m k)) (snd (monthsAfter y m k)) d)) as Hday.
  { intros k Hk Hle.
    destruct (getPeriodDueDate_valid tz y m d k Htz Hy Hv ltac:(lia) (Hmaxk k ltac:(lia)))
      as [HR _].
    rewrite HR. unfold rolledDate, monthsAfter in *. cbn [fst snd] in *.
    destruct (Z.leb_spec d (DaysInMonth (y + (m - 1 + k) / 12)
                              ((m - 1 + k) mod 12 + 1 - 1))); [reflexivity | lia]. }
  split; [| split; [| split; [| split]]].
  - unfold dueDates. rewrite length_fmap, length_seqZ. reflexivity.
  - intros i j Hij Hj.
    destruct (getPeriodDueDate_valid tz y m d (1 + Z.of_nat i) Htz Hy Hv ltac:(lia)
                (Hmaxk (1 + Z.of_nat i) ltac:(lia))) as [Hi1 Hi2].
    destruct (getPeriodDueDate_valid tz y m d (1 + Z.of_nat j) Htz Hy Hv ltac:(lia)
                (Hmaxk (1 + Z.of_nat j) ltac:(lia))) as [Hj1 Hj2].
    exists (isoOf (rolledDate y m d (1 + Z.of_nat i))),
           (isoOf (rolledDate y m d (1 + Z.of_nat j))).
    rewrite !Hlook by lia. rewrite Hi1, Hj1. repeat split.
    unfold isoBefore. rewrite Hi2, Hj2. apply Z.ltb_lt.
    pose proof (MakeDay_month_lt y d (m - 1 + (1 + Z.of_nat i))
                  (m - 1 + (1 + Z.of_nat j)) ltac:(lia)).
    unfold MakeDate, msPerDay. lia.
  - exact Hday.
  - intros k Hk Hlt.
    destruct (getPeriodDueDate_valid tz y m d k Htz Hy Hv ltac:(lia) (Hmaxk k ltac:(lia)))
      as [HR _].
    assert (0 <= (m - 1 + k) mod 12 <= 11) as Hmk by (Z.div_mod_to_equations; lia).
    split.
    + unfold monthsAfter in *. cbn [fst snd] in *.
      destruct (Z.eq_dec ((m - 1 + k) mod 12) 11) as [E | E]; [| lia].
      exfalso. rewrite E in Hlt. change (11 + 1 - 1) with 11 in Hlt.
      assert (DaysInMonth (y + (m - 1 + k) / 12) 11 = 31) as E31
        by (unfold DaysInMonth; destruct (isLeapYear _); reflexivity).
      lia.
    + rewrite HR. unfold rolledDate, monthsAfter in *. cbn [fst snd] in *.
      destruct (Z.leb_spec d (DaysInMonth (y + (m - 1 + k) / 12)
                                ((m - 1 + k) mod 12 + 1 - 1))); [lia | reflexivity].
  - intros H28 k Hk. rewrite Hlook by lia.
    replace (1 + Z.of_nat (Z.to_nat (k - 1))) with k by lia.
    f_equal. apply Hday; [assumption |].
    pose proof (DaysInMonth_bounds (fst (monthsAfter y m k)) (snd (monthsAfter y m k) - 1)).
    assert (0 <= (m - 1 + k) mod 12 <= 11) by (Z.div_mod_to_equations; lia).
    unfold monthsAfter in *. cbn [fst snd] in *. lia.
Qed.

Lemma dueDates_schedule_witness :
  length (dueDates TZ_Taipei (isoDate 2025 1 31) 2) = 2%nat
  /\ getPeriodDueDate TZ_Taipei (isoDate 2025 1 31) 1 = Some "2025-03-03"%string
  /\ getPeriodDueDate TZ_Taipei (isoDate 2025 1 31) 2 = Some "2025-03-31"%string.
Proof.
  destruct (dueDates_schedule TZ_Taipei 2025 1 31 2) as (H1 & _ & H3 & H4 & _).
  - vm_compute. split; [discriminate | reflexivity].
  - lia.
  - vm_compute. repeat split; discriminate.
  - lia.
  - vm_compute. discriminate.
  - split; [exact H1 |]. split.
    + destruct (H4 1) as [_ E]; [lia | vm_compute; reflexivity |].
      rewrite E. vm_compute. reflexivity.
    + rewrite (H3 2); [vm_compute; reflexivity | lia | vm_compute; discriminate].
Defined.

(** ** The bulk mark-paid operation *)

Section BulkPayFrame.

Variables (tz : Z) (today : string).

(** A period that is already paid keeps its payment record through the
    loop over the periods. *)
Lemma bulkPay_paid_kept inv ms me (l : list Z) :
  forall (h : gmap Z PaymentRecord) (ch : bool) j rec,
    h !! j = Some rec -> isPaid rec = true ->
    fst (foldl (bulkPayStep tz today inv ms me) (h, ch) l) !! j = Some rec.
Proof.
  induction l as [| i l IH]; intros h ch j rec Hj Hpaid; [exact Hj |].
  cbn [foldl]. unfold bulkPayStep at 2.
  destruct (JSNum.ge _ ms && JSNum.le _ me); [| apply IH; assumption].
  destruct (negb (default false (isPaid <$> h !! i))) eqn:E; [| apply IH; assumption].
  apply IH; [| assumption].
  destruct (Z.eq_dec i j) as [-> | Hne].
  - rewrite Hj in E. simpl in E. rewrite Hpaid in E. discriminate E.
  - rewrite lookup_insert_ne by assumption. assumption.
Qed.

(** The operation returns one record for each investment, equal to it in
    all but the payment history, in which every paid period is kept. *)
Lemma handleBulkPay_frame monthStr prev :
  Forall2 (fun inv inv' =>
             inv' = with_paymentHistory inv (paymentHistory inv')
             /\ forall j rec, paymentHistory inv !! j = Some rec ->
                  isPaid rec = true -> paymentHistory inv' !! j = Some rec)
    prev (handleBulkPay tz today monthStr prev).
Proof.
  unfold handleBulkPay. induction prev as [| inv prev IH]; cbn [List.map];
    constructor; [| exact IH].
  pose proof (bulkPay_paid_kept inv (ofString (monthStr +:+ "-01"))
                (ofFields tz (getFullYear tz (ofString (monthStr +:+ "-01")))
                   (JSNum.add (getMonth tz (ofString (monthStr +:+ "-01"))) (Some 1))
                   (Some 0))
                (seqZ 1 (duration inv)) (paymentHistory inv) false) as Hkept.
  destruct (foldl _ (paymentHistory inv, false) (seqZ 1 (duration inv)))
    as [h changed].
  destruct changed.
  - split; [reflexivity | exact Hkept].
  - split; [destruct inv; reflexivity | auto].
Qed.

End BulkPayFrame.

(** C9: in the zone of Taipei (UTC+8) a period that falls due on the last
    day of the target month is not marked.  The due date is compared at UTC
    midnight, which is 08:00 local time, with the end of the month taken at
    local midnight of its last day; the investment comes back unchanged.
    In UTC the same call marks the period. *)
Theorem handleBulkPay_last_day_unmarked :
  getPeriodDueDate TZ_Taipei (startDate dueLastOfJune) 1 = Some "2025-06-30"%string
  /\ paymentHistory dueLastOfJune !! 1 = None
  /\ handleBulkPay TZ_Taipei "2025-07-01" "2025-06" [dueLastOfJune] = [dueLastOfJune]
  /\ handleBulkPay TZ_UTC "2025-07-01" "2025-06" [dueLastOfJune]
     = [with_paymentHistory dueLastOfJune
          {[ 1 := mkPaymentRecord true (Some "2025-07-01"%string) (Some "一鍵入帳"%string) ]}].
Proof.
  repeat split; vm_compute; reflexivity.
Qed.

(** ** The merge resolver *)

Section Merge.

Variable uuid : nat -> string.

Lemma foldl_max_ge (l : list Z) (a : Z) :
  a <= foldl Z.max a l /\ (forall x, In x l -> x <= foldl Z.max a l).
Proof.
  revert a. induction l as [| b l IH]; intros a; simpl.
  - split; [lia | tauto].
  - destruct (IH (Z.max a b)) as [H1 H2]. split; [lia |].
    intros x [-> | Hx]; [lia | auto].
Qed.

(** No record of the collection has a sort order above [maxOrder]. *)
Lemma maxOrder_ge prev p : In p prev -> default 0 (order p) <= maxOrder prev.
Proof.
  intros Hp. unfold maxOrder.
  assert (In (default 0 (order p)) (List.map (fun i => default 0 (order i)) prev)) as Hin
    by (apply in_map_iff; eauto).
  destruct (List.map (fun i => default 0 (order i)) prev) as [| o os]; [destruct Hin |].
  destruct (foldl_max_ge os o) as [H1 H2].
  destruct Hin as [<- | Hin]; [assumption | auto].
Qed.

Lemma order_fresh prev p (j : Z) :
  In p prev -> 0 <= j -> order p <> Some (maxOrder prev + j + 1).
Proof.
  intros Hp Hj E. pose proof (maxOrder_ge prev p Hp) as H.
  rewrite E in H. simpl in H. lia.
Qed.

Lemma handleImportConfirm_skip incoming prev k :
  fst (handleImportConfirm uuid skip incoming prev k)
  = prev ++ imap (fun idx item =>
                    with_order item (Some (maxOrder prev + Z.of_nat idx + 1)))
                 (nonConflicting prev incoming).
Proof.
  unfold handleImportConfirm, Gen.ret, nonConflicting, existingIds. cbn [fst].
  do 2 f_equal. apply List.filter_ext. intros a. f_equal.
  apply bool_decide_ext. apply elem_of_list_to_set.
Qed.

(** The funders of a clone take the draws that follow the draw of its own
    identifier. *)
Lemma clone_funders (fs : list Funder) :
  forall idx k,
    Gen.mapi_from (fun (_ : nat) f =>
        Gen.bind (generateId uuid) (fun fid => Gen.ret (funder_with_id f fid)))
      idx fs k
    = (imap (fun q f => funder_with_id f (uuid (k + q)%nat)) fs, (k + length fs)%nat).
Proof.
  induction fs as [| f fs IH]; intros idx k.
  - cbn. f_equal. lia.
  - cbn [Gen.mapi_from]. unfold Gen.bind at 1. unfold Gen.bind at 1.
    unfold generateId at 1. unfold Gen.ret at 1.
    unfold Gen.bind at 1. rewrite IH. unfold Gen.ret. cbn [imap length].
    replace (k + 0)%nat with k by lia.
    replace (k + S (length fs))%nat with (S k + length fs)%nat by lia.
    do 2 f_equal.
    apply imap_ext. intros q x _. cbn.
    replace (k + S q)%nat with (S (k + q)) by lia. reflexivity.
Qed.

Lemma clone_items mo (items : list Investment) :
  forall idx k,
    Gen.mapi_from (fun idx item =>
        Gen.bind (generateId uuid) (fun newId =>
        Gen.bind (match funders item with
                  | Some fs =>
                      Gen.bind (Gen.map (fun f =>
                                  Gen.bind (generateId uuid) (fun fid =>
                                  Gen.ret (funder_with_id f fid))) fs)
                               (fun fs' => Gen.ret (Some fs'))
                  | None => Gen.ret None
                  end) (fun fs' =>
        Gen.ret (with_id_funders_order item newId fs'
                   (Some (mo + Z.of_nat idx + 1))))))
      idx items k
    = (clonesFrom uuid mo idx k items, (k + drawsFor items)%nat).
Proof.
  induction items as [| item items IH]; intros idx k.
  - cbn. f_equal. lia.
  - change (drawsFor (item :: items))
      with (S (length (default [] (funders item))) + drawsFor items)%nat.
    cbn [Gen.mapi_from clonesFrom].
    unfold Gen.bind at 1. unfold Gen.bind at 1. unfold generateId at 1.
    unfold Gen.bind at 1. unfold cloneOf.
    destruct (funders item) as [fs |] eqn:Efs.
    + change (default [] (Some fs)) with fs.
      unfold Gen.bind at 1. unfold Gen.map, Gen.mapi. rewrite clone_funders.
      unfold Gen.ret at 1. unfold Gen.ret at 1. unfold Gen.bind at 1.
      rewrite IH. unfold Gen.ret.
      replace (k + S (length fs))%nat with (S k + length fs)%nat by lia.
      replace (k + (S (length fs) + drawsFor items))%nat
        with (S k + length fs + drawsFor items)%nat by lia.
      reflexivity.
    + change (default [] (@None (list Funder))) with (@nil Funder).
      unfold Gen.ret at 1. unfold Gen.ret at 1. unfold Gen.bind at 1.
      rewrite IH. unfold Gen.ret. cbn [length].
      replace (k + 1)%nat with (S k) by lia.
      replace (k + (1 + drawsFor items))%nat with (S k + drawsFor items)%nat by lia.
      reflexivity.
Qed.

Lemma handleImportConfirm_new incoming prev k :
  fst (handleImportConfirm uuid new incoming prev k)
  = prev ++ clonesFrom uuid (maxOrder prev) 0 k incoming.
Proof.
  unfold handleImportConfirm, Gen.mapi. unfold Gen.bind at 1.
  rewrite clone_items. reflexivity.
Qed.

Lemma clonesFrom_length mo items : forall idx k,
  length (clonesFrom uuid mo idx k items) = length items.
Proof.
  induction items as [| item items IH]; intros idx k; cbn; [| rewrite IH]; reflexivity.
Qed.

Lemma drawsFor_cons item (items : list Investment) :
  drawsFor (item :: items)
  = (S (length (default [] (funders item))) + drawsFor items)%nat.
Proof. reflexivity. Qed.

Local Arguments drawsFor : simpl never.

Lemma clonesFrom_lookup mo items : forall idx k (j : nat) item,
  items !! j = Some item ->
  clonesFrom uuid mo idx k items !! j
  = Some (cloneOf uuid (k + drawsFor (take j items)) item
            (mo + Z.of_nat (idx + j) + 1)).
Proof.
  induction items as [| x items IH]; intros idx k j item Hj; [discriminate |].
  destruct j as [| j]; cbn in Hj |- *.
  - injection Hj as ->.
    replace (k + drawsFor [])%nat with k by (cbv [drawsFor foldr]; lia).
    replace (idx + 0)%nat with idx by lia. reflexivity.
  - rewrite (IH _ _ _ _ Hj), drawsFor_cons.
    replace (k + S (length (default [] (funders x))) + drawsFor (take j items))%nat
      with (k + (S (length (default [] (funders x))) + drawsFor (take j items)))%nat
      by lia.
    replace (S idx + j)%nat with (idx + S j)%nat by lia. reflexivity.
Qed.

Lemma drawsFor_take_lt (items : list Investment) : forall (j j' : nat) item,
  (j < j')%nat -> items !! j = Some item ->
  (drawsFor (take j items) + length (default [] (funders item))
   < drawsFor (take j' items))%nat.
Proof.
  induction items as [| x items IH]; intros j j' item Hlt Hj; [discriminate |].
  destruct j' as [| j']; [lia |]. destruct j as [| j]; cbn in Hj |- *.
  - injection Hj as ->. rewrite drawsFor_cons. cbv [drawsFor foldr]. lia.
  - rewrite !drawsFor_cons. specialize (IH j j' item ltac:(lia) Hj). lia.
Qed.

End Merge.


(** An import with strategy skip of two records, one of which conflicts:
    the other one is appended under the order 2. *)
Example skip_merge_example :
  (fun r => (id r, order r))
    <$> fst (handleImportConfirm sameDraw skip [dueLastOfJune; twoPeriods]
               [dueLastOfJune] 0%nat)
  = [("inv-1"%string, Some 1); ("inv-2"%string, Some 2)].
Proof. vm_compute. reflexivity. Qed.




(** ** The ledger aggregator *)

Section ReportEntries.

Lemma report_get_In k r it :
  report_get k r = Some it -> In it r /\ monthStr it = k.
Proof.
  unfold report_get. intros H. apply find_some in H as [H1 H2].
  split; [assumption | apply String.eqb_eq; assumption].
Qed.

Lemma report_get_keys k r : report_get k r = None <-> ~ In k (keysOf r).
Proof.
  induction r as [| x r IH]; simpl.
  - tauto.
  - destruct (String.eqb_spec (monthStr x) k) as [E | E].
    + split; [discriminate | intros H; exfalso; apply H; left; assumption].
    + rewrite IH. tauto.
Qed.

Lemma report_get_NoDup r it :
  List.NoDup (keysOf r) -> In it r -> report_get (monthStr it) r = Some it.
Proof.
  induction r as [| x r IH]; simpl; intros Hnd Hin; [destruct Hin |].
  apply NoDup_cons_iff in Hnd as [Hx Hnd].
  destruct Hin as [-> | Hin].
  - rewrite String.eqb_refl. reflexivity.
  - destruct (String.eqb_spec (monthStr x) (monthStr it)) as [E | E].
    + exfalso. apply Hx. rewrite E. apply in_map. assumption.
    + apply IH; assumption.
Qed.

Lemma report_get_set k it r k' :
  monthStr it = k ->
  report_get k' (report_set k it r)
  = if String.eqb k k' then Some it else report_get k' r.
Proof.
  intros Hit. induction r as [| x r IH]; simpl.
  - rewrite Hit. reflexivity.
  - destruct (String.eqb_spec (monthStr x) k) as [E | E]; simpl.
    + rewrite Hit, E. destruct (String.eqb k k'); reflexivity.
    + rewrite IH. destruct (String.eqb_spec (monthStr x) k') as [E' | E'];
        [| reflexivity].
      destruct (String.eqb_spec k k'); [congruence | reflexivity].
Qed.

Lemma report_get_modify k g r k' :
  (forall it, monthStr (g it) = monthStr it) ->
  report_get k' (report_modify k g r)
  = if String.eqb k k' then g <$> report_get k r else report_get k' r.
Proof.
  intros Hg. induction r as [| x r IH]; simpl.
  - destruct (String.eqb k k'); reflexivity.
  - destruct (String.eqb_spec (monthStr x) k) as [E | E]; simpl.
    + rewrite Hg, E. destruct (String.eqb k k'); reflexivity.
    + rewrite IH. destruct (String.eqb_spec (monthStr x) k') as [E' | E'];
        [| reflexivity].
      destruct (String.eqb_spec k k'); [congruence | reflexivity].
Qed.

Lemma report_set_absent k it r :
  report_get k r = None -> report_set k it r = r ++ [it].
Proof.
  induction r as [| x r IH]; simpl; [reflexivity |].
  destruct (String.eqb (monthStr x) k); [discriminate |].
  intros H. rewrite IH by assumption. reflexivity.
Qed.

Lemma keysOf_modify k g r :
  (forall it, monthStr (g it) = monthStr it) ->
  keysOf (report_modify k g r) = keysOf r.
Proof.
  intros Hg. induction r as [| x r IH]; simpl; [reflexivity |].
  destruct (String.eqb (monthStr x) k); simpl.
  - rewrite Hg. reflexivity.
  - rewrite IH. reflexivity.
Qed.

Lemma keysOf_ensureMonth k r :
  keysOf (ensureMonth k r)
  = match report_get k r with Some _ => keysOf r | None => keysOf r ++ [k] end.
Proof.
  unfold ensureMonth. destruct (report_get k r) eqn:E; [reflexivity |].
  unfold initReportMonth. rewrite report_set_absent by assumption.
  unfold keysOf. rewrite map_app. reflexivity.
Qed.

Lemma report_get_ensureMonth k r :
  report_get k (ensureMonth k r) = Some (default (newMonth k) (report_get k r)).
Proof.
  unfold ensureMonth. destruct (report_get k r) eqn:E; [assumption |].
  unfold initReportMonth. fold (newMonth k).
  rewrite report_get_set by reflexivity. rewrite String.eqb_refl. reflexivity.
Qed.

Lemma report_get_ensureMonth_ne k r k' :
  k <> k' -> report_get k' (ensureMonth k r) = report_get k' r.
Proof.
  intros Hne. unfold ensureMonth. destruct (report_get k r) eqn:E; [reflexivity |].
  unfold initReportMonth. fold (newMonth k).
  rewrite report_get_set by reflexivity.
  destruct (String.eqb_spec k k'); [contradiction | reflexivity].
Qed.

(** What one month entry gains when the month [k] is brought into the
    report and updated by [g]. *)
Lemma touch_effect k g r (fN : MonthlyReportItem -> Double.t) dN fR dR fE dE fA dA :
  (forall it, monthStr (g it) = monthStr it) ->
  (forall it, fN (g it) = Double.sumFrom (fN it) dN) -> fN (newMonth k) = Double.zero ->
  (forall it, fR (g it) = Double.sumFrom (fR it) dR) -> fR (newMonth k) = Double.zero ->
  (forall it, fE (g it) = Double.sumFrom (fE it) dE) -> fE (newMonth k) = Double.zero ->
  (forall it, fA (g it) = Double.sumFrom (fA it) dA) -> fA (newMonth k) = Double.zero ->
  let r' := report_modify k g (ensureMonth k r) in
  (List.NoDup (keysOf r) -> List.NoDup (keysOf r'))
  /\ (forall k', In k' (keysOf r') <-> In k' (keysOf r) \/ k' = k)
  /\ (forall k', fieldAt fN k' r'
                 = Double.sumFrom (fieldAt fN k' r) (if String.eqb k k' then dN else []))
  /\ (forall k', fieldAt fR k' r'
                 = Double.sumFrom (fieldAt fR k' r) (if String.eqb k k' then dR else []))
  /\ (forall k', fieldAt fE k' r'
                 = Double.sumFrom (fieldAt fE k' r) (if String.eqb k k' then dE else []))
  /\ (forall k', fieldAt fA k' r'
                 = Double.sumFrom (fieldAt fA k' r) (if String.eqb k k' then dA else [])).
Proof.
  intros Hg HN HN0 HR HR0 HE HE0 HA HA0 r'.
  assert (forall (f : MonthlyReportItem -> Double.t) d,
            (forall it, f (g it) = Double.sumFrom (f it) d) ->
            f (newMonth k) = Double.zero ->
            forall k', fieldAt f k' r'
                       = Double.sumFrom (fieldAt f k' r) (if String.eqb k k' then d else []))
    as Hfield.
  { intros f d Hf Hf0 k'. unfold fieldAt. subst r'.
    rewrite report_get_modify by assumption.
    destruct (String.eqb_spec k k') as [<- | Hne].
    - rewrite report_get_ensureMonth. simpl.
      destruct (report_get k r); simpl; rewrite Hf; [reflexivity |].
      rewrite Hf0. reflexivity.
    - rewrite report_get_ensureMonth_ne by assumption. reflexivity. }
  assert (keysOf r' = match report_get k r with
                      | Some _ => keysOf r
                      | None => keysOf r ++ [k]
                      end) as Hkeys.
  { subst r'. rewrite keysOf_modify by assumption. apply keysOf_ensureMonth. }
  split; [| split; [| split; [| split; [| split]]]]; auto.
  - intros Hnd. rewrite Hkeys. destruct (report_get k r) eqn:E; [assumption |].
    apply report_get_keys in E.
    apply (Permutation_NoDup (l := k :: keysOf r)).
    + apply Permutation_cons_append.
    + constructor; assumption.
  - intros k'. rewrite Hkeys. destruct (report_get k r) eqn:E.
    + apply report_get_In in E as [E1 E2]. split; [tauto |].
      intros [H | ->]; [assumption |]. rewrite <- E2. apply in_map. assumption.
    + rewrite in_app_iff. simpl. intuition congruence.
Qed.

Lemma Gains_refl r :
  Gains r r [] (fun _ => []) (fun _ => []) (fun _ => []) (fun _ => []).
Proof.
  unfold Gains. split; [tauto |]. split; [intros k; simpl; tauto |].
  repeat split; reflexivity.
Qed.

Lemma Gains_trans r r1 r2 K1 K2 K N1 N2 N R1 R2 R E1 E2 E A1 A2 A :
  Gains r r1 K1 N1 R1 E1 A1 -> Gains r1 r2 K2 N2 R2 E2 A2 ->
  (forall k, In k K <-> In k K1 \/ In k K2) ->
  (forall k, N k = N1 k ++ N2 k) -> (forall k, R k = R1 k ++ R2 k) ->
  (forall k, E k = E1 k ++ E2 k) -> (forall k, A k = A1 k ++ A2 k) ->
  Gains r r2 K N R E A.
Proof.
  intros (a1 & a2 & a3 & a4 & a5 & a6) (b1 & b2 & b3 & b4 & b5 & b6)
    HK HN HR HE HA.
  unfold Gains. split; [| split; [| split; [| split; [| split]]]].
  - auto.
  - intros k. rewrite b2, a2, HK. tauto.
  - intros k. rewrite b3, a3, HN. unfold Double.sumFrom. rewrite foldl_app. reflexivity.
  - intros k. rewrite b4, a4, HR. unfold Double.sumFrom. rewrite foldl_app. reflexivity.
  - intros k. rewrite b5, a5, HE. unfold Double.sumFrom. rewrite foldl_app. reflexivity.
  - intros k. rewrite b6, a6, HA. unfold Double.sumFrom. rewrite foldl_app. reflexivity.
Qed.

Lemma Gains_touch k g r dN dR dE dA :
  (forall it, monthStr (g it) = monthStr it) ->
  (forall it, newCapital (g it) = Double.sumFrom (newCapital it) dN) ->
  (forall it, returnedCapital (g it) = Double.sumFrom (returnedCapital it) dR) ->
  (forall it, interestExpected (g it) = Double.sumFrom (interestExpected it) dE) ->
  (forall it, interestActual (g it) = Double.sumFrom (interestActual it) dA) ->
  Gains r (report_modify k g (ensureMonth k r)) [k]
    (fun k' => if String.eqb k k' then dN else [])
    (fun k' => if String.eqb k k' then dR else [])
    (fun k' => if String.eqb k k' then dE else [])
    (fun k' => if String.eqb k k' then dA else []).
Proof.
  intros Hg HN HR HE HA.
  destruct (touch_effect k g r newCapital dN returnedCapital dR
              interestExpected dE interestActual dA)
    as (c1 & c2 & c3 & c4 & c5 & c6); auto.
  unfold Gains. split; [| split; [| split; [| split; [| split]]]]; auto.
  intros k'. rewrite c2. simpl. intuition congruence.
Qed.

End ReportEntries.

Section ReportLoops.

Variable tz : Z.
Hypothesis tz_range : 0 <= tz < msPerDay.

Lemma isDigit_value c : isDigit c = true -> 0 <= digitValue c <= 9.
Proof.
  unfold isDigit, digitValue. intros [H1 H2]%andb_true_iff.
  apply Z.leb_le in H1, H2. lia.
Qed.

Lemma parse_chars c1 c2 c3 c4 c5 c6 c7 c8 c9 c10 :
  parse (String c1 (String c2 (String c3 (String c4 (String c5
          (String c6 (String c7 (String c8 (String c9 (String c10 EmptyString))))))))))
  = if isDigit c1 && isDigit c2 && isDigit c3 && isDigit c4
         && Ascii.eqb c5 "-" && isDigit c6 && isDigit c7
         && Ascii.eqb c8 "-" && isDigit c9 && isDigit c10
    then
      let y := 1000 * digitValue c1 + 100 * digitValue c2
               + 10 * digitValue c3 + digitValue c4 in
      let m := 10 * digitValue c6 + digitValue c7 in
      let d := 10 * digitValue c9 + digitValue c10 in
      if (1 <=? m) && (m <=? 12) && (1 <=? d) && (d <=? DaysInMonth y (m - 1))
      then TimeClip (MakeDate (MakeDay y (m - 1) d) 0)
      else None
    else None.
Proof. reflexivity. Qed.

Lemma if_Some {A} (c : bool) (x : option A) t :
  (if c then x else None) = Some t -> c = true /\ x = Some t.
Proof. destruct c; [auto | discriminate]. Qed.

Lemma TimeClip_Some x t : TimeClip x = Some t -> t = x.
Proof.
  unfold TimeClip. destruct (Z.abs x >? 8640000000000000); [discriminate |].
  intros H. injection H as <-. reflexivity.
Qed.

(** A text that parses is the text of a day of the calendar. *)
Lemma parse_Some s t :
  parse s = Some t ->
  exists y m d, 0 <= y <= 9999 /\ ValidDate y m d
                /\ t = MakeDate (MakeDay y (m - 1) d) 0.
Proof.
  intros H.
  do 10 (destruct s as [| ? s]; [discriminate H |]).
  destruct s; [| discriminate H].
  rewrite parse_chars in H.
  apply if_Some in H as [Ec H]. cbv zeta in H.
  apply if_Some in H as [Ev H]. apply TimeClip_Some in H.
  do 9 (apply andb_true_iff in Ec as [Ec ?]).
  do 3 (apply andb_true_iff in Ev as [Ev ?]).
  repeat match goal with
         | Hd : isDigit _ = true |- _ => apply isDigit_value in Hd
         | Hd : (_ <=? _) = true |- _ => apply Z.leb_le in Hd
         end.
  eexists _, _, _. split; [| split; [| exact H]].
  - lia.
  - unfold ValidDate. lia.
Qed.

(** No due date of a well-formed investment leaves the range of dates. *)
Lemma setMonth_parsed s t k :
  parse s = Some t -> 0 <= k <= 3000000 ->
  exists t', setMonth tz (ofString s) (JSNum.add (getMonth tz (ofString s)) (Some k))
             = Some t'.
Proof.
  intros Hs Hk. destruct (parse_Some s t Hs) as (y & m & d & Hy & Hv & ->).
  pose proof (ValidDate_day _ _ _ Hv) as Hd31.
  unfold ofString. rewrite Hs.
  destruct (local_fields tz y m d tz_range Hv) as (_ & -> & _).
  destruct Hv as [Hm Hd]. assert (0 <= m - 1 <= 11) as Hm' by lia.
  destruct (civil_of_MakeDay y (m - 1) d tz Hm' Hd tz_range) as (HY & _ & HD & HT & _).
  unfold setMonth, JSNum.add, LocalTime. cbn [mbind option_bind].
  replace (MakeDate (MakeDay y (m - 1) d) 0 + tz)
    with (MakeDate (MakeDay y (m - 1) d) tz) by (unfold MakeDate; lia).
  rewrite HY, HD, HT. eexists. apply TimeClip_ok. rewrite MakeDay_norm.
  pose proof (MakeDay_range (y + (m - 1 + k) / 12) ((m - 1 + k) mod 12) d).
  unfold UTC, MakeDate, msPerDay in *. Z.div_mod_to_equations. lia.
Qed.

Lemma interestStep_Gains inv r i :
  (exists t, parse (startDate inv) = Some t) -> 0 <= i <= 3000000 ->
  exists r', interestStep tz inv r i = Some r'
    /\ Gains r r' [dueKey tz inv i] (fun _ => []) (fun _ => [])
         (fun k => if String.eqb (dueKey tz inv i) k then [monthlyInterest inv] else [])
         (fun k => if String.eqb (dueKey tz inv i) k && paidAt inv i
                   then [monthlyInterest inv] else []).
Proof.
  intros [t Ht] Hi. destruct (setMonth_parsed _ t i Ht Hi) as [t' Ht'].
  unfold interestStep. fold (dueKey tz inv i). fold (paidAt inv i).
  rewrite Ht'. cbn [toISODate toISOString mbind option_bind].
  eexists. split; [reflexivity |].
  eapply Gains_trans; [| apply Gains_refl | ..].
  - apply Gains_touch with (dN := []) (dR := []) (dE := [monthlyInterest inv])
      (dA := if paidAt inv i then [monthlyInterest inv] else []);
      intros it; try reflexivity.
    cbn [interestActual addInterest]. destruct (paidAt inv i); reflexivity.
  - intros k. simpl. tauto.
  - intros k. cbv beta. destruct (String.eqb _ k); reflexivity.
  - intros k. cbv beta. destruct (String.eqb _ k); reflexivity.
  - intros k. cbv beta. destruct (String.eqb _ k); reflexivity.
  - intros k. cbv beta. destruct (String.eqb _ k), (paidAt inv i); reflexivity.
Qed.

Lemma interestLoop_Gains inv (l : list Z) :
  (exists t, parse (startDate inv) = Some t) ->
  Forall (fun i => 0 <= i <= 3000000) l ->
  forall r, exists r', forEachM (interestStep tz inv) l r = Some r'
    /\ Gains r r' (List.map (dueKey tz inv) l) (fun _ => []) (fun _ => [])
         (fun k => List.map (fun _ => monthlyInterest inv)
                     (List.filter (fun i => String.eqb (dueKey tz inv i) k) l))
         (fun k => List.map (fun _ => monthlyInterest inv)
                     (List.filter (fun i => String.eqb (dueKey tz inv i) k
                                            && paidAt inv i) l)).
Proof.
  intros Hs Hl. induction Hl as [| i l Hi Hl IH]; intros r.
  - exists r. split; [reflexivity |]. apply Gains_refl.
  - destruct (interestStep_Gains inv r i Hs Hi) as (r1 & E1 & G1).
    destruct (IH r1) as (r' & E' & G').
    exists r'. cbn [forEachM]. rewrite E1. cbn [mbind option_bind].
    split; [assumption |].
    eapply Gains_trans; [exact G1 | exact G' | ..].
    + intros k. simpl. tauto.
    + intros k. reflexivity.
    + intros k. reflexivity.
    + intros k. cbn [List.filter].
      destruct (String.eqb (dueKey tz inv i) k); reflexivity.
    + intros k. cbn [List.filter].
      destruct (String.eqb (dueKey tz inv i) k && paidAt inv i); reflexivity.
Qed.

Lemma reportInvestment_Gains inv r :
  wfInvestment inv ->
  exists r', reportInvestment tz r inv = Some r'
    /\ Gains r r' (monthsOf tz inv) (newCapitalOf tz inv) (returnedCapitalOf tz inv)
         (interestExpectedOf tz inv) (interestActualOf tz inv).
Proof.
  intros [Hs Hd]. unfold reportInvestment.
  fold (startKey tz inv). fold (endKey tz inv).
  set (r1 := report_modify (startKey tz inv) (addNewCapital inv)
               (ensureMonth (startKey tz inv) r)).
  set (r2 := report_modify (endKey tz inv) (addReturnedCapital inv)
               (ensureMonth (endKey tz inv) r1)).
  assert (Forall (fun i => 0 <= i <= 3000000) (seqZ 1 (duration inv))) as Hl.
  { apply List.Forall_forall. intros i Hi. apply list_elem_of_In, elem_of_seqZ in Hi. lia. }
  destruct (interestLoop_Gains inv _ Hs Hl r2) as (r' & E & G3).
  exists r'. split; [assumption |].
  assert (Gains r r1 [startKey tz inv] (newCapitalOf tz inv) (fun _ => [])
            (fun _ => []) (fun _ => [])) as G1.
  { eapply Gains_trans; [| apply Gains_refl | ..].
    - apply Gains_touch with (dN := [amount inv]) (dR := []) (dE := []) (dA := []);
        intros it; reflexivity.
    - intros k. simpl. tauto.
    - intros k. unfold newCapitalOf. cbv beta. destruct (String.eqb _ k); reflexivity.
    - intros k. cbv beta. destruct (String.eqb _ k); reflexivity.
    - intros k. cbv beta. destruct (String.eqb _ k); reflexivity.
    - intros k. cbv beta. destruct (String.eqb _ k); reflexivity. }
  assert (Gains r1 r2 [endKey tz inv] (fun _ => []) (returnedCapitalOf tz inv)
            (fun _ => []) (fun _ => [])) as G2.
  { eapply Gains_trans; [| apply Gains_refl | ..].
    - apply Gains_touch with (dN := []) (dR := [amount inv]) (dE := []) (dA := []);
        intros it; reflexivity.
    - intros k. simpl. tauto.
    - intros k. cbv beta. destruct (String.eqb _ k); reflexivity.
    - intros k. unfold returnedCapitalOf. cbv beta. destruct (String.eqb _ k); reflexivity.
    - intros k. cbv beta. destruct (String.eqb _ k); reflexivity.
    - intros k. cbv beta. destruct (String.eqb _ k); reflexivity. }
  assert (Gains r r2 [startKey tz inv; endKey tz inv] (newCapitalOf tz inv)
            (returnedCapitalOf tz inv) (fun _ => []) (fun _ => [])) as G12.
  { eapply Gains_trans; [exact G1 | exact G2 | ..].
    - intros k. simpl. tauto.
    - intros k. symmetry. apply app_nil_r.
    - intros k. reflexivity.
    - intros k. reflexivity.
    - intros k. reflexivity. }
  eapply Gains_trans; [exact G12 | exact G3 | ..].
  - intros k. unfold monthsOf. simpl. tauto.
  - intros k. symmetry. apply app_nil_r.
  - intros k. symmetry. apply app_nil_r.
  - intros k. reflexivity.
  - intros k. reflexivity.
Qed.

Lemma reportAll_Gains invs :
  List.Forall wfInvestment invs ->
  forall r, exists r', forEachM (reportInvestment tz) invs r = Some r'
    /\ Gains r r' (concat (List.map (monthsOf tz) invs))
         (fun k => flat_map (fun inv => newCapitalOf tz inv k) invs)
         (fun k => flat_map (fun inv => returnedCapitalOf tz inv k) invs)
         (fun k => flat_map (fun inv => interestExpectedOf tz inv k) invs)
         (fun k => flat_map (fun inv => interestActualOf tz inv k) invs).
Proof.
  intros Hwf. induction Hwf as [| inv invs Hinv Hwf IH]; intros r.
  - exists r. split; [reflexivity |]. apply Gains_refl.
  - destruct (reportInvestment_Gains inv r Hinv) as (r1 & E1 & G1).
    destruct (IH r1) as (r' & E' & G').
    exists r'. cbn [forEachM]. rewrite E1. cbn [mbind option_bind].
    split; [assumption |].
    eapply Gains_trans; [exact G1 | exact G' | ..].
    + intros k. cbn [List.map concat]. rewrite in_app_iff. tauto.
    + intros k. reflexivity.
    + intros k. reflexivity.
    + intros k. reflexivity.
    + intros k. reflexivity.
Qed.

Lemma insert_by_Permutation {A} (le : A -> A -> bool) x l :
  Permutation (insert_by le x l) (x :: l).
Proof.
  induction l as [| y l IH]; simpl; [reflexivity |].
  destruct (le x y); [reflexivity |].
  rewrite IH. apply perm_swap.
Qed.

Lemma sort_by_Permutation {A} (le : A -> A -> bool) l :
  Permutation (sort_by le l) l.
Proof.
  induction l as [| x l IH]; simpl; [reflexivity |].
  rewrite insert_by_Permutation, IH. reflexivity.
Qed.

Lemma sumZ_Permutation l l' : Permutation l l' -> sumZ l = sumZ l'.
Proof.
  induction 1; simpl; lia.
Qed.

(** The report of a well-formed collection: it is produced, each month
    has one entry, the months are those the investments touch, and each
    total is the sum, taken in the order of the collection, of what the
    investments add to the month. *)
Lemma getMonthlyReport_spec invs :
  List.Forall wfInvestment invs ->
  exists out, getMonthlyReport tz invs = Some out
    /\ List.NoDup (keysOf out)
    /\ (forall k, In k (keysOf out)
                  <-> exists inv, In inv invs /\ In k (monthsOf tz inv))
    /\ (forall it, In it out ->
          newCapital it
          = Double.sum (flat_map (fun inv => newCapitalOf tz inv (monthStr it)) invs)
          /\ returnedCapital it
             = Double.sum (flat_map (fun inv => returnedCapitalOf tz inv (monthStr it)) invs)
          /\ interestExpected it
             = Double.sum (flat_map (fun inv => interestExpectedOf tz inv (monthStr it)) invs)
          /\ interestActual it
             = Double.sum (flat_map (fun inv => interestActualOf tz inv (monthStr it)) invs)).
Proof.
  intros Hwf. destruct (reportAll_Gains invs Hwf []) as (r & E & G).
  destruct G as (g1 & g2 & g3 & g4 & g5 & g6).
  unfold getMonthlyReport. rewrite E. cbn [mbind option_bind].
  set (out := sort_by _ r).
  assert (Permutation out r) as Hperm by apply sort_by_Permutation.
  assert (List.NoDup (keysOf r)) as Hnd by (apply g1; constructor).
  exists out. split; [reflexivity |]. split; [| split].
  - apply (Permutation_NoDup (l := keysOf r)); [| assumption].
    unfold keysOf. apply Permutation_map. symmetry. assumption.
  - intros k.
    assert (In k (keysOf out) <-> In k (keysOf r)) as ->.
    { unfold keysOf. split; apply Permutation_in, Permutation_map;
        [assumption | symmetry; assumption]. }
    rewrite g2. simpl. rewrite in_concat. split.
    + intros [[] | (ks & Hks & Hk)]. apply in_map_iff in Hks as (inv & <- & Hinv).
      eauto.
    + intros (inv & Hinv & Hk). right. exists (monthsOf tz inv).
      split; [apply in_map; assumption | assumption].
  - intros it Hit. apply (Permutation_in _ Hperm) in Hit.
    pose proof (report_get_NoDup r it Hnd Hit) as Hget.
    specialize (g3 (monthStr it)). specialize (g4 (monthStr it)).
    specialize (g5 (monthStr it)). specialize (g6 (monthStr it)).
    unfold fieldAt in g3, g4, g5, g6. rewrite Hget in g3, g4, g5, g6.
    simpl in g3, g4, g5, g6. repeat split; assumption.
Qed.

End ReportLoops.

(** ** Totals of the report *)

Section ReportTotals.

Lemma sumZ_app l l' : sumZ (l ++ l') = sumZ l + sumZ l'.
Proof. induction l as [| a l IH]; cbn; [reflexivity | unfold sumZ in *; cbn; lia]. Qed.

Lemma sumZ_map_add {A} (f g : A -> Z) l :
  sumZ (List.map (fun a => f a + g a) l) = sumZ (List.map f l) + sumZ (List.map g l).
Proof. induction l as [| a l IH]; [reflexivity |]. unfold sumZ in *. cbn. lia. Qed.

Lemma sumZ_map_zero {A} (l : list A) : sumZ (List.map (fun _ => 0) l) = 0.
Proof. induction l as [| a l IH]; [reflexivity |]. unfold sumZ in *. cbn. lia. Qed.

Lemma sumZ_map_ext {A} (f g : A -> Z) l :
  (forall a, In a l -> f a = g a) -> sumZ (List.map f l) = sumZ (List.map g l).
Proof. intros H. f_equal. apply List.map_ext_in. assumption. Qed.

Lemma sumZ_map_le {A} (f g : A -> Z) l :
  (forall a, In a l -> f a <= g a) -> sumZ (List.map f l) <= sumZ (List.map g l).
Proof.
  induction l as [| a l IH]; intros H; [cbn; lia |].
  unfold sumZ in *. cbn [List.map foldr].
  specialize (H a (or_introl eq_refl)) as Ha.
  specialize (IH (fun b Hb => H b (or_intror Hb))). lia.
Qed.

Lemma sumZ_member_le {A} (f : A -> Z) (l : list A) x :
  (forall a, In a l -> 0 <= f a) -> In x l -> f x <= sumZ (List.map f l).
Proof.
  induction l as [| a l IH]; intros Hf Hin; [destruct Hin |].
  assert (0 <= sumZ (List.map f l)) as Hnn.
  { clear - Hf. induction l as [| b l IH]; [cbn; lia |].
    unfold sumZ in *. cbn [List.map foldr].
    pose proof (Hf b (or_intror (or_introl eq_refl))).
    assert (0 <= foldr Z.add 0 (List.map f l)); [| lia].
    apply IH. intros c [-> | Hc]; apply Hf; [left | right; right]; auto. }
  pose proof (Hf a (or_introl eq_refl)) as Ha.
  unfold sumZ in *. cbn [List.map foldr].
  destruct Hin as [-> | Hin]; [lia |].
  specialize (IH (fun b Hb => Hf b (or_intror Hb)) Hin). lia.
Qed.

(** Sums over two lists in either order. *)
Lemma sumZ_swap {A B} (f : A -> B -> Z) (la : list A) (lb : list B) :
  sumZ (List.map (fun a => sumZ (List.map (fun b => f a b) lb)) la)
  = sumZ (List.map (fun b => sumZ (List.map (fun a => f a b) la)) lb).
Proof.
  induction la as [| a la IH].
  - cbn. rewrite sumZ_map_zero. reflexivity.
  - transitivity (sumZ (List.map (fun b => f a b
                      + sumZ (List.map (fun a' => f a' b) la)) lb));
      [| apply sumZ_map_ext; intros; reflexivity].
    rewrite sumZ_map_add, <- IH. reflexivity.
Qed.

(** An amount entered at one month of a report with one entry per month is
    counted once in the total over the months. *)
Lemma sumZ_keyIs k x (ks : list string) :
  List.NoDup ks -> In k ks -> sumZ (List.map (fun k' => keyIs k k' x) ks) = x.
Proof.
  induction ks as [| k' ks IH]; intros Hnd Hin; [destruct Hin |].
  apply List.NoDup_cons_iff in Hnd as [Hk' Hnd]. unfold sumZ in *. cbn.
  unfold keyIs at 1. destruct (String.eqb_spec k k') as [-> | Hne].
  - assert (foldr Z.add 0 (List.map (fun k'0 => keyIs k' k'0 x) ks) = 0) as ->; [| lia].
    clear IH Hin Hnd. induction ks as [| a ks IH]; [reflexivity |].
    cbn. unfold keyIs at 1. destruct (String.eqb_spec k' a) as [-> | _].
    + exfalso. apply Hk'. left. reflexivity.
    + rewrite IH; [reflexivity |]. intros H. apply Hk'. right. assumption.
  - rewrite IH; [lia | assumption |]. destruct Hin as [-> | H]; [contradiction | assumption].
Qed.

Lemma sumZ_indicator (p : Z -> bool) x (l : list Z) :
  sumZ (List.map (fun i => if p i then x else 0) l)
  = x * Z.of_nat (length (List.filter p l)).
Proof.
  induction l as [| i l IH]; [cbn; lia |].
  unfold sumZ in *. cbn. destruct (p i); cbn [length]; lia.
Qed.

Lemma sumZ_const {A} (x : Z) (l : list A) :
  sumZ (List.map (fun _ => x) l) = x * Z.of_nat (length l).
Proof.
  induction l as [| a l IH]; [cbn; lia |]. unfold sumZ in *. cbn [List.map foldr length]. lia.
Qed.

Lemma sumZ_flat_map {A B} (h : B -> Z) (f : A -> list B) (l : list A) :
  sumZ (List.map h (flat_map f l)) = sumZ (List.map (fun a => sumZ (List.map h (f a))) l).
Proof.
  induction l as [| a l IH]; [reflexivity |].
  cbn [flat_map List.map]. rewrite List.map_app, sumZ_app, IH. reflexivity.
Qed.

Lemma filter_length_le {A} (p : A -> bool) (l : list A) :
  (length (List.filter p l) <= length l)%nat.
Proof.
  induction l as [| a l IH]; [cbn; lia |]. cbn [List.filter].
  destruct (p a); cbn [length]; lia.
Qed.

Lemma foldl_sum {A} (f : A -> Z) (l : list A) : forall a,
  foldl (fun s x => s + f x) a l = a + sumZ (List.map f l).
Proof.
  induction l as [| x l IH]; intros a; [cbn; lia |].
  cbn [foldl List.map]. rewrite IH. unfold sumZ. cbn. lia.
Qed.

Lemma filter_one_more (p q : Z -> bool) k (l : list Z) :
  (forall i, i <> k -> p i = q i) -> p k = true -> q k = false ->
  List.NoDup l -> In k l ->
  length (List.filter p l) = S (length (List.filter q l)).
Proof.
  intros Hpq Hp Hq. induction l as [| a l IH]; intros Hnd Hin; [destruct Hin |].
  apply List.NoDup_cons_iff in Hnd as [Ha Hnd]. cbn [List.filter].
  destruct (Z.eq_dec a k) as [-> | Hne].
  - rewrite Hp, Hq. cbn [length]. f_equal. f_equal.
    apply List.filter_ext_in. intros i Hi. apply Hpq. intros ->. contradiction.
  - rewrite (Hpq a Hne). destruct Hin as [-> | Hin]; [contradiction |].
    destruct (q a); cbn [length]; rewrite IH by assumption; reflexivity.
Qed.

(** The number of paid records of a history whose paid keys are periods of
    the investment. *)
Lemma paid_count (h : gmap Z PaymentRecord) (n : Z) :
  (forall j rec, h !! j = Some rec -> isPaid rec = true -> 1 <= j <= n) ->
  length (List.filter (fun i => default false (isPaid <$> h !! i)) (seqZ 1 n))
  = length (List.filter isPaid (snd <$> map_to_list h)).
Proof.
  induction h as [| k r h Hk Hfirst IH] using map_first_key_ind; intros Hin.
  - rewrite map_to_list_empty. cbn.
    induction (seqZ 1 n) as [| i l IHl]; [reflexivity |].
    cbn. rewrite lookup_empty. cbn. assumption.
  - rewrite map_to_list_insert_first_key by assumption.
    cbn [fmap list_fmap snd List.filter].
    assert (forall i, i <> k ->
              default false (isPaid <$> <[k:=r]> h !! i)
              = default false (isPaid <$> h !! i)) as Hne
      by (intros i Hi; rewrite lookup_insert_ne by congruence; reflexivity).
    assert (length (List.filter (fun i => default false (isPaid <$> h !! i)) (seqZ 1 n))
            = length (List.filter isPaid (snd <$> map_to_list h))) as IH'.
    { apply IH. intros j rec Hj Hp. apply (Hin j rec); [| assumption].
      rewrite lookup_insert_ne; [assumption |]. intros ->. congruence. }
    destruct (isPaid r) eqn:Er.
    + cbn [length]. rewrite <- IH'.
      apply (filter_one_more _ _ k); try assumption.
      * rewrite lookup_insert_eq. assumption.
      * rewrite Hk. reflexivity.
      * apply NoDup_ListNoDup, NoDup_seqZ.
      * apply list_elem_of_In, elem_of_seqZ.
        specialize (Hin k r ltac:(apply lookup_insert_eq) Er). lia.
    + rewrite <- IH'. f_equal. apply List.filter_ext. intros i.
      destruct (Z.eq_dec i k) as [-> | Hi]; [| apply Hne; assumption].
      rewrite lookup_insert_eq, Hk. cbn. assumption.
Qed.

(** The total of a field over the months, from what each investment adds
    to each month. *)
Lemma total_by_month (out : list MonthlyReportItem) (invs : list Investment)
    (c : Investment -> string -> Z) (f : MonthlyReportItem -> Double.t) :
  (forall it, In it out ->
     Double.toZ (f it) = sumZ (List.map (fun inv => c inv (monthStr it)) invs)) ->
  total f out
  = sumZ (List.map (fun inv => sumZ (List.map (c inv) (keysOf out))) invs).
Proof.
  intros Hf. unfold total. rewrite (sumZ_map_ext _ _ _ Hf).
  rewrite (sumZ_swap (fun it inv => c inv (monthStr it))).
  apply sumZ_map_ext. intros inv _. unfold keysOf. rewrite List.map_map. reflexivity.
Qed.

Lemma absSum_app l l' : absSum (l ++ l') = absSum l + absSum l'.
Proof. unfold absSum. rewrite List.map_app. apply sumZ_app. Qed.

(** A total to which every investment adds whole numbers. *)
Lemma column_safe (f : Investment -> list Double.t) (w : Investment -> Z) invs :
  (forall inv, In inv invs ->
     Forall (fun x => Double.isSafeInteger x = true) (f inv) /\ absSum (f inv) <= w inv) ->
  Forall (fun x => Double.isSafeInteger x = true) (flat_map f invs)
  /\ absSum (flat_map f invs) <= sumZ (List.map w invs).
Proof.
  induction invs as [| inv invs IH]; intros H.
  - split; [constructor | cbn; lia].
  - destruct (H inv (or_introl eq_refl)) as [H1 H2].
    destruct (IH (fun x Hx => H x (or_intror Hx))) as [H3 H4].
    cbn [flat_map List.map]. split.
    + apply Forall_app. split; assumption.
    + rewrite absSum_app. unfold sumZ in *. cbn [foldr]. lia.
Qed.

Lemma column_whole (f : Investment -> list Double.t) (c w : Investment -> Z) invs :
  (forall inv, In inv invs ->
     Forall (fun x => Double.isSafeInteger x = true) (f inv)
     /\ sumZ (List.map Double.toZ (f inv)) = c inv
     /\ absSum (f inv) <= w inv) ->
  sumZ (List.map w invs) < 2 ^ 53 ->
  Double.sum (flat_map f invs) = Double.ofZ (sumZ (List.map c invs))
  /\ Double.toZ (Double.sum (flat_map f invs)) = sumZ (List.map c invs).
Proof.
  intros H Hw.
  destruct (column_safe f w invs) as [Hs Hb].
  { intros inv Hin. destruct (H inv Hin) as (h1 & _ & h3). split; assumption. }
  assert (sumZ (List.map Double.toZ (flat_map f invs)) = sumZ (List.map c invs)) as Hv.
  { rewrite sumZ_flat_map. apply sumZ_map_ext. intros inv Hin. apply (H inv Hin). }
  pose proof (sumZ_abs_le (flat_map f invs)) as Habs.
  rewrite sum_whole by (assumption || lia). rewrite Hv.
  split; [reflexivity |]. apply toZ_ofZ. lia.
Qed.

End ReportTotals.

Section ReportWhole.

Variable tz : Z.

Lemma sumZ_filter_const {A} (p : A -> bool) (x : Z) (l : list A) :
  sumZ (List.map (fun _ => x) (List.filter p l))
  = sumZ (List.map (fun i => if p i then x else 0) l).
Proof.
  induction l as [| a l IH]; [reflexivity |]. cbn [List.filter List.map].
  destruct (p a); unfold sumZ in *; cbn [List.map foldr]; lia.
Qed.

Lemma absSum_const {A} (m : Double.t) (l : list A) :
  absSum (List.map (fun _ => m) l) = Z.abs (Double.toZ m) * Z.of_nat (length l).
Proof. unfold absSum. rewrite List.map_map. apply sumZ_const. Qed.

Lemma Forall_const {A} (P : Double.t -> Prop) (m : Double.t) (l : list A) :
  P m -> Forall P (List.map (fun _ => m) l).
Proof. intros H. induction l; constructor; assumption. Qed.

(** What an investment with a whole amount adds to the capital of a
    month. *)
Lemma newCapital_whole inv k :
  wholeAmount inv ->
  Forall (fun x => Double.isSafeInteger x = true) (newCapitalOf tz inv k)
  /\ sumZ (List.map Double.toZ (newCapitalOf tz inv k)) = wholeNewOf tz inv k
  /\ absSum (newCapitalOf tz inv k) <= Z.abs (principalOf inv).
Proof.
  intros H. unfold newCapitalOf, wholeNewOf, keyIs, absSum, principalOf.
  destruct (String.eqb _ k); cbn [List.map sumZ foldr].
  - split; [repeat constructor; exact H | lia].
  - split; [constructor | lia].
Qed.

Lemma returnedCapital_whole inv k :
  wholeAmount inv ->
  Forall (fun x => Double.isSafeInteger x = true) (returnedCapitalOf tz inv k)
  /\ sumZ (List.map Double.toZ (returnedCapitalOf tz inv k)) = wholeReturnedOf tz inv k
  /\ absSum (returnedCapitalOf tz inv k) <= Z.abs (principalOf inv).
Proof.
  intros H. unfold returnedCapitalOf, wholeReturnedOf, keyIs, absSum, principalOf.
  destruct (String.eqb _ k); cbn [List.map sumZ foldr].
  - split; [repeat constructor; exact H | lia].
  - split; [constructor | lia].
Qed.

(** What an investment with a whole monthly interest adds to the interest
    of a month. *)
Lemma interestExpected_whole inv k :
  wholeInterest inv -> 0 <= duration inv ->
  Forall (fun x => Double.isSafeInteger x = true) (interestExpectedOf tz inv k)
  /\ sumZ (List.map Double.toZ (interestExpectedOf tz inv k)) = wholeExpectedOf tz inv k
  /\ absSum (interestExpectedOf tz inv k) <= Z.abs (interestOf inv) * duration inv.
Proof.
  intros H Hd. unfold interestExpectedOf, wholeExpectedOf, dueIn.
  split; [apply Forall_const; exact H |]. split.
  - rewrite List.map_map. apply sumZ_filter_const.
  - rewrite absSum_const. fold (interestOf inv).
    pose proof (filter_length_le (fun i => String.eqb (dueKey tz inv i) k)
                  (seqZ 1 (duration inv))) as Hl.
    rewrite length_seqZ in Hl. nia.
Qed.

Lemma interestActual_whole inv k :
  wholeInterest inv -> 0 <= duration inv ->
  Forall (fun x => Double.isSafeInteger x = true) (interestActualOf tz inv k)
  /\ sumZ (List.map Double.toZ (interestActualOf tz inv k)) = wholeActualOf tz inv k
  /\ absSum (interestActualOf tz inv k) <= Z.abs (interestOf inv) * duration inv.
Proof.
  intros H Hd. unfold interestActualOf, wholeActualOf, paidIn.
  split; [apply Forall_const; exact H |]. split.
  - rewrite List.map_map, sumZ_filter_const. apply sumZ_map_ext. intros i _.
    unfold keyIs. fold (interestOf inv).
    destruct (String.eqb _ k), (paidAt inv i); reflexivity.
  - rewrite absSum_const. fold (interestOf inv).
    pose proof (filter_length_le (fun i => String.eqb (dueKey tz inv i) k && paidAt inv i)
                  (seqZ 1 (duration inv))) as Hl.
    rewrite length_seqZ in Hl. nia.
Qed.

Hypothesis tz_range : 0 <= tz < msPerDay.

(** The report of a collection in whole numbers: no total rounds. *)
Lemma getMonthlyReport_whole invs :
  List.Forall wfInvestment invs ->
  exists out, getMonthlyReport tz invs = Some out
    /\ List.NoDup (keysOf out)
    /\ (forall k, In k (keysOf out)
                  <-> exists inv, In inv invs /\ In k (monthsOf tz inv))
    /\ (List.Forall wholeAmount invs -> capitalVolume invs < 2 ^ 53 ->
        forall it, In it out ->
          let k := monthStr it in
          newCapital it = Double.ofZ (sumZ (List.map (fun inv => wholeNewOf tz inv k) invs))
          /\ Double.toZ (newCapital it) = sumZ (List.map (fun inv => wholeNewOf tz inv k) invs)
          /\ returnedCapital it
             = Double.ofZ (sumZ (List.map (fun inv => wholeReturnedOf tz inv k) invs))
          /\ Double.toZ (returnedCapital it)
             = sumZ (List.map (fun inv => wholeReturnedOf tz inv k) invs))
    /\ (List.Forall wholeInterest invs -> interestVolume invs < 2 ^ 53 ->
        forall it, In it out ->
          let k := monthStr it in
          interestExpected it
          = Double.ofZ (sumZ (List.map (fun inv => wholeExpectedOf tz inv k) invs))
          /\ Double.toZ (interestExpected it)
             = sumZ (List.map (fun inv => wholeExpectedOf tz inv k) invs)
          /\ interestActual it
             = Double.ofZ (sumZ (List.map (fun inv => wholeActualOf tz inv k) invs))
          /\ Double.toZ (interestActual it)
             = sumZ (List.map (fun inv => wholeActualOf tz inv k) invs)).
Proof.
  intros Hwf.
  destruct (getMonthlyReport_spec tz tz_range invs Hwf) as (out & E & Hnd & Hk & Hf).
  exists out. split; [assumption |]. split; [assumption |]. split; [assumption |].
  pose proof (proj1 (List.Forall_forall _ _) Hwf) as Hwf'.
  split.
  - intros Hw Hv it Hit k. pose proof (proj1 (List.Forall_forall _ _) Hw) as Hw'.
    destruct (Hf it Hit) as (a1 & a2 & _ & _). fold k in a1, a2.
    destruct (column_whole (fun inv => newCapitalOf tz inv k)
                (fun inv => wholeNewOf tz inv k) (fun inv => Z.abs (principalOf inv)) invs)
      as [b1 b2]; [intros inv Hin; apply newCapital_whole; auto | exact Hv |].
    destruct (column_whole (fun inv => returnedCapitalOf tz inv k)
                (fun inv => wholeReturnedOf tz inv k) (fun inv => Z.abs (principalOf inv)) invs)
      as [c1 c2]; [intros inv Hin; apply returnedCapital_whole; auto | exact Hv |].
    rewrite a1, a2. auto.
  - intros Hw Hv it Hit k. pose proof (proj1 (List.Forall_forall _ _) Hw) as Hw'.
    destruct (Hf it Hit) as (_ & _ & a3 & a4). fold k in a3, a4.
    destruct (column_whole (fun inv => interestExpectedOf tz inv k)
                (fun inv => wholeExpectedOf tz inv k)
                (fun inv => Z.abs (interestOf inv) * duration inv) invs)
      as [b1 b2];
      [intros inv Hin; apply interestExpected_whole; [auto | apply (Hwf' inv Hin)]
      | exact Hv |].
    destruct (column_whole (fun inv => interestActualOf tz inv k)
                (fun inv => wholeActualOf tz inv k)
                (fun inv => Z.abs (interestOf inv) * duration inv) invs)
      as [c1 c2];
      [intros inv Hin; apply interestActual_whole; [auto | apply (Hwf' inv Hin)]
      | exact Hv |].
    rewrite a3, a4. auto.
Qed.

(** The expected interest of the whole report. *)
Lemma report_expected_total invs :
  List.Forall wfInvestment invs -> List.Forall wholeInterest invs ->
  interestVolume invs < 2 ^ 53 ->
  exists out, getMonthlyReport tz invs = Some out
    /\ (forall it, In it out ->
          interestExpected it = Double.ofZ (Double.toZ (interestExpected it)))
    /\ total interestExpected out = scheduledInterest invs.
Proof.
  intros Hwf Hw Hv.
  destruct (getMonthlyReport_whole invs Hwf) as (out & E & Hnd & Hk & _ & Hf).
  specialize (Hf Hw Hv).
  exists out. split; [assumption |]. split.
  - intros it Hit. destruct (Hf it Hit) as (a1 & a2 & _). cbv zeta in a1, a2.
    rewrite a2. exact a1.
  - rewrite (total_by_month out invs (wholeExpectedOf tz))
      by (intros it Hit; apply (Hf it Hit)).
    apply sumZ_map_ext. intros inv Hinv. unfold wholeExpectedOf.
    rewrite (sumZ_swap (fun k i => keyIs (dueKey tz inv i) k (interestOf inv))).
    rewrite (sumZ_map_ext _ (fun _ => interestOf inv)).
    + rewrite sumZ_const, length_seqZ.
      destruct (proj1 (List.Forall_forall _ _) Hwf inv Hinv) as [_ Hd].
      rewrite Z2Nat.id by lia. reflexivity.
    + intros i Hi. apply sumZ_keyIs; [assumption |]. apply Hk. exists inv.
      split; [assumption |]. right. right. apply in_map. assumption.
Qed.

End ReportWhole.







(** * Further properties *)

(** ** From a time value back to the calendar *)

Section CivilOfTime.

Lemma YearFromDay_bounds n :
  DayFromYear (YearFromDay n) <= n < DayFromYear (YearFromDay n + 1).
Proof.
  unfold YearFromDay. set (e := 1970 + n * 400 / 146097).
  assert (146097 * (e - 1970) <= 400 * n < 146097 * (e - 1969)) as He
    by (subst e; divlia).
  pose proof (DayFromYear_upper (e - 1)) as U.
  pose proof (DayFromYear_lower (e + 2)) as L.
  pose proof (DayFromYear_succ (e - 1)) as S0.
  replace (e - 1 + 1) with e in S0 by lia.
  pose proof (DayFromYear_succ e) as S1.
  pose proof (DayFromYear_succ (e + 1)) as S2.
  replace (e + 1 + 1) with (e + 2) in * by lia.
  destruct (Z.leb_spec (DayFromYear (e + 1)) n).
  - replace (e + 1 + 1) with (e + 2) by lia. lia.
  - destruct (Z.leb_spec (DayFromYear e) n); [lia |].
    replace (e - 1 + 1) with e by lia. lia.
Qed.

(** The year, month and date of any time value form a day of the
    calendar, the day of that time value. *)
Lemma civil_of_time t :
  0 <= MonthFromTime t <= 11
  /\ 1 <= DateFromTime t <= DaysInMonth (YearFromTime t) (MonthFromTime t)
  /\ MakeDay (YearFromTime t) (MonthFromTime t) (DateFromTime t) = Day t.
Proof.
  pose proof (YearFromDay_bounds (Day t)) as HB.
  rewrite DayFromYear_succ in HB. fold (YearFromTime t) in HB.
  unfold DateFromTime, DaysInMonth, MonthFromTime, InLeapYear, DayWithinYear,
    DaysInYear in *.
  set (Y := YearFromTime t) in *. set (w := Day t - DayFromYear Y).
  assert (0 <= w < (if isLeapYear Y then 366 else 365)) as Hw by (subst w; lia).
  assert (Day t = DayFromYear Y + w) as HD by (subst w; lia).
  clearbody w.
  assert (forall m, 0 <= m <= 11 ->
            MakeDay Y m (w - monthStart (if isLeapYear Y then 1 else 0) m + 1) = Day t)
    as HM by (intros m Hm; rewrite MakeDay_in_year by assumption; lia).
  destruct (isLeapYear Y);
    repeat match goal with
           | |- context [?a <? ?b] => destruct (Z.ltb_spec a b)
           end;
    (split; [lia | split; [simpl; lia | apply HM; lia]]).
Qed.

End CivilOfTime.

(** ** The strict parser accepts days of the calendar only *)

Section StrictParser.

Lemma strict_neq_false x y :
  JSNum.strict_neq x y = false -> exists a, x = Some a /\ y = Some a.
Proof.
  destruct x as [a |], y as [b |]; simpl; try discriminate.
  intros H. apply negb_false_iff, Z.eqb_eq in H. subst. eauto.
Qed.

Lemma rocCheck_Some tz year month day r :
  rocCheck tz year month day = Some r ->
  exists y m d, year = Some y /\ month = Some m /\ day = Some d
    /\ ValidDate y m d
    /\ r = Z_toString y +:+ "-" +:+ padStart 2 (Z_toString m) +:+ "-"
           +:+ padStart 2 (Z_toString d).
Proof.
  unfold rocCheck. destruct (JSNum.lt month (Some 1) || JSNum.gt month (Some 12));
    [discriminate |].
  set (date := ofFields tz year (JSNum.sub month (Some 1)) day).
  destruct (JSNum.strict_neq (getFullYear tz date) year
            || JSNum.strict_neq (JSNum.add (getMonth tz date) (Some 1)) month
            || JSNum.strict_neq (getDate tz date) day) eqn:E; [discriminate |].
  apply orb_false_iff in E as [E E3]. apply orb_false_iff in E as [E1 E2].
  apply strict_neq_false in E1 as (y & Hy & ->).
  apply strict_neq_false in E2 as (m & Hm & ->).
  apply strict_neq_false in E3 as (d & Hd & ->).
  intros H. injection H as <-. exists y, m, d.
  repeat (split; [reflexivity |]). split; [| reflexivity].
  destruct date as [t |]; [| discriminate Hy].
  cbn in Hy, Hm, Hd. injection Hy as Hy. injection Hm as Hm. injection Hd as Hd.
  destruct (civil_of_time (LocalTime tz t)) as (H1 & H2 & _).
  unfold ValidDate. rewrite Hy, Hd in H2.
  replace (m - 1) with (MonthFromTime (LocalTime tz t)) by lia. lia.
Qed.

Lemma all_digits_replace s : all_digits (replace_nondigits s) = true.
Proof.
  induction s as [| c r IH]; [reflexivity |].
  simpl. destruct (isDigit c) eqn:E; [| assumption].
  simpl. rewrite E, IH. reflexivity.
Qed.

Lemma parseInt_digits2 a b :
  isDigit a = true -> isDigit b = true ->
  parseInt (String a (String b EmptyString)) = Some (10 * digitValue a + digitValue b).
Proof.
  intros Ha Hb. unfold parseInt. cbn [leading_digits]. rewrite Ha, Hb.
  cbn [digits_value]. f_equal; lia.
Qed.

Lemma parseInt_digits3 a b c :
  isDigit a = true -> isDigit b = true -> isDigit c = true ->
  parseInt (String a (String b (String c EmptyString)))
  = Some (100 * digitValue a + 10 * digitValue b + digitValue c).
Proof.
  intros Ha Hb Hc. unfold parseInt. cbn [leading_digits]. rewrite Ha, Hb, Hc.
  cbn [digits_value]. f_equal; lia.
Qed.

(** The fields the parser reads: an era year of two or three digits and a
    month and a day of two digits each. *)
Lemma rocFields_Some s f :
  rocFields s = Some f ->
  exists y m d, f = (Some y, Some m, Some d)
    /\ 1911 <= y <= 2910 /\ 0 <= m <= 99 /\ 0 <= d <= 99.
Proof.
  unfold rocFields. pose proof (all_digits_replace s) as Hall.
  destruct (replace_nondigits s) as [| c1 [| c2 [| c3 [| c4 [| c5 [| c6 [| c7 [| c8 r]]]]]]]];
    try discriminate.
  - (* six digits *)
    cbn [all_digits] in Hall. repeat (apply andb_true_iff in Hall as [? Hall]).
    change (strlen _) with 6. cbn [Z.eqb Pos.eqb negb andb].
    change (substring 0 2 ?x) with (String.substring 0 2 x).
    change (substring 2 4 ?x) with (String.substring 2 2 x).
    change (substring 4 6 ?x) with (String.substring 4 2 x).
    cbn [String.substring]. rewrite !parseInt_digits2 by assumption.
    intros E. injection E as <-.
    repeat match goal with
           | Hd : isDigit _ = true |- _ => apply isDigit_value in Hd
           end.
    eexists _, _, _. split; [reflexivity |]. lia.
  - (* seven digits *)
    cbn [all_digits] in Hall. repeat (apply andb_true_iff in Hall as [? Hall]).
    change (strlen _) with 7. cbn [Z.eqb Pos.eqb negb andb].
    change (substring 0 3 ?x) with (String.substring 0 3 x).
    change (substring 3 5 ?x) with (String.substring 3 2 x).
    change (substring 5 7 ?x) with (String.substring 5 2 x).
    cbn [String.substring]. rewrite parseInt_digits3, !parseInt_digits2 by assumption.
    intros E. injection E as <-.
    repeat match goal with
           | Hd : isDigit _ = true |- _ => apply isDigit_value in Hd
           end.
    eexists _, _, _. split; [reflexivity |]. lia.
  - (* eight digits or more *)
    unfold strlen. cbn [String.length].
    destruct (Z.eqb_spec (Z.of_nat (S (S (S (S (S (S (S (S (String.length r)))))))))) 6);
      [lia |].
    destruct (Z.eqb_spec (Z.of_nat (S (S (S (S (S (S (S (S (String.length r)))))))))) 7);
      [lia | discriminate].
Qed.

End StrictParser.

(** X1: whatever [rocInputToISO] returns is a day of the calendar.  A
    result is the ISO text of a valid date (the day exists in its month,
    29 February only in leap years) of the years 1911 to 2910, and it is a
    text that [Date.parse] reads back as that date.  This holds in every
    time zone. *)
Theorem rocInputToISO_sound tz s r :
  rocInputToISO tz s = Some r ->
  exists y m d, 1911 <= y <= 2910 /\ ValidDate y m d /\ r = isoDate y m d
    /\ rocFields s = Some (Some y, Some m, Some d)
    /\ parse r = Some (MakeDate (MakeDay y (m - 1) d) 0).
Proof.
  rewrite rocInputToISO_split. destruct (rocFields s) as [f |] eqn:Ef; [| discriminate].
  destruct (rocFields_Some s f Ef) as (y & m & d & -> & Hy & Hm & Hd).
  intros H. apply rocCheck_Some in H as (y' & m' & d' & E1 & E2 & E3 & Hv & ->).
  injection E1 as <-. injection E2 as <-. injection E3 as <-.
  pose proof (ValidDate_day _ _ _ Hv) as Hd31. pose proof Hv as [Hm12 _].
  assert (Z_toString y +:+ "-" +:+ padStart 2 (Z_toString m) +:+ "-"
          +:+ padStart 2 (Z_toString d) = isoDate y m d) as ->.
  { rewrite isoDate_digits, Z_toString_4, !pad2_digits by lia. reflexivity. }
  exists y, m, d. repeat (split; [assumption || reflexivity |]).
  apply parse_isoDate; [lia | assumption].
Qed.

Lemma rocInputToISO_sound_witness :
  exists y m d, 1911 <= y <= 2910 /\ ValidDate y m d
    /\ "2024-02-29"%string = isoDate y m d
    /\ rocFields "113/02/29" = Some (Some y, Some m, Some d)
    /\ parse "2024-02-29" = Some (MakeDate (MakeDay y (m - 1) d) 0).
Proof.
  apply (rocInputToISO_sound TZ_Taipei "113/02/29" "2024-02-29").
  vm_compute. reflexivity.
Defined.

(** ** Display and loose parsing of alternate-calendar dates *)

Section LooseDates.

Lemma digit_not_special c :
  isDigit c = true ->
  isWhiteSpace c = false /\ isDateSeparator c = false
  /\ Ascii.eqb c "-" = false /\ Ascii.eqb c "+" = false.
Proof.
  intros H.
  assert (forall x, isDigit x = false -> Ascii.eqb c x = false) as Hne.
  { intros x Hx. apply Ascii.eqb_neq. intros ->. congruence. }
  unfold isDateSeparator. rewrite !Hne by reflexivity.
  repeat split; try reflexivity.
  unfold isDigit, isWhiteSpace in *. apply andb_true_iff in H as [H1 H2].
  apply Z.leb_le in H1, H2.
  destruct (Z.leb_spec 9 (Z.of_nat (nat_of_ascii c)));
    destruct (Z.leb_spec (Z.of_nat (nat_of_ascii c)) 13);
    destruct (Z.eqb_spec (Z.of_nat (nat_of_ascii c)) 32); simpl; lia || reflexivity.
Qed.

Lemma trimEnd_cons c r :
  trimEnd r = r -> r <> EmptyString -> trimEnd (String c r) = String c r.
Proof.
  intros H Hne. cbn [trimEnd]. rewrite H. destruct r; [contradiction | reflexivity].
Qed.

Lemma trimEnd_single c :
  isWhiteSpace c = false -> trimEnd (String c EmptyString) = String c EmptyString.
Proof. intros Hc. cbn [trimEnd]. rewrite Hc. reflexivity. Qed.

Lemma trimEnd_app (a b : string) :
  trimEnd b = b -> b <> EmptyString -> trimEnd (a +:+ b) = a +:+ b.
Proof.
  intros Hb Hne. induction a as [| x a IH].
  - rewrite append_nil. assumption.
  - rewrite append_cons. apply trimEnd_cons; [assumption |].
    destruct a; [rewrite append_nil; assumption | discriminate].
Qed.

Lemma split_where_digits ds :
  all_digits ds = true -> split_where isDateSeparator ds = [ds].
Proof.
  induction ds as [| c r IH]; [reflexivity |].
  cbn [all_digits split_where]. intros [Hc Hr]%andb_true_iff.
  destruct (digit_not_special c Hc) as (_ & -> & _). rewrite IH by assumption.
  reflexivity.
Qed.

Lemma split_where_sep ds c rest :
  all_digits ds = true -> isDateSeparator c = true ->
  split_where isDateSeparator (ds +:+ String c rest)
  = ds :: split_where isDateSeparator rest.
Proof.
  intros Hds Hc. induction ds as [| x r IH].
  - rewrite append_nil. cbn [split_where]. rewrite Hc. reflexivity.
  - cbn [all_digits] in Hds. apply andb_true_iff in Hds as [Hx Hr].
    rewrite append_cons. cbn [split_where].
    destruct (digit_not_special x Hx) as (_ & -> & _). rewrite IH by assumption.
    reflexivity.
Qed.

Lemma parseInt10_digits ds :
  all_digits ds = true -> ds <> EmptyString ->
  parseInt10 ds = Some (digits_value 0 ds).
Proof.
  intros Hds Hne. destruct ds as [| c r]; [contradiction |].
  pose proof Hds as Hall. cbn [all_digits] in Hds.
  apply andb_true_iff in Hds as [Hc Hr].
  destruct (digit_not_special c Hc) as (Hw & _ & Hm & Hp).
  unfold parseInt10. cbn [trimStart]. rewrite Hw, Hm, Hp.
  unfold parseInt. rewrite leading_digits_digits by assumption. reflexivity.
Qed.

(** The decimal text of a number below 10000. *)
Lemma Z_toString_text r :
  0 <= r < 10000 ->
  all_digits (Z_toString r) = true /\ digits_value 0 (Z_toString r) = r
  /\ Z_toString r <> EmptyString /\ (String.length (Z_toString r) <= 4)%nat.
Proof.
  intros Hr.
  destruct (Z.ltb_spec r 10); [| destruct (Z.ltb_spec r 100);
                                 [| destruct (Z.ltb_spec r 1000)]].
  - rewrite Z_toString_1 by lia. cbn [all_digits digits_value String.length].
    rewrite !isDigit_digitChar, !digitValue_digitChar by divlia.
    repeat split; try discriminate; lia.
  - rewrite Z_toString_2 by lia. cbn [all_digits digits_value String.length].
    rewrite !isDigit_digitChar, !digitValue_digitChar by divlia.
    repeat split; try discriminate; try lia. divlia.
  - rewrite Z_toString_3 by lia. cbn [all_digits digits_value String.length].
    rewrite !isDigit_digitChar, !digitValue_digitChar by divlia.
    repeat split; try discriminate; try lia. divlia.
  - rewrite Z_toString_4 by lia. cbn [all_digits digits_value String.length].
    rewrite !isDigit_digitChar, !digitValue_digitChar by divlia.
    repeat split; try discriminate; try lia. divlia.
Qed.

Lemma isISOShape_prefix s :
  isISOShape s = true ->
  exists y1 y2 y3 y4 rest,
    s = String y1 (String y2 (String y3 (String y4 (String "-" rest))))
    /\ isDigit y1 = true /\ isDigit y2 = true /\ isDigit y3 = true
    /\ isDigit y4 = true.
Proof.
  intros H.
  do 10 (destruct s as [| ? s]; [discriminate H |]).
  destruct s; [| discriminate H].
  cbn [isISOShape] in H. do 9 (apply andb_true_iff in H as [H ?]).
  match goal with E : Ascii.eqb _ "-" = true |- _ => apply Ascii.eqb_eq in E; subst end.
  match goal with E : Ascii.eqb ?x "-" = true |- _ =>
    apply Ascii.eqb_eq in E; try subst x end.
  eexists _, _, _, _, _. repeat split; eassumption || reflexivity.
Qed.

(** A run of up to four digits followed by a slash is no ISO date. *)
Lemma isISOShape_slash ds t :
  all_digits ds = true -> (String.length ds <= 4)%nat ->
  isISOShape (ds +:+ String "/" t) = false.
Proof.
  intros Hds Hlen. destruct (isISOShape (ds +:+ String "/" t)) eqn:E; [| reflexivity].
  exfalso. apply isISOShape_prefix in E as (y1 & y2 & y3 & y4 & rest & E & H1 & H2 & H3 & H4).
  destruct ds as [| a [| b [| c [| d [| e ds]]]]]; cbn in E, Hlen;
    try lia; injection E; intros; subst; discriminate.
Qed.

Lemma toROCDate_valid tz y m d :
  0 <= tz < msPerDay -> 0 <= y <= 9999 -> ValidDate y m d ->
  toROCDate tz (isoDate y m d)
  = Z_toString (y - 1911) +:+ "/" +:+ padStart 2 (Z_toString m) +:+ "/"
    +:+ padStart 2 (Z_toString d).
Proof.
  intros Htz Hy Hv. pose proof (ValidDate_day _ _ _ Hv) as Hd31.
  unfold toROCDate.
  assert (String.eqb (isoDate y m d) "" = false) as ->.
  { destruct Hv. rewrite isoDate_digits by lia. reflexivity. }
  unfold ofString. rewrite parse_isoDate by assumption.
  destruct (local_fields tz y m d Htz Hv) as (-> & -> & ->).
  cbn [JSNum.sub JSNum.add mbind option_bind Number_toString].
  replace (m - 1 + 1) with m by lia. reflexivity.
Qed.

End LooseDates.

(** X2: a date survives the way out to a spreadsheet and back.  For a
    valid date of the years 1911 to 3821 (era years 0 to 1910), in a zone at
    a fixed offset of 0 to 24 hours east of UTC, [parseROCDate] applied to
    the text that [toROCDate] prints returns the date, whatever the current
    day. *)
Theorem parseROCDate_toROCDate tz today y m d :
  0 <= tz < msPerDay -> 1911 <= y <= 3821 -> ValidDate y m d ->
  parseROCDate today (toROCDate tz (isoDate y m d)) = isoDate y m d.
Proof.
  intros Htz Hy Hv. pose proof (ValidDate_day _ _ _ Hv) as Hd31.
  pose proof Hv as [Hm Hd].
  rewrite toROCDate_valid by (assumption || lia).
  destruct (Z_toString_text (y - 1911) ltac:(lia)) as (Hall & Hval & Hne & Hlen).
  set (R := Z_toString (y - 1911)) in *.
  rewrite !pad2_digits by lia.
  set (m1 := digitChar (m / 10)). set (m2 := digitChar (m mod 10)).
  set (d1 := digitChar (d / 10)). set (d2 := digitChar (d mod 10)).
  assert (isDigit m1 = true /\ isDigit m2 = true /\ isDigit d1 = true
          /\ isDigit d2 = true) as (Hm1 & Hm2 & Hd1 & Hd2)
    by (repeat split; apply isDigit_digitChar; divlia).
  rewrite !append_cons, !append_nil.
  set (text := R +:+ String "/" (String m1 (String m2 (String "/"
                 (String d1 (String d2 EmptyString)))))).
  unfold parseROCDate.
  assert (String.eqb text "" = false) as ->.
  { subst text. destruct R; [contradiction | reflexivity]. }
  assert (trim text = text) as ->.
  { unfold trim.
    assert (trimStart text = text) as ->.
    { subst text. destruct R as [| c R]; [contradiction |].
      cbn [all_digits] in Hall. apply andb_true_iff in Hall as [Hc _].
      destruct (digit_not_special c Hc) as (Hw & _).
      rewrite append_cons. cbn [trimStart]. rewrite Hw. reflexivity. }
    subst text. apply trimEnd_app; [| discriminate].
    do 5 (apply trimEnd_cons; [| discriminate]).
    apply trimEnd_single, (digit_not_special d2 Hd2). }
  subst text. rewrite isISOShape_slash by assumption.
  rewrite split_where_sep by (assumption || reflexivity).
  change (String m1 (String m2 (String "/" (String d1 (String d2 "")))))
    with (String m1 (String m2 "") +:+ String "/" (String d1 (String d2 ""))).
  rewrite split_where_sep
    by (reflexivity || (cbn [all_digits]; rewrite Hm1, Hm2; reflexivity)).
  rewrite split_where_digits by (cbn [all_digits]; rewrite Hd1, Hd2; reflexivity).
  rewrite parseInt10_digits by assumption. rewrite Hval.
  unfold JSNum.lt. destruct (Z.ltb_spec (y - 1911) 1911); [| lia].
  cbn [JSNum.add mbind option_bind Number_toString].
  replace (y - 1911 + 1911) with y by lia.
  rewrite isoDate_digits, Z_toString_4 by lia. reflexivity.
Qed.

Lemma parseROCDate_toROCDate_witness :
  parseROCDate "2026-11-01" (toROCDate TZ_Taipei (isoDate 2025 7 16)) = isoDate 2025 7 16.
Proof.
  apply (parseROCDate_toROCDate TZ_Taipei "2026-11-01" 2025 7 16).
  - vm_compute. split; [discriminate | reflexivity].
  - lia.
  - vm_compute. repeat split; discriminate.
Defined.

(** ** The periods marked by the bulk operation *)

Section BulkPayPeriods.

Variable tz : Z.

Lemma bulkPayStep_eq today inv ms me h ch i :
  bulkPayStep tz today inv ms me (h, ch) i
  = if dueWithin tz inv ms me i && negb (default false (isPaid <$> h !! i))
    then (<[i := bulkRecord today]> h, true) else (h, ch).
Proof.
  unfold bulkPayStep, dueWithin, dueTime, bulkRecord.
  destruct (JSNum.ge _ ms && JSNum.le _ me); destruct (negb _); reflexivity.
Qed.

(** The payment record of period [j] after the loop over the periods [l]. *)
Lemma bulkPay_lookup today inv ms me (l : list Z) :
  forall (h : gmap Z PaymentRecord) (ch : bool) j,
    fst (foldl (bulkPayStep tz today inv ms me) (h, ch) l) !! j
    = if bool_decide (j ∈ l) && dueWithin tz inv ms me j
         && negb (default false (isPaid <$> h !! j))
      then Some (bulkRecord today) else h !! j.
Proof.
  induction l as [| i l IH]; intros h ch j; [reflexivity |].
  cbn [foldl]. rewrite bulkPayStep_eq.
  destruct (Z.eq_dec i j) as [-> | Hne].
  - rewrite (bool_decide_eq_true_2 (j ∈ j :: l)) by left.
    destruct (dueWithin tz inv ms me j && negb (default false (isPaid <$> h !! j))) eqn:E.
    + rewrite IH, lookup_insert_eq. cbn. rewrite andb_false_r. cbn [andb].
      rewrite E. reflexivity.
    + rewrite IH. cbn [andb]. rewrite E.
      destruct (bool_decide (j ∈ l)); cbn [andb]; [rewrite E |]; reflexivity.
  - assert (bool_decide (j ∈ i :: l) = bool_decide (j ∈ l)) as ->.
    { apply bool_decide_ext. rewrite elem_of_cons. intuition congruence. }
    destruct (dueWithin tz inv ms me i && negb (default false (isPaid <$> h !! i))).
    + rewrite IH, lookup_insert_ne by assumption. reflexivity.
    + apply IH.
Qed.

Lemma bulkPay_changed_true today inv ms me (l : list Z) :
  forall (h : gmap Z PaymentRecord),
    snd (foldl (bulkPayStep tz today inv ms me) (h, true) l) = true.
Proof.
  induction l as [| i l IH]; intros h; [reflexivity |].
  cbn [foldl]. rewrite bulkPayStep_eq. destruct (_ && _); apply IH.
Qed.

(** When the loop reports no change, the history is the one it started
    from. *)
Lemma bulkPay_unchanged today inv ms me (l : list Z) :
  forall (h : gmap Z PaymentRecord) ch,
    snd (foldl (bulkPayStep tz today inv ms me) (h, ch) l) = false ->
    fst (foldl (bulkPayStep tz today inv ms me) (h, ch) l) = h.
Proof.
  induction l as [| i l IH]; intros h ch; [reflexivity |].
  cbn [foldl]. rewrite bulkPayStep_eq. destruct (_ && _).
  - rewrite bulkPay_changed_true. discriminate.
  - apply IH.
Qed.

(** A loop over periods that are all paid when due in the window does
    nothing. *)
Lemma bulkPay_noop today inv ms me (l : list Z) (h : gmap Z PaymentRecord) ch :
  (forall j, j ∈ l -> dueWithin tz inv ms me j = true ->
             default false (isPaid <$> h !! j) = true) ->
  foldl (bulkPayStep tz today inv ms me) (h, ch) l = (h, ch).
Proof.
  induction l as [| i l IH]; intros Hpaid; [reflexivity |].
  cbn [foldl]. rewrite bulkPayStep_eq.
  destruct (dueWithin tz inv ms me i) eqn:E.
  - rewrite (Hpaid i) by (assumption || left). cbn [andb negb].
    apply IH. intros j Hj. apply Hpaid. right. assumption.
  - cbn [andb]. apply IH. intros j Hj. apply Hpaid. right. assumption.
Qed.

(** One investment through the operation. *)
Lemma bulkPay_one today monthStr inv :
  let r := foldl (bulkPayStep tz today inv (fst (targetMonth tz monthStr))
                    (snd (targetMonth tz monthStr)))
             (paymentHistory inv, false) (seqZ 1 (duration inv)) in
  let inv' := if snd r then with_paymentHistory inv (fst r) else inv in
  inv' = with_paymentHistory inv (fst r)
  /\ forall j, fst r !! j
       = if bulkMarks tz monthStr inv j then Some (bulkRecord today)
         else paymentHistory inv !! j.
Proof.
  intros r inv'. split.
  - subst inv'. destruct (snd r) eqn:E; [reflexivity |].
    subst r. rewrite bulkPay_unchanged by assumption. destruct inv; reflexivity.
  - intros j. subst r. rewrite bulkPay_lookup. unfold bulkMarks, paidAt.
    assert (bool_decide (j ∈ seqZ 1 (duration inv))
            = (1 <=? j) && (j <=? duration inv)) as ->; [| reflexivity].
    destruct (Z.leb_spec 1 j); destruct (Z.leb_spec j (duration inv)); cbn [andb];
      (apply bool_decide_eq_true_2 || apply bool_decide_eq_false_2);
      rewrite elem_of_seqZ; lia.
Qed.

Lemma handleBulkPay_map today monthStr prev :
  handleBulkPay tz today monthStr prev
  = List.map (fun inv =>
      let r := foldl (bulkPayStep tz today inv (fst (targetMonth tz monthStr))
                        (snd (targetMonth tz monthStr)))
                 (paymentHistory inv, false) (seqZ 1 (duration inv)) in
      if snd r then with_paymentHistory inv (fst r) else inv) prev.
Proof.
  unfold handleBulkPay, targetMonth. cbn [fst snd]. apply List.map_ext.
  intros inv. cbv zeta. destruct (foldl _ _ _). reflexivity.
Qed.

End BulkPayPeriods.

(** X3: what the bulk operation does, period by period.  It returns one
    record for each investment, in the same order and equal to it in all but
    the payment history.  In the history, a period from 1 to the duration
    that falls due within the window of the month and is not yet paid gets
    the record paid, dated today, with the note of the operation; every
    other entry of the history, paid or not, inside or outside the periods
    of the investment, is what it was. *)
Theorem handleBulkPay_periods tz today monthStr prev :
  Forall2 (fun inv inv' =>
             inv' = with_paymentHistory inv (paymentHistory inv')
             /\ forall j, paymentHistory inv' !! j
                  = if bulkMarks tz monthStr inv j then Some (bulkRecord today)
                    else paymentHistory inv !! j)
    prev (handleBulkPay tz today monthStr prev).
Proof.
  rewrite handleBulkPay_map. induction prev as [| inv prev IH]; cbn [List.map];
    constructor; [| exact IH].
  destruct (bulkPay_one tz today monthStr inv) as [H1 H2].
  cbv zeta in H1, H2 |- *. rewrite H1. split; [reflexivity | exact H2].
Qed.

(** X4: the bulk operation is idempotent, also across days: a second pass
    for the same month, run on any later day, returns the result of the
    first pass unchanged, so no payment date of the first pass is
    overwritten. *)
Theorem handleBulkPay_idempotent tz today today' monthStr prev :
  handleBulkPay tz today' monthStr (handleBulkPay tz today monthStr prev)
  = handleBulkPay tz today monthStr prev.
Proof.
  rewrite (handleBulkPay_map tz today'), (handleBulkPay_map tz today).
  rewrite List.map_map. apply List.map_ext. intros inv.
  destruct (bulkPay_one tz today monthStr inv) as [H1 H2].
  cbv zeta in H1, H2 |- *.
  set (ms := fst (targetMonth tz monthStr)) in *.
  set (me := snd (targetMonth tz monthStr)) in *.
  set (r := foldl (bulkPayStep tz today inv ms me) (paymentHistory inv, false)
              (seqZ 1 (duration inv))) in *.
  rewrite H1.
  change (bulkPayStep tz today' (with_paymentHistory inv (fst r)) ms me)
    with (bulkPayStep tz today' inv ms me).
  change (paymentHistory (with_paymentHistory inv (fst r))) with (fst r).
  change (duration (with_paymentHistory inv (fst r))) with (duration inv).
  rewrite bulkPay_noop; [reflexivity |].
  intros j Hj Hw. rewrite H2. unfold bulkMarks.
  apply elem_of_seqZ in Hj.
  destruct (Z.leb_spec 1 j); [| lia]. destruct (Z.leb_spec j (duration inv)); [| lia].
  fold ms me. rewrite Hw. cbn [andb]. unfold paidAt.
  destruct (default false (isPaid <$> paymentHistory inv !! j)) eqn:E;
    cbn [negb]; [exact E | reflexivity].
Qed.

(** ** The window of the bulk operation on the calendar *)

Section BulkWindow.

Lemma monthText_iso Y M :
  1000 <= Y <= 9999 -> 1 <= M <= 12 ->
  (Z_toString Y +:+ "-" +:+ padStart 2 (Z_toString M)) +:+ "-01" = isoDate Y M 1.
Proof.
  intros HY HM. rewrite isoDate_digits by lia.
  rewrite Z_toString_4, pad2_digits by lia.
  rewrite !append_cons, !append_nil, !append_cons, !append_nil. reflexivity.
Qed.

(** The window of a month: from UTC midnight of its first day to local
    midnight of its last day. *)
Lemma targetMonth_valid tz Y M :
  0 <= tz < msPerDay -> 1000 <= Y <= 9999 -> 1 <= M <= 12 ->
  targetMonth tz (Z_toString Y +:+ "-" +:+ padStart 2 (Z_toString M))
  = (Some (MakeDay Y (M - 1) 1 * msPerDay),
     Some ((MakeDay Y (M - 1) 1 - 1 + DaysInMonth Y (M - 1)) * msPerDay - tz)).
Proof.
  intros Htz HY HM. unfold targetMonth.
  assert (ValidDate Y M 1) as Hv.
  { split; [lia |]. pose proof (DaysInMonth_bounds Y (M - 1)). lia. }
  rewrite monthText_iso by assumption. unfold ofString.
  rewrite parse_isoDate by (assumption || lia).
  destruct (local_fields tz Y M 1 Htz Hv) as (-> & -> & _).
  unfold ofFields, JSNum.add. cbn [mbind option_bind].
  destruct (Z.leb_spec Y 99); [lia |]. rewrite andb_false_r.
  replace (M - 1 + 1) with (M - 1 + 1) by lia.
  rewrite MakeDay_succ_month.
  replace ((M - 1) / 12) with 0 by divlia.
  replace ((M - 1) mod 12) with (M - 1) by divlia.
  replace (Y + 0) with Y by lia.
  rewrite (MakeDay_in_year Y (M - 1) 0), (MakeDay_in_year Y (M - 1) 1) by lia.
  unfold UTC, MakeDate, MakeTime.
  pose proof (MakeDay_range Y (M - 1) 1) as Hr.
  rewrite (MakeDay_in_year Y (M - 1) 1) in Hr by lia.
  pose proof (DaysInMonth_bounds Y (M - 1)).
  rewrite TimeClip_ok by (unfold msPerDay in *; lia).
  f_equal; f_equal; unfold msPerDay; lia.
Qed.

Lemma day_in_month Y M Yd Md Dd :
  1 <= M <= 12 -> ValidDate Yd Md Dd ->
  MakeDay Y (M - 1) 1 <= MakeDay Yd (Md - 1) Dd
    <= MakeDay Y (M - 1) 1 - 1 + DaysInMonth Y (M - 1) ->
  Yd = Y /\ Md = M.
Proof.
  intros HM [HMd HDd] Hr.
  assert (0 <= 0 < msPerDay) as Hz by (unfold msPerDay; lia).
  destruct (civil_of_MakeDay Yd (Md - 1) Dd 0 ltac:(lia) HDd Hz) as (H1 & H2 & _).
  set (D' := MakeDay Yd (Md - 1) Dd - MakeDay Y (M - 1) 1 + 1).
  assert (MakeDay Y (M - 1) D' = MakeDay Yd (Md - 1) Dd) as E.
  { subst D'. rewrite (MakeDay_in_year Y (M - 1) 1) by lia.
    rewrite (MakeDay_in_year Y (M - 1)) by lia. lia. }
  destruct (civil_of_MakeDay Y (M - 1) D' 0 ltac:(lia) ltac:(subst D'; lia) Hz)
    as (H3 & H4 & _).
  rewrite E in H3, H4. split; [congruence | lia].
Qed.

Lemma dueWithin_month tz inv y m d i Y M :
  0 <= tz < msPerDay -> startDate inv = isoDate y m d -> 0 <= y <= 9999 ->
  ValidDate y m d -> 0 <= i <= 3000000 -> 1000 <= Y <= 9999 -> 1 <= M <= 12 ->
  let '(Yd, Md, Dd) := rolledDate y m d i in
  let w := targetMonth tz (Z_toString Y +:+ "-" +:+ padStart 2 (Z_toString M)) in
  dueWithin tz inv (fst w) (snd w) i
  = (Yd =? Y) && (Md =? M) && ((tz =? 0) || (Dd <? DaysInMonth Y (M - 1))).
Proof.
  intros Htz Hs Hy Hv Hi HY HM.
  pose proof (rolledDate_spec y m d i Hv) as HR.
  destruct (rolledDate y m d i) as [[Yd Md] Dd]. destruct HR as (HVd & _ & HDD).
  rewrite targetMonth_valid by assumption. cbn [fst snd].
  unfold dueWithin, dueTime. rewrite Hs, setMonth_valid by assumption.
  rewrite <- HDD. unfold JSNum.ge, JSNum.le, MakeDate.
  pose proof (DaysInMonth_bounds Y (M - 1)) as HL.
  destruct HVd as [HMd HDd].
  destruct (Z.eqb_spec Yd Y) as [-> | HneY]; [destruct (Z.eqb_spec Md M) as [-> | HneM] |].
  - rewrite (MakeDay_in_year Y (M - 1) Dd), (MakeDay_in_year Y (M - 1) 1) by lia.
    cbn [andb].
    destruct (Z.eqb_spec tz 0); destruct (Z.ltb_spec Dd (DaysInMonth Y (M - 1)));
      cbn [orb]; unfold msPerDay in *;
      repeat match goal with
             | |- context [?a <=? ?b] => destruct (Z.leb_spec a b)
             end; cbn [andb]; lia || reflexivity.
  - cbn [andb].
    destruct (Z.leb_spec (MakeDay Y (M - 1) 1 * msPerDay)
                (MakeDay Y (Md - 1) Dd * msPerDay + 0)); [| reflexivity].
    destruct (Z.leb_spec (MakeDay Y (Md - 1) Dd * msPerDay + 0)
                ((MakeDay Y (M - 1) 1 - 1 + DaysInMonth Y (M - 1)) * msPerDay - tz));
      [| reflexivity].
    exfalso. apply HneM.
    apply (day_in_month Y M Y Md Dd); [assumption | split; assumption |].
    unfold msPerDay in *. lia.
  - cbn [andb].
    destruct (Z.leb_spec (MakeDay Y (M - 1) 1 * msPerDay)
                (MakeDay Yd (Md - 1) Dd * msPerDay + 0)); [| reflexivity].
    destruct (Z.leb_spec (MakeDay Yd (Md - 1) Dd * msPerDay + 0)
                ((MakeDay Y (M - 1) 1 - 1 + DaysInMonth Y (M - 1)) * msPerDay - tz));
      [| reflexivity].
    exfalso. apply HneY.
    apply (day_in_month Y M Yd Md Dd); [assumption | split; assumption |].
    unfold msPerDay in *. lia.
Qed.

End BulkWindow.

(** X5: which periods the bulk operation pays, on the calendar.  For an
    investment with a valid start date, in a zone at a fixed offset of 0 to
    24 hours east of UTC and for a month given as the report writes it
    (year of four digits, month of two), the operation marks exactly the
    periods 1 to the duration that are not paid and whose due date, the
    start date moved on by that many months with a surplus of days running
    on into the next month, lies in that month; east of UTC a period due on
    the last day of the month is left out, because the month ends at local
    midnight while due dates are UTC midnights.  Every other entry of the
    payment history is kept. *)
Theorem handleBulkPay_calendar tz today inv y m d Y M :
  0 <= tz < msPerDay -> startDate inv = isoDate y m d -> 0 <= y <= 9999 ->
  ValidDate y m d -> duration inv <= 3000000 -> 1000 <= Y <= 9999 -> 1 <= M <= 12 ->
  exists inv',
    handleBulkPay tz today (Z_toString Y +:+ "-" +:+ padStart 2 (Z_toString M)) [inv]
    = [inv']
    /\ inv' = with_paymentHistory inv (paymentHistory inv')
    /\ forall i,
         paymentHistory inv' !! i
         = let '(Yd, Md, Dd) := rolledDate y m d i in
           if (1 <=? i) && (i <=? duration inv) && negb (paidAt inv i)
              && (Yd =? Y) && (Md =? M)
              && ((tz =? 0) || (Dd <? DaysInMonth Y (M - 1)))
           then Some (bulkRecord today) else paymentHistory inv !! i.
Proof.
  intros Htz Hs Hy Hv Hdur HY HM.
  set (monthStr := Z_toString Y +:+ "-" +:+ padStart 2 (Z_toString M)).
  destruct (bulkPay_one tz today monthStr inv) as [H1 H2]. cbv zeta in H1, H2.
  eexists. split; [| split].
  - rewrite handleBulkPay_map. cbn [List.map]. cbv zeta. rewrite H1. reflexivity.
  - reflexivity.
  - intros i. change (paymentHistory (with_paymentHistory inv ?h)) with h.
    rewrite H2. unfold bulkMarks.
    destruct (Z.leb_spec 1 i); [| destruct (rolledDate y m d i) as [[? ?] ?]; reflexivity].
    destruct (Z.leb_spec i (duration inv));
      [| destruct (rolledDate y m d i) as [[? ?] ?]; reflexivity].
    pose proof (dueWithin_month tz inv y m d i Y M Htz Hs Hy Hv ltac:(lia) HY HM) as Hw.
    destruct (rolledDate y m d i) as [[Yd Md] Dd]. cbv zeta in Hw. fold monthStr in Hw.
    rewrite Hw. cbn [andb].
    destruct (negb (paidAt inv i)); cbn [andb];
      [destruct ((Yd =? Y) && (Md =? M) && ((tz =? 0) || (Dd <? DaysInMonth Y (M - 1))))
       | rewrite andb_false_r]; reflexivity.
Qed.

(** In Taipei, the investment that starts on 2025-01-15 with one period has
    this period, due on 2025-02-15, marked by the operation for February. *)
Lemma handleBulkPay_calendar_witness :
  exists inv',
    handleBulkPay TZ_Taipei "2025-07-01" "2025-02" [halfInterest] = [inv']
    /\ paymentHistory inv' !! 1 = Some (mkPaymentRecord true (Some "2025-07-01"%string)
                                          (Some "一鍵入帳"%string))
    /\ paymentHistory inv' !! 2 = None.
Proof.
  destruct (handleBulkPay_calendar TZ_Taipei "2025-07-01" halfInterest 2025 1 15 2025 2)
    as (inv' & E & _ & H).
  - vm_compute. split; [discriminate | reflexivity].
  - reflexivity.
  - lia.
  - vm_compute. repeat split; discriminate.
  - vm_compute. discriminate.
  - lia.
  - lia.
  - exists inv'. split; [exact E |]. rewrite (H 1), (H 2). split; reflexivity.
Defined.

(** ** Totals of the report, continued *)

Section ReportActual.

Variable tz : Z.
Hypothesis tz_range : 0 <= tz < msPerDay.

(** The actual interest of the whole report. *)
Lemma report_actual_total invs :
  List.Forall wfInvestment invs -> List.Forall wholeInterest invs ->
  interestVolume invs < 2 ^ 53 ->
  exists out, getMonthlyReport tz invs = Some out
    /\ (forall it, In it out ->
          interestActual it = Double.ofZ (Double.toZ (interestActual it)))
    /\ total interestActual out
       = sumZ (List.map (fun inv => interestOf inv * paidPeriods inv) invs).
Proof.
  intros Hwf Hw Hv.
  destruct (getMonthlyReport_whole tz tz_range invs Hwf) as (out & E & Hnd & Hk & _ & Hf).
  specialize (Hf Hw Hv).
  exists out. split; [assumption |]. split.
  - intros it Hit. destruct (Hf it Hit) as (_ & _ & a3 & a4). cbv zeta in a3, a4.
    rewrite a4. exact a3.
  - rewrite (total_by_month out invs (wholeActualOf tz))
      by (intros it Hit; apply (Hf it Hit)).
    apply sumZ_map_ext. intros inv Hinv. unfold wholeActualOf.
    rewrite (sumZ_swap (fun k i => keyIs (dueKey tz inv i) k
                                     (if paidAt inv i then interestOf inv else 0))).
    rewrite (sumZ_map_ext _ (fun i => if paidAt inv i then interestOf inv else 0)).
    + apply sumZ_indicator.
    + intros i Hi. apply sumZ_keyIs; [assumption |]. apply Hk. exists inv.
      split; [assumption |]. right. right. apply in_map. assumption.
Qed.

Lemma paidPeriods_range inv : 0 <= paidPeriods inv <= Z.max 0 (duration inv).
Proof.
  unfold paidPeriods.
  pose proof (filter_length_le (paidAt inv) (seqZ 1 (duration inv))) as H.
  rewrite length_seqZ in H. lia.
Qed.

Lemma foldl_map_fun {A B C} (f : C -> B -> C) (g : A -> B) (l : list A) : forall c,
  foldl (fun s x => f s (g x)) c l = foldl f c (List.map g l).
Proof. induction l as [| a l IH]; intros c; [reflexivity | apply IH]. Qed.

(** The collected interest of the statistics, when every paid record
    belongs to a period of its investment. *)
Lemma collected_whole invs :
  List.Forall wfInvestment invs -> List.Forall wholeInterest invs ->
  interestVolume invs < 2 ^ 53 -> List.Forall paidWithinTerm invs ->
  totalCollectedInterest invs
  = Double.ofZ (sumZ (List.map (fun inv => interestOf inv * paidPeriods inv) invs)).
Proof.
  intros Hwf Hw Hv Hp. unfold totalCollectedInterest.
  rewrite (foldl_map_fun Double.add
             (fun inv => Double.mul (monthlyInterest inv) (Double.ofZ (paidCount inv)))).
  change (foldl Double.add Double.zero ?l) with (Double.sum l).
  assert (forall inv, In inv invs ->
            Double.isSafeInteger
              (Double.mul (monthlyInterest inv) (Double.ofZ (paidCount inv))) = true
            /\ Double.toZ (Double.mul (monthlyInterest inv) (Double.ofZ (paidCount inv)))
               = interestOf inv * paidPeriods inv
            /\ Z.abs (interestOf inv * paidPeriods inv)
               <= Z.abs (interestOf inv) * duration inv) as Hm.
  { intros inv Hin.
    destruct (proj1 (List.Forall_forall _ _) Hwf inv Hin) as [_ Hd].
    pose proof (proj1 (List.Forall_forall _ _) Hw inv Hin) as Hwi.
    pose proof (proj1 (List.Forall_forall _ _) Hp inv Hin) as Hpi.
    assert (paidCount inv = paidPeriods inv) as ->.
    { unfold paidCount, paidPeriods. f_equal. symmetry. apply paid_count. exact Hpi. }
    pose proof (paidPeriods_range inv) as Hr.
    assert (Z.abs (interestOf inv * paidPeriods inv)
            <= Z.abs (interestOf inv) * duration inv) as Hle
      by (rewrite Z.abs_mul; nia).
    assert (Z.abs (interestOf inv) * duration inv <= interestVolume invs) as Hvol.
    { apply (sumZ_member_le (fun inv => Z.abs (interestOf inv) * duration inv));
        [| assumption].
      intros x Hx. destruct (proj1 (List.Forall_forall _ _) Hwf x Hx) as [_ Hdx]. nia. }
    destruct (mul_whole (monthlyInterest inv) (paidPeriods inv) Hwi) as [m1 m2];
      [lia | fold (interestOf inv); lia | lia |].
    split; [exact m1 |]. split; [exact m2 | exact Hle]. }
  rewrite sum_whole.
  - f_equal. rewrite List.map_map. apply sumZ_map_ext. intros inv Hin. apply (Hm inv Hin).
  - apply List.Forall_forall. intros x Hx. apply in_map_iff in Hx as (inv & <- & Hin).
    apply (Hm inv Hin).
  - unfold absSum. rewrite List.map_map.
    apply (Z.le_lt_trans _ (interestVolume invs)); [| assumption].
    apply sumZ_map_le. intros inv Hin. destruct (Hm inv Hin) as (_ & -> & Hle). exact Hle.
Qed.

End ReportActual.





(** ** The merge by overwrite and the identifiers of the collection *)

Section MergeOverwrite.

Variable uuid : nat -> string.

Lemma lastWithId_id i l c : lastWithId i l = Some c -> id c = i /\ In c l.
Proof.
  induction l as [| x l IH]; [discriminate |]. cbn [lastWithId].
  destruct (lastWithId i l) as [c' |] eqn:E.
  - intros [= <-]. destruct (IH eq_refl) as [H1 H2]. split; [assumption | right; assumption].
  - destruct (String.eqb_spec (id x) i); [| discriminate].
    intros [= <-]. split; [assumption | left; reflexivity].
Qed.

Lemma lastWithId_None i l : lastWithId i l = None <-> ~ In i (List.map id l).
Proof.
  induction l as [| x l IH]; [cbn; tauto |]. cbn [lastWithId List.map In].
  destruct (lastWithId i l) as [c' |] eqn:E.
  - split; [discriminate |]. intros H. exfalso. apply H. right.
    destruct (lastWithId_id i l c' E) as [<- Hin]. apply in_map. assumption.
  - destruct (String.eqb_spec (id x) i).
    + split; [discriminate | tauto].
    + split; [| reflexivity]. intros _ [H | H]; [contradiction | apply IH in H; auto].
Qed.

Lemma conflictMap_fold (l : list Investment) :
  forall (m : gmap string Investment) i,
    foldl (fun m c => <[id c := c]> m) m l !! i
    = match lastWithId i l with Some c => Some c | None => m !! i end.
Proof.
  induction l as [| x l IH]; intros m i; [reflexivity |].
  cbn [foldl lastWithId]. rewrite IH. destruct (lastWithId i l); [reflexivity |].
  destruct (String.eqb_spec (id x) i) as [<- | Hne].
  - apply lookup_insert_eq.
  - apply lookup_insert_ne. assumption.
Qed.

Lemma lastWithId_filter (q : string -> bool) i l :
  lastWithId i (List.filter (fun c => q (id c)) l)
  = if q i then lastWithId i l else None.
Proof.
  induction l as [| x l IH]; [destruct (q i); reflexivity |].
  cbn [List.filter lastWithId]. destruct (q (id x)) eqn:E.
  - cbn [lastWithId]. rewrite IH. destruct (q i) eqn:Ei.
    + reflexivity.
    + destruct (String.eqb_spec (id x) i) as [<- | _]; [congruence | reflexivity].
  - rewrite IH. destruct (q i) eqn:Ei; [| reflexivity].
    destruct (lastWithId i l); [reflexivity |].
    destruct (String.eqb_spec (id x) i) as [<- | _]; [congruence | reflexivity].
Qed.

(** The lookup in the map of conflicts, for a record of the collection. *)
Lemma overwrite_item incoming prev p :
  In p prev ->
  match conflictMap (List.filter
          (fun i => bool_decide (id i ∈ (list_to_set (List.map id prev) : gset string)))
          incoming) !! id p with
  | Some c => with_order c (order p)
  | None => p
  end
  = match lastWithId (id p) incoming with
    | Some c => with_order c (order p)
    | None => p
    end.
Proof.
  intros Hp. unfold conflictMap. rewrite conflictMap_fold, lookup_empty.
  pose proof (lastWithId_filter
                (fun s => bool_decide (s ∈ (list_to_set (List.map id prev) : gset string)))
                (id p) incoming) as H.
  cbv beta in H. rewrite H. clear H.
  rewrite bool_decide_eq_true_2.
  - destruct (lastWithId (id p) incoming); reflexivity.
  - apply elem_of_list_to_set, list_elem_of_In, in_map. assumption.
Qed.

Lemma maxOrder_overwritten incoming prev :
  maxOrder (List.map (overwritten incoming) prev) = maxOrder prev.
Proof.
  unfold maxOrder. rewrite List.map_map.
  assert (List.map (fun x => default 0 (order (overwritten incoming x))) prev
          = List.map (fun i => default 0 (order i)) prev) as ->; [| reflexivity].
  apply List.map_ext. intros p. unfold overwritten.
  destruct (lastWithId (id p) incoming); reflexivity.
Qed.

Lemma handleImportConfirm_overwrite incoming prev k :
  fst (handleImportConfirm uuid overwrite incoming prev k)
  = List.map (overwritten incoming) prev
    ++ imap (fun idx item =>
               with_order item (Some (maxOrder prev + Z.of_nat idx + 1)))
         (nonConflicting prev incoming).
Proof.
  unfold handleImportConfirm, Gen.ret. cbn [fst].
  assert (List.map (fun item =>
            match conflictMap (List.filter
                    (fun i => bool_decide (id i ∈ (list_to_set (List.map id prev) : gset string)))
                    incoming) !! id item with
            | Some c => with_order c (order item)
            | None => item
            end) prev = List.map (overwritten incoming) prev) as ->.
  { apply List.map_ext_in. intros p Hp. apply overwrite_item. assumption. }
  rewrite maxOrder_overwritten. f_equal.
  unfold nonConflicting, existingIds. f_equal. apply List.filter_ext. intros i.
  f_equal. apply bool_decide_ext. rewrite elem_of_list_to_set. reflexivity.
Qed.

End MergeOverwrite.

Section LedgerIds.

Lemma ids_imap_order (g : nat -> option Z) (l : list Investment) :
  List.map id (imap (fun idx item => with_order item (g idx)) l) = List.map id l.
Proof.
  revert g. induction l as [| x l IH]; intros g; [reflexivity |].
  cbn [imap List.map]. f_equal. apply (IH (fun idx => g (S idx))).
Qed.

Lemma NoDup_map_filter {A B} (f : A -> B) (p : A -> bool) (l : list A) :
  List.NoDup (List.map f l) -> List.NoDup (List.map f (List.filter p l)).
Proof.
  induction l as [| x l IH]; [intros; constructor |].
  cbn [List.map List.filter]. intros [Hx Hnd]%List.NoDup_cons_iff.
  destruct (p x); [| auto]. cbn [List.map]. constructor; [| auto].
  intros Hin. apply Hx. apply in_map_iff in Hin as (y & Hy & Hin).
  apply filter_In in Hin as [Hin _]. apply in_map_iff. eauto.
Qed.

Lemma existsb_id i (l : list Investment) :
  existsb (fun x => String.eqb (id x) i) l = false -> ~ In i (List.map id l).
Proof.
  induction l as [| x l IH]; [intros _ []|].
  cbn [existsb List.map In]. intros [Hx Hl]%orb_false_iff [H | H].
  - apply String.eqb_neq in Hx. contradiction.
  - exact (IH Hl H).
Qed.

Lemma ids_handleAdd_edit inv prev :
  List.map id (List.map (fun item => if String.eqb (id item) (id inv)
                                     then with_order inv (order item) else item) prev)
  = List.map id prev.
Proof.
  rewrite List.map_map. apply List.map_ext. intros item.
  destruct (String.eqb_spec (id item) (id inv)) as [E | _]; [symmetry; exact E | reflexivity].
Qed.

Lemma ids_handleUpdatePayment today i p data prev :
  List.map id (handleUpdatePayment today i p data prev) = List.map id prev.
Proof.
  unfold handleUpdatePayment. rewrite List.map_map. apply List.map_ext. intros inv.
  destruct (String.eqb (id inv) i); reflexivity.
Qed.

Lemma ids_handleBulkPay tz today m prev :
  List.map id (handleBulkPay tz today m prev) = List.map id prev.
Proof.
  rewrite handleBulkPay_map, List.map_map. apply List.map_ext. intros inv.
  cbv zeta. destruct (snd _); reflexivity.
Qed.

Lemma ids_merge uuid s incoming prev k :
  s <> new ->
  List.map id (fst (handleImportConfirm uuid s incoming prev k))
  = List.map id prev ++ List.map id (nonConflicting prev incoming).
Proof.
  intros Hs. destruct s; [| | contradiction].
  - rewrite handleImportConfirm_skip, List.map_app.
    rewrite (ids_imap_order (fun idx => Some (maxOrder prev + Z.of_nat idx + 1))).
    reflexivity.
  - rewrite handleImportConfirm_overwrite, List.map_app.
    rewrite (ids_imap_order (fun idx => Some (maxOrder prev + Z.of_nat idx + 1))).
    f_equal. rewrite List.map_map. apply List.map_ext. intros p. unfold overwritten.
    destruct (lastWithId (id p) incoming) as [c |] eqn:E; [| reflexivity].
    apply lastWithId_id in E as [E _]. exact E.
Qed.

Lemma nonConflicting_fresh prev incoming a :
  In a (List.map id prev) -> ~ In a (List.map id (nonConflicting prev incoming)).
Proof.
  intros Ha Hin. apply in_map_iff in Hin as (x & <- & Hx).
  unfold nonConflicting in Hx. apply filter_In in Hx as [_ Hx].
  apply negb_true_iff, bool_decide_eq_false in Hx. apply Hx.
  apply list_elem_of_In. exact Ha.
Qed.

End LedgerIds.

(** X8: merging with strategy overwrite.  The result has the existing
    records in their places, each with its identifier and its sort order:
    a record whose identifier no incoming record has is kept as it is, and
    one whose identifier occurs in the import takes every other field from
    the last incoming record with that identifier.  After them come the
    incoming records whose identifier no existing record has, the [j]-th
    with the sort order max(existing orders) + 1 + [j]. *)
Theorem overwrite_merge uuid incoming prev k :
  let res := fst (handleImportConfirm uuid overwrite incoming prev k) in
  length res = (length prev + length (nonConflicting prev incoming))%nat
  /\ (forall (j : nat) p, prev !! j = Some p ->
        res !! j = Some (overwritten incoming p)
        /\ id (overwritten incoming p) = id p
        /\ order (overwritten incoming p) = order p
        /\ (~ In (id p) (List.map id incoming) -> overwritten incoming p = p)
        /\ (forall c, lastWithId (id p) incoming = Some c ->
              overwritten incoming p = with_order c (order p)))
  /\ (forall (j : nat) item,
        nonConflicting prev incoming !! j = Some item ->
        res !! (length prev + j)%nat
        = Some (with_order item (Some (maxOrder prev + 1 + Z.of_nat j)))).
Proof.
  cbn zeta. rewrite handleImportConfirm_overwrite.
  split; [| split].
  - rewrite length_app, length_map, length_imap. reflexivity.
  - intros j p Hj. split; [| split; [| split; [| split]]].
    + rewrite lookup_app_l by (rewrite length_map; apply lookup_lt_Some in Hj; exact Hj).
      change (List.map (overwritten incoming) prev) with (overwritten incoming <$> prev).
      rewrite list_lookup_fmap, Hj. reflexivity.
    + unfold overwritten. destruct (lastWithId (id p) incoming) as [c |] eqn:E;
        [| reflexivity]. apply lastWithId_id in E as [E _]. exact E.
    + unfold overwritten. destruct (lastWithId (id p) incoming); reflexivity.
    + intros Hn. apply lastWithId_None in Hn. unfold overwritten. rewrite Hn. reflexivity.
    + intros c Hc. unfold overwritten. rewrite Hc. reflexivity.
  - intros j item Hj. rewrite lookup_app_r by (rewrite length_map; lia).
    rewrite length_map.
    replace (length prev + j - length prev)%nat with j by lia.
    rewrite list_lookup_imap, Hj. cbn. do 3 f_equal. lia.
Qed.

(** X9: identifiers stay unique.  In a collection in which no two records
    share an identifier, this still holds after a record is added (when
    its identifier is not in use) or edited, after a deletion whether
    confirmed or not, and after a merge by skip or overwrite of an import
    without repeated identifiers; an update of a payment and the bulk
    operation leave the list of identifiers as it is. *)
Theorem ids_stay_unique prev :
  List.NoDup (existingIds prev) ->
  (forall editingItem inv,
      is_Some editingItem \/ ~ In (id inv) (existingIds prev) ->
      List.NoDup (existingIds (handleAdd editingItem inv prev)))
  /\ (forall confirmed i, List.NoDup (existingIds (handleDelete confirmed i prev)))
  /\ (forall today i p data,
        existingIds (handleUpdatePayment today i p data prev) = existingIds prev)
  /\ (forall tz today m, existingIds (handleBulkPay tz today m prev) = existingIds prev)
  /\ (forall uuid s incoming k,
        s <> new -> List.NoDup (List.map id incoming) ->
        List.NoDup (existingIds (fst (handleImportConfirm uuid s incoming prev k)))).
Proof.
  intros Hnd. unfold existingIds in *. split; [| split; [| split; [| split]]].
  - intros e inv He. unfold handleAdd.
    destruct (bool_decide (is_Some e) && existsb _ prev) eqn:E.
    + rewrite ids_handleAdd_edit. assumption.
    + rewrite List.map_app. apply List.NoDup_app; [assumption | repeat constructor; intros [] |].
      intros a Ha [<- | []].
      apply andb_false_iff in E as [E | E].
      * apply bool_decide_eq_false in E. destruct He as [He | He]; contradiction.
      * apply existsb_id in E. contradiction.
  - intros c i. unfold handleDelete. destruct c; [| assumption].
    apply NoDup_map_filter. assumption.
  - intros. apply ids_handleUpdatePayment.
  - intros. apply ids_handleBulkPay.
  - intros uuid s incoming k Hs Hinc. rewrite ids_merge by assumption.
    apply List.NoDup_app; [assumption | |].
    + unfold nonConflicting. apply NoDup_map_filter. assumption.
    + intros a Ha. apply nonConflicting_fresh. assumption.
Qed.

Lemma ids_stay_unique_witness :
  (forall editingItem inv,
      is_Some editingItem \/ ~ In (id inv) (existingIds [dueLastOfJune; twoPeriods]) ->
      List.NoDup (existingIds (handleAdd editingItem inv [dueLastOfJune; twoPeriods])))
  /\ (forall confirmed i,
        List.NoDup (existingIds (handleDelete confirmed i [dueLastOfJune; twoPeriods])))
  /\ (forall today i p data,
        existingIds (handleUpdatePayment today i p data [dueLastOfJune; twoPeriods])
        = existingIds [dueLastOfJune; twoPeriods])
  /\ (forall tz today m,
        existingIds (handleBulkPay tz today m [dueLastOfJune; twoPeriods])
        = existingIds [dueLastOfJune; twoPeriods])
  /\ (forall uuid s incoming k,
        s <> new -> List.NoDup (List.map id incoming) ->
        List.NoDup (existingIds
                      (fst (handleImportConfirm uuid s incoming
                              [dueLastOfJune; twoPeriods] k)))).
Proof.
  apply (ids_stay_unique [dueLastOfJune; twoPeriods]).
  repeat constructor; cbn; intros H; decompose [or] H; try discriminate; assumption.
Defined.

(** ** Marking and unmarking a payment *)

Section PaymentToggle.

Lemma handleUpdatePayment_map today i p data prev :
  handleUpdatePayment today i p data prev
  = List.map (fun inv =>
      if String.eqb (id inv) i
      then with_paymentHistory inv
             (<[p := recordAfter today data (currentRecord inv p)]> (paymentHistory inv))
      else inv) prev.
Proof. reflexivity. Qed.

Lemma currentRecord_insert inv p r :
  currentRecord (with_paymentHistory inv (<[p := r]> (paymentHistory inv))) p = r.
Proof.
  unfold currentRecord. change (paymentHistory (with_paymentHistory inv ?h)) with h.
  rewrite lookup_insert_eq. reflexivity.
Qed.

Lemma recordAfter_remark today today' today'' cur :
  today <> EmptyString ->
  recordAfter today'' (mkPaymentUpdate (Some true) None None)
    (recordAfter today' (mkPaymentUpdate (Some false) None None)
       (recordAfter today (mkPaymentUpdate (Some true) None None) cur))
  = recordAfter today (mkPaymentUpdate (Some true) None None) cur.
Proof.
  intros Hne. destruct cur as [ip [d |] n]; unfold recordAfter;
    cbn [u_isPaid u_paidDate u_note paidDate isPaid pr_note falsy];
    rewrite (bool_decide_eq_true_2 (Some true = Some true)) by reflexivity;
    rewrite (bool_decide_eq_false_2 (Some false = Some true)) by discriminate;
    cbn [andb].
  - destruct (String.eqb d "") eqn:Ee;
      cbn [andb u_isPaid u_paidDate u_note paidDate isPaid pr_note falsy].
    + destruct (String.eqb_spec today ""); [contradiction | reflexivity].
    + rewrite Ee. reflexivity.
  - cbn [u_isPaid u_paidDate u_note paidDate isPaid pr_note falsy].
    destruct (String.eqb_spec today ""); [contradiction | reflexivity].
Qed.

(** A second update of the same period of the same investment. *)
Lemma update_again today data i p inv r :
  String.eqb (id inv) i = true ->
  (let inv' := with_paymentHistory inv (<[p := r]> (paymentHistory inv)) in
   if String.eqb (id inv') i
   then with_paymentHistory inv'
          (<[p := recordAfter today data (currentRecord inv' p)]> (paymentHistory inv'))
   else inv')
  = with_paymentHistory inv (<[p := recordAfter today data r]> (paymentHistory inv)).
Proof.
  intros E. cbv zeta.
  change (id (with_paymentHistory inv ?h)) with (id inv). rewrite E.
  rewrite currentRecord_insert.
  change (paymentHistory (with_paymentHistory inv ?h)) with h.
  rewrite insert_insert_eq. reflexivity.
Qed.

End PaymentToggle.

(** X10: the first payment date sticks.  Marking a period of an investment
    paid, unmarking it and marking it again gives the state after the first
    marking, whatever the days of the three operations: unmarking keeps the
    payment date and the note, and marking a period that has a payment date
    does not stamp a new one. *)
Theorem payment_remark today today' today'' i p prev :
  today <> EmptyString ->
  handleSimplePaymentUpdate today'' i p true
    (handleSimplePaymentUpdate today' i p false
       (handleSimplePaymentUpdate today i p true prev))
  = handleSimplePaymentUpdate today i p true prev.
Proof.
  intros Hne. unfold handleSimplePaymentUpdate. rewrite !handleUpdatePayment_map.
  rewrite !List.map_map. apply List.map_ext. intros inv.
  destruct (String.eqb (id inv) i) eqn:E; [| rewrite !E; reflexivity].
  rewrite (update_again _ _ _ _ _ _ E), (update_again _ _ _ _ _ _ E).
  rewrite recordAfter_remark by assumption. reflexivity.
Qed.

Lemma payment_remark_witness :
  handleSimplePaymentUpdate "2025-09-01" "inv-2" 2 true
    (handleSimplePaymentUpdate "2025-08-15" "inv-2" 2 false
       (handleSimplePaymentUpdate "2025-08-01" "inv-2" 2 true [dueLastOfJune; twoPeriods]))
  = handleSimplePaymentUpdate "2025-08-01" "inv-2" 2 true [dueLastOfJune; twoPeriods].
Proof.
  apply (payment_remark "2025-08-01" "2025-08-15" "2025-09-01" "inv-2" 2
           [dueLastOfJune; twoPeriods]).
  discriminate.
Defined.

(** ** Adding and deleting *)

Section AddDelete.

Lemma not_In_existsb i (l : list Investment) :
  ~ In i (List.map id l) -> existsb (fun x => String.eqb (id x) i) l = false.
Proof.
  induction l as [| x l IH]; [reflexivity |]. cbn [List.map In existsb]. intros H.
  rewrite IH by tauto. destruct (String.eqb_spec (id x) i); [tauto | reflexivity].
Qed.

Lemma filter_other_ids i (l : list Investment) :
  ~ In i (List.map id l) -> List.filter (fun x => negb (String.eqb (id x) i)) l = l.
Proof.
  induction l as [| x l IH]; [reflexivity |]. cbn [List.map In List.filter]. intros H.
  rewrite IH by tauto. destruct (String.eqb_spec (id x) i); [tauto | reflexivity].
Qed.

End AddDelete.



(** ** The current period, and a report that throws *)

(** X12: the current period counts calendar months.  For a valid start
    date and a current time that is the day [Y]-[M]-[D] on the local clock,
    in a zone at a fixed offset of 0 to 24 hours east of UTC,
    [calculatePeriodDiff] is the number of months from the month of the
    start to the current month, plus one, and 1 when that is not positive:
    the days of the month play no part, so the period moves on at the first
    of a month and not on the due date. *)
Theorem calculatePeriodDiff_months tz y m d Y M D tw :
  0 <= tz < msPerDay -> 0 <= y <= 9999 -> ValidDate y m d ->
  ValidDate Y M D -> 0 <= tw < msPerDay ->
  calculatePeriodDiff tz (MakeDate (MakeDay Y (M - 1) D) tw - tz) (isoDate y m d)
  = Z.max 1 ((Y - y) * 12 + (M - m) + 1).
Proof.
  intros Htz Hy Hv HV Htw. unfold calculatePeriodDiff, ofString.
  rewrite parse_isoDate by assumption.
  destruct (local_fields tz y m d Htz Hv) as (-> & -> & _).
  destruct HV as [HM HD].
  destruct (civil_of_MakeDay Y (M - 1) D tw ltac:(lia) HD Htw) as (HY & HMo & _).
  unfold getFullYear, getMonth, LocalTime. cbn [mbind option_bind].
  replace (MakeDate (MakeDay Y (M - 1) D) tw - tz + tz)
    with (MakeDate (MakeDay Y (M - 1) D) tw) by lia.
  rewrite HY, HMo. unfold JSNum.sub, JSNum.add. cbn [mbind option_bind].
  destruct (Z.gtb_spec ((Y - y) * 12 - (m - 1) + (M - 1) + 1) 0); lia.
Qed.

Lemma calculatePeriodDiff_months_witness :
  calculatePeriodDiff TZ_Taipei (MakeDate (MakeDay 2025 (3 - 1) 1) 3600000 - TZ_Taipei)
    (isoDate 2025 1 31)
  = Z.max 1 ((2025 - 2025) * 12 + (3 - 1) + 1).
Proof.
  apply (calculatePeriodDiff_months TZ_Taipei 2025 1 31 2025 3 1 3600000).
  - vm_compute. split; [discriminate | reflexivity].
  - lia.
  - vm_compute. repeat split; discriminate.
  - vm_compute. repeat split; discriminate.
  - vm_compute. split; [discriminate | reflexivity].
Defined.

Section ReportThrows.

Variable tz : Z.

Lemma interestStep_invalid inv r i :
  ofString (startDate inv) = None -> interestStep tz inv r i = None.
Proof. intros H. unfold interestStep. rewrite H. reflexivity. Qed.

Lemma forEachM_fails {A S} (f : S -> A -> option S) (l : list A) x :
  (forall s, f s x = None) -> In x l -> forall s, forEachM f l s = None.
Proof.
  intros Hx. induction l as [| a l IH]; intros Hin s; [destruct Hin |].
  cbn [forEachM]. destruct Hin as [-> | Hin].
  - rewrite Hx. reflexivity.
  - destruct (f s a); [apply IH; assumption | reflexivity].
Qed.

Lemma reportInvestment_invalid inv r :
  ofString (startDate inv) = None -> 1 <= duration inv ->
  reportInvestment tz r inv = None.
Proof.
  intros Hs Hd. unfold reportInvestment.
  apply (forEachM_fails _ _ 1).
  - intros s. apply interestStep_invalid. assumption.
  - apply list_elem_of_In, elem_of_seqZ. lia.
Qed.

End ReportThrows.

(** X14: one record with an empty start date and at least one period
    makes the whole monthly report throw ([toISOString] of an Invalid Date
    in the interest loop), wherever the record stands in the collection and
    whatever the other records are; [calculateEndDate] returns the empty
    text for the same record. *)
Theorem getMonthlyReport_invalid_start tz invs inv :
  In inv invs -> startDate inv = EmptyString -> 1 <= duration inv ->
  getMonthlyReport tz invs = None
  /\ calculateEndDate tz (startDate inv) (duration inv) = Some EmptyString.
Proof.
  intros Hin Hs Hd. split; [| rewrite Hs; reflexivity].
  unfold getMonthlyReport.
  rewrite (forEachM_fails (reportInvestment tz) invs inv); [reflexivity | | assumption].
  intros r. apply reportInvestment_invalid; [| assumption]. rewrite Hs. reflexivity.
Qed.

Lemma getMonthlyReport_invalid_start_witness :
  getMonthlyReport TZ_Taipei
    [twoPeriods; plan "inv-3" (Double.ofZ 1000) (Double.ofZ 1) "" "" 6] = None
  /\ calculateEndDate TZ_Taipei "" 6 = Some EmptyString.
Proof.
  apply (getMonthlyReport_invalid_start TZ_Taipei _
           (plan "inv-3" (Double.ofZ 1000) (Double.ofZ 1) "" "" 6)).
  - right. left. reflexivity.
  - reflexivity.
  - cbn. lia.
Defined.

(** ** The ticket of the form *)

Section UniqueTicket.

Lemma byte_inj x y :
  0 <= x < 256 -> 0 <= y < 256 ->
  ascii_of_nat (Z.to_nat x) = ascii_of_nat (Z.to_nat y) -> x = y.
Proof.
  intros Hx Hy E. apply (f_equal nat_of_ascii) in E.
  rewrite !nat_ascii_embedding in E by lia. lia.
Qed.

Lemma fromCharCode_inj a b :
  0 <= a < 65536 -> 0 <= b < 65536 -> fromCharCode a = fromCharCode b -> a = b.
Proof.
  intros Ha Hb. unfold fromCharCode.
  rewrite (Z.mod_small a), (Z.mod_small b) by lia.
  destruct (Z.ltb_spec a 128); destruct (Z.ltb_spec b 128);
    [| destruct (Z.ltb_spec b 2048) | destruct (Z.ltb_spec a 2048) |
     destruct (Z.ltb_spec a 2048); destruct (Z.ltb_spec b 2048)];
    intros E; try discriminate E.
  - injection E as E. apply byte_inj in E; lia.
  - injection E as E1 E2.
    apply byte_inj in E1; [| divlia | divlia].
    apply byte_inj in E2; [| divlia | divlia]. divlia.
  - injection E as E1 E2 E3.
    apply byte_inj in E1; [| divlia | divlia].
    apply byte_inj in E2; [| divlia | divlia].
    apply byte_inj in E3; [| divlia | divlia]. divlia.
Qed.

Lemma fromCharCode_nonempty c : fromCharCode c <> EmptyString.
Proof.
  unfold fromCharCode. destruct (_ <? 128); [discriminate |].
  destruct (_ <? 2048); discriminate.
Qed.

Lemma append_inj_l (base s s' : string) : base +:+ s = base +:+ s' -> s = s'.
Proof.
  induction base as [| c base IH]; [rewrite !append_nil; auto |].
  rewrite !append_cons. intros [= E]. auto.
Qed.

Lemma append_nonempty (base s : string) : base = base +:+ s -> s = EmptyString.
Proof.
  induction base as [| c base IH]; [rewrite append_nil; auto |].
  rewrite append_cons. intros [= E]. auto.
Qed.

Variables (existing : list Investment) (formId : option string) (baseTicket : string).

Let taken := ticketTaken existing formId.
Let cand (j : Z) : string := baseTicket +:+ fromCharCode (65 + j).

Lemma loop_None rounds : forall unique code,
  getUniqueTicket_loop rounds existing formId baseTicket unique code = None ->
  taken unique = true
  /\ forall j, 0 <= j < Z.of_nat rounds ->
       taken (baseTicket +:+ fromCharCode (code + j)) = true.
Proof.
  induction rounds as [| n IH]; intros unique code; cbn [getUniqueTicket_loop];
    fold (taken unique); destruct (taken unique) eqn:E; try discriminate.
  - intros _. split; [reflexivity | lia].
  - intros H. apply IH in H as [H0 H]. split; [reflexivity |].
    intros j Hj. destruct (Z.eq_dec j 0) as [-> | Hne].
    + rewrite Z.add_0_r. exact H0.
    + replace (code + j) with (code + 1 + (j - 1)) by lia. apply H. lia.
Qed.

Lemma loop_Some rounds : forall unique code t,
  getUniqueTicket_loop rounds existing formId baseTicket unique code = Some t ->
  taken t = false
  /\ (t = unique
      \/ taken unique = true
         /\ exists j, 0 <= j < Z.of_nat rounds
              /\ t = baseTicket +:+ fromCharCode (code + j)
              /\ forall j', 0 <= j' < j ->
                   taken (baseTicket +:+ fromCharCode (code + j')) = true).
Proof.
  induction rounds as [| n IH]; intros unique code t; cbn [getUniqueTicket_loop];
    fold (taken unique); destruct (taken unique) eqn:E; try discriminate.
  - intros [= <-]. auto.
  - intros H. apply IH in H as [Ht H]. split; [assumption |]. right.
    split; [reflexivity |]. destruct H as [-> | (H0 & j & Hj & -> & Hb)].
    + exists 0. split; [lia |]. rewrite Z.add_0_r. split; [reflexivity | lia].
    + exists (j + 1). split; [lia |]. split; [f_equal; f_equal; lia |].
      intros j' Hj'. destruct (Z.eq_dec j' 0) as [-> | Hne].
      * rewrite Z.add_0_r. exact H0.
      * replace (code + j') with (code + 1 + (j' - 1)) by lia. apply Hb. lia.
  - intros [= <-]. auto.
Qed.

Lemma taken_In u : taken u = true -> In (Some u) (List.map ticketNumber existing).
Proof.
  unfold taken, ticketTaken. intros H. apply existsb_exists in H as (i & Hi & H).
  apply andb_true_iff in H as [H _]. apply in_map_iff. exists i. split; [| assumption].
  destruct (ticketNumber i) as [t |]; [| discriminate].
  apply String.eqb_eq in H. congruence.
Qed.

(** The base ticket and its first [n] suffixed forms are different
    tickets, so when all of them are taken there are more than [n]
    records. *)
Lemma taken_count (n : nat) :
  (Z.of_nat n <= 65471) ->
  taken baseTicket = true ->
  (forall j, 0 <= j < Z.of_nat n -> taken (cand j) = true) ->
  (n + 1 <= length existing)%nat.
Proof.
  intros Hn H0 Hall.
  set (L := Some baseTicket :: List.map (fun j => Some (cand (Z.of_nat j))) (seq 0 n)).
  assert (length L = (n + 1)%nat) as HL
    by (subst L; cbn [length]; rewrite length_map, length_seq; lia).
  rewrite <- HL, <- (length_map ticketNumber existing).
  apply NoDup_incl_length.
  - subst L. constructor.
    + intros Hin. apply in_map_iff in Hin as (j & E & _). injection E as E.
      symmetry in E. apply append_nonempty in E. exact (fromCharCode_nonempty _ E).
    + apply Finite.Injective_map_NoDup_in; [| apply seq_NoDup].
      intros a b Ha Hb E. apply in_seq in Ha, Hb. injection E as E.
      apply append_inj_l, fromCharCode_inj in E; lia.
  - intros x [<- | Hx]; [apply taken_In; assumption |].
    apply in_map_iff in Hx as (j & <- & Hj). apply in_seq in Hj.
    apply taken_In, Hall. lia.
Qed.

End UniqueTicket.

(** X15: the search for a free ticket ends and finds the first free one.
    For a collection of up to 55231 records (so that the letters stay below
    the surrogate code units) and at least as many rounds as there are
    records, the loop of [getUniqueTicket] returns a ticket that no other
    record has: the base ticket when it is free, otherwise the base ticket
    followed by one letter, the first from [A] on (in the order of the
    character codes) whose ticket is free; the letter replaces the previous
    one, and it is found among the first as many letters as there are
    records. *)
Theorem getUniqueTicket_free (rounds : nat) existing formId baseTicket :
  (length existing <= rounds)%nat -> Z.of_nat rounds <= 55231 ->
  exists t,
    getUniqueTicket rounds existing formId baseTicket = Some t
    /\ ticketTaken existing formId t = false
    /\ (t = baseTicket
        \/ ticketTaken existing formId baseTicket = true
           /\ exists j, 0 <= j < Z.of_nat (length existing)
                /\ t = baseTicket +:+ fromCharCode (65 + j)
                /\ forall j', 0 <= j' < j ->
                     ticketTaken existing formId
                       (baseTicket +:+ fromCharCode (65 + j')) = true).
Proof.
  intros Hlen Hmax. unfold getUniqueTicket.
  destruct (getUniqueTicket_loop rounds existing formId baseTicket baseTicket 65)
    as [t |] eqn:E.
  - exists t. split; [reflexivity |].
    apply loop_Some in E as [Ht H]. split; [assumption |].
    destruct H as [-> | (H0 & j & Hj & -> & Hb)]; [left; reflexivity | right].
    split; [assumption |]. exists j. split; [| split; [reflexivity | assumption]].
    pose proof (taken_count existing formId baseTicket (Z.to_nat j) ltac:(lia) H0) as Hc.
    rewrite Z2Nat.id in Hc by lia. specialize (Hc Hb). lia.
  - exfalso. apply loop_None in E as [H0 Hall].
    pose proof (taken_count existing formId baseTicket rounds ltac:(lia) H0 Hall). lia.
Qed.

Lemma getUniqueTicket_free_witness :
  exists t,
    getUniqueTicket 5
      [with_ticketNumber dueLastOfJune (Some "T"); with_ticketNumber twoPeriods (Some "TA")]
      None "T" = Some t
    /\ ticketTaken
         [with_ticketNumber dueLastOfJune (Some "T"); with_ticketNumber twoPeriods (Some "TA")]
         None t = false
    /\ (t = "T"%string
        \/ ticketTaken
             [with_ticketNumber dueLastOfJune (Some "T");
              with_ticketNumber twoPeriods (Some "TA")] None "T" = true
           /\ exists j, 0 <= j < Z.of_nat (length
                  [with_ticketNumber dueLastOfJune (Some "T");
                   with_ticketNumber twoPeriods (Some "TA")])
                /\ t = "T" +:+ fromCharCode (65 + j)
                /\ forall j', 0 <= j' < j ->
                     ticketTaken
                       [with_ticketNumber dueLastOfJune (Some "T");
                        with_ticketNumber twoPeriods (Some "TA")] None
                       ("T" +:+ fromCharCode (65 + j')) = true).
Proof.
  apply (getUniqueTicket_free 5
           [with_ticketNumber dueLastOfJune (Some "T");
            with_ticketNumber twoPeriods (Some "TA")] None "T").
  - cbn. lia.
  - lia.
Defined.

(** ** The order of the report *)

Section ReportOrder.

Lemma ascii_compare_N (a b : ascii) :
  Ascii.compare a b = N.compare (N_of_ascii a) (N_of_ascii b).
Proof. reflexivity. Qed.

Lemma leb_trans (a b c : string) :
  String.leb a b = true -> String.leb b c = true -> String.leb a c = true.
Proof.
  unfold String.leb. revert b c.
  induction a as [| x a IH]; intros [| y b] [| z c]; cbn [String.compare];
    try (intros; reflexivity || discriminate).
  rewrite !ascii_compare_N.
  destruct (N.compare_spec (N_of_ascii x) (N_of_ascii y));
    destruct (N.compare_spec (N_of_ascii y) (N_of_ascii z));
    destruct (N.compare_spec (N_of_ascii x) (N_of_ascii z));
    try (intros; reflexivity || discriminate || lia).
  apply IH.
Qed.

Lemma insert_by_In {A} (le : A -> A -> bool) x (l : list A) y :
  In y (insert_by le x l) -> y = x \/ In y l.
Proof.
  induction l as [| a l IH]; cbn [insert_by].
  - intros [<- | []]. left. reflexivity.
  - destruct (le x a).
    + intros [<- | H]; [left; reflexivity | right; assumption].
    + intros [<- | H]; [right; left; reflexivity |].
      destruct (IH H) as [-> | H']; [left; reflexivity | right; right; assumption].
Qed.

Lemma sort_by_sorted {A} (le : A -> A -> bool) (l : list A) :
  (forall a b, le a b = true \/ le b a = true) ->
  (forall a b c, le a b = true -> le b c = true -> le a c = true) ->
  StronglySorted (fun a b => le a b = true) (sort_by le l).
Proof.
  intros Htot Htr. unfold sort_by.
  induction l as [| x l IH]; cbn [foldr]; [constructor |].
  induction IH as [| a s Hs IHs Ha]; cbn [insert_by]; [repeat constructor |].
  destruct (le x a) eqn:E.
  - constructor; [constructor; assumption |].
    constructor; [assumption |].
    apply List.Forall_forall. intros y Hy.
    apply (Htr x a y E). apply (proj1 (List.Forall_forall _ _) Ha). assumption.
  - constructor; [assumption |].
    apply List.Forall_forall. intros y Hy. apply insert_by_In in Hy as [-> | Hy].
    + destruct (Htot a x) as [H | H]; [assumption | congruence].
    + apply (proj1 (List.Forall_forall _ _) Ha). assumption.
Qed.

Lemma sorted_strict (out : list MonthlyReportItem) :
  StronglySorted (fun a b => localeCompare_le (monthStr a) (monthStr b) = true) out ->
  List.NoDup (keysOf out) -> StronglySorted keyBefore out.
Proof.
  induction 1 as [| a l Hs IH Ha]; intros Hnd; [constructor |].
  cbn in Hnd. apply List.NoDup_cons_iff in Hnd as [Hin Hnd].
  constructor; [auto |].
  apply List.Forall_forall. intros y Hy. split.
  - apply (proj1 (List.Forall_forall _ _) Ha). assumption.
  - intros E. apply Hin. rewrite E. apply in_map. assumption.
Qed.

Lemma N_of_digitChar k : 0 <= k < 10 -> N_of_ascii (digitChar k) = Z.to_N (48 + k).
Proof.
  intros Hk. unfold digitChar.
  rewrite <- (N_ascii_embedding (Z.to_N (48 + k))) by lia.
  f_equal. unfold ascii_of_nat. f_equal. lia.
Qed.

Lemma compare_digit a b s t :
  0 <= a < 10 -> 0 <= b < 10 ->
  String.compare (String (digitChar a) s) (String (digitChar b) t)
  = match a ?= b with Eq => String.compare s t | r => r end.
Proof.
  intros Ha Hb. cbn [String.compare]. rewrite ascii_compare_N, !N_of_digitChar by lia.
  destruct (Z.compare_spec a b); destruct (N.compare_spec (Z.to_N (48 + a)) (Z.to_N (48 + b)));
    lia || reflexivity.
Qed.

(** On the keys of the years 1000 to 9999 the order of the texts is the
    order of the months. *)
Lemma monthText_order Y1 M1 Y2 M2 :
  1000 <= Y1 <= 9999 -> 1 <= M1 <= 12 -> 1000 <= Y2 <= 9999 -> 1 <= M2 <= 12 ->
  String.leb (monthText Y1 M1) (monthText Y2 M2) = true ->
  Y1 * 12 + M1 <= Y2 * 12 + M2.
Proof.
  intros HY1 HM1 HY2 HM2. unfold monthText, String.leb.
  rewrite !pad2_digits, (Z_toString_4 Y1), (Z_toString_4 Y2) by lia.
  rewrite !append_cons, !append_nil.
  rewrite !compare_digit by divlia.
  change (String.compare (String "-" ?s) (String "-" ?t)) with (String.compare s t).
  rewrite !compare_digit by divlia.
  change (String.compare "" "") with Eq.
  destruct (Z.compare_spec (Y1 / 1000) (Y2 / 1000)); try discriminate; [| divlia].
  destruct (Z.compare_spec (Y1 / 100 mod 10) (Y2 / 100 mod 10)); try discriminate; [| divlia].
  destruct (Z.compare_spec (Y1 / 10 mod 10) (Y2 / 10 mod 10)); try discriminate; [| divlia].
  destruct (Z.compare_spec (Y1 mod 10) (Y2 mod 10)); try discriminate; [| divlia].
  destruct (Z.compare_spec (M1 / 10) (M2 / 10)); try discriminate; [| divlia].
  destruct (Z.compare_spec (M1 mod 10) (M2 mod 10)); try discriminate; divlia.
Qed.

End ReportOrder.



(** ** The maturity ladder *)

Section ObjectStore.

Context {V : Type}.

Lemma obj_get_None key (o : list (string * V)) :
  obj_get key o = None <-> ~ In key (List.map fst o).
Proof.
  unfold obj_get. induction o as [| [k v] o IH]; cbn [List.find List.map In fst].
  - cbn. tauto.
  - destruct (String.eqb_spec k key) as [-> | Hne]; cbn.
    + split; [discriminate | tauto].
    + rewrite IH. tauto.
Qed.

Lemma obj_set_fresh key v (o : list (string * V)) :
  ~ In key (List.map fst o) -> obj_set key v o = o ++ [(key, v)].
Proof.
  induction o as [| [k x] o IH]; cbn [obj_set List.map In fst app]; [reflexivity |].
  intros H. destruct (String.eqb_spec k key); [tauto |]. rewrite IH by tauto. reflexivity.
Qed.

(** A store built by assigning to keys that are all different. *)
Lemma obj_set_all (v : V) (ks : list string) : forall (o : list (string * V)),
  List.NoDup (List.map fst o ++ ks) ->
  foldl (fun o k => obj_set k v o) o ks = o ++ List.map (fun k => (k, v)) ks.
Proof.
  induction ks as [| k ks IH]; intros o Hnd; cbn [foldl List.map].
  - symmetry. apply app_nil_r.
  - rewrite obj_set_fresh.
    + rewrite IH.
      * rewrite <- app_assoc. reflexivity.
      * rewrite List.map_app. cbn [List.map fst]. rewrite <- app_assoc. exact Hnd.
    + apply NoDup_remove_2 in Hnd. intros H. apply Hnd. apply in_or_app. left. exact H.
Qed.

(** An update of the value under a key of a store without repeated keys. *)
Lemma obj_update key (f : V -> V) (o : list (string * V)) :
  List.NoDup (List.map fst o) ->
  match obj_get key o with
  | Some v => obj_set key (f v) o
  | None => o
  end
  = List.map (fun kv => (fst kv, if String.eqb (fst kv) key then f (snd kv) else snd kv)) o.
Proof.
  induction o as [| [k x] o IH]; intros Hnd; [reflexivity |].
  cbn [List.map fst] in Hnd. apply List.NoDup_cons_iff in Hnd as [Hk Hnd].
  unfold obj_get in *. cbn [List.find obj_set List.map fst snd].
  destruct (String.eqb_spec k key) as [-> | Hne]; cbn [fmap option_fmap option_map snd fst].
  - f_equal.
    transitivity (List.map (fun kv : string * V => kv) o); [symmetry; apply List.map_id |].
    apply List.map_ext_in. intros [k' x'] Hin. cbn [fst snd].
    destruct (String.eqb_spec k' key) as [-> | _]; [| reflexivity].
    exfalso. apply Hk. apply (in_map fst) in Hin. exact Hin.
  - specialize (IH Hnd).
    destruct (List.find (fun kv => String.eqb (fst kv) key) o) as [[k' x'] |];
      cbn [fmap option_fmap option_map snd] in IH |- *.
    + rewrite IH. reflexivity.
    + rewrite <- IH. reflexivity.
Qed.

End ObjectStore.

Section LadderMonths.

Lemma monthsAfter_index Y M i :
  let '(Yi, Mi) := monthsAfter Y M i in
  Yi * 12 + Mi = Y * 12 + M + i /\ 1 <= Mi <= 12.
Proof. unfold monthsAfter. divlia. Qed.

(** The local clock at the time of the call. *)
Lemma now_fields tz Y M D tw :
  ValidDate Y M D -> 0 <= tw < msPerDay ->
  let today := Some (MakeDate (MakeDay Y (M - 1) D) tw - tz) in
  getFullYear tz today = Some Y /\ getMonth tz today = Some (M - 1).
Proof.
  intros [HM HD] Htw. cbv zeta. unfold getFullYear, getMonth, LocalTime.
  cbn [mbind option_bind].
  replace (MakeDate (MakeDay Y (M - 1) D) tw - tz + tz)
    with (MakeDate (MakeDay Y (M - 1) D) tw) by lia.
  destruct (civil_of_MakeDay Y (M - 1) D tw ltac:(lia) HD Htw) as (-> & -> & _).
  split; reflexivity.
Qed.

(** The first day of the month [i] months from month [M] of year [Y], as
    [new Date(Y, M - 1 + i, 1)] gives it, and its key. *)
Lemma month_first tz Y M i :
  0 <= tz < msPerDay -> 100 <= Y <= 9999 -> 1 <= M <= 12 ->
  1000 <= fst (monthsAfter Y M i) <= 9999 ->
  let d := ofFields tz (Some Y) (JSNum.add (Some (M - 1)) (Some i)) (Some 1) in
  d = Some (MakeDate (MakeDay (fst (monthsAfter Y M i)) (snd (monthsAfter Y M i) - 1) 1) 0
            - tz)
  /\ getFullYear tz d = Some (fst (monthsAfter Y M i))
  /\ getMonth tz d = Some (snd (monthsAfter Y M i) - 1)
  /\ monthKey tz d = monthText (fst (monthsAfter Y M i)) (snd (monthsAfter Y M i)).
Proof.
  intros Htz HY HM HYi. unfold monthsAfter in *. cbn [fst snd] in *.
  set (Yi := Y + (M - 1 + i) / 12) in *. set (mi := (M - 1 + i) mod 12).
  assert (0 <= mi <= 11) as Hmi by (subst mi; divlia).
  replace (mi + 1 - 1) with mi by lia.
  assert (ofFields tz (Some Y) (JSNum.add (Some (M - 1)) (Some i)) (Some 1)
          = Some (MakeDate (MakeDay Yi mi 1) 0 - tz)) as E.
  { unfold ofFields, JSNum.add. cbn [mbind option_bind].
    destruct (Z.leb_spec Y 99); [lia |]. rewrite andb_false_r.
    rewrite MakeDay_norm. fold Yi mi. unfold UTC, MakeTime.
    apply TimeClip_ok. pose proof (MakeDay_range Yi mi 1).
    unfold MakeDate, msPerDay, msPerHour, msPerMinute, msPerSecond in *. lia. }
  cbv zeta. rewrite E. split; [reflexivity |].
  assert (1 <= 1 <= DaysInMonth Yi mi) as Hd
    by (pose proof (DaysInMonth_bounds Yi mi Hmi); lia).
  assert (0 <= 0 < msPerDay) as Hz by (unfold msPerDay; lia).
  destruct (civil_of_MakeDay Yi mi 1 0 Hmi Hd Hz) as (HYr & HMo & _).
  assert (getFullYear tz (Some (MakeDate (MakeDay Yi mi 1) 0 - tz)) = Some Yi) as EY.
  { unfold getFullYear, LocalTime. cbn [mbind option_bind].
    replace (MakeDate (MakeDay Yi mi 1) 0 - tz + tz) with (MakeDate (MakeDay Yi mi 1) 0) by lia.
    rewrite HYr. reflexivity. }
  assert (getMonth tz (Some (MakeDate (MakeDay Yi mi 1) 0 - tz)) = Some mi) as EM.
  { unfold getMonth, LocalTime. cbn [mbind option_bind].
    replace (MakeDate (MakeDay Yi mi 1) 0 - tz + tz) with (MakeDate (MakeDay Yi mi 1) 0) by lia.
    rewrite HMo. reflexivity. }
  split; [assumption |]. split; [assumption |].
  unfold monthKey, monthText. rewrite EY, EM. reflexivity.
Qed.

Lemma leb_refl (s : string) : String.leb s s = true.
Proof. destruct (String.leb_total s s); assumption. Qed.

(** Keys of consecutive months are in ascending order and all different. *)
Lemma monthText_lt Y1 M1 Y2 M2 :
  1000 <= Y1 <= 9999 -> 1 <= M1 <= 12 -> 1000 <= Y2 <= 9999 -> 1 <= M2 <= 12 ->
  Y1 * 12 + M1 < Y2 * 12 + M2 ->
  String.leb (monthText Y1 M1) (monthText Y2 M2) = true
  /\ monthText Y1 M1 <> monthText Y2 M2.
Proof.
  intros HY1 HM1 HY2 HM2 Hlt. split.
  - destruct (String.leb_total (monthText Y1 M1) (monthText Y2 M2)) as [H | H];
      [assumption |].
    apply monthText_order in H; try assumption. lia.
  - intros E.
    pose proof (monthText_order Y2 M2 Y1 M1 HY2 HM2 HY1 HM1) as H.
    rewrite E in H. specialize (H (leb_refl _)). lia.
Qed.

Lemma sort_by_sorted_id {A} (le : A -> A -> bool) (l : list A) :
  StronglySorted (fun a b => le a b = true) l -> sort_by le l = l.
Proof.
  unfold sort_by. induction 1 as [| a l Hs IH Ha]; [reflexivity |].
  cbn [foldr]. rewrite IH. destruct l as [| b r]; [reflexivity |].
  cbn [insert_by]. apply List.Forall_inv in Ha. rewrite Ha. reflexivity.
Qed.

Lemma split_digits ds : all_digits ds = true -> split "-" ds = [ds].
Proof.
  induction ds as [| c r IH]; [reflexivity |]. cbn [all_digits split].
  intros [Hc Hr]%andb_true_iff.
  destruct (digit_not_special c Hc) as (_ & _ & -> & _). rewrite IH by assumption.
  reflexivity.
Qed.

Lemma split_digits_sep ds rest :
  all_digits ds = true -> split "-" (ds +:+ String "-" rest) = ds :: split "-" rest.
Proof.
  induction ds as [| c r IH]; intros H.
  - rewrite append_nil. reflexivity.
  - cbn [all_digits] in H. apply andb_true_iff in H as [Hc Hr].
    rewrite append_cons. cbn [split].
    destruct (digit_not_special c Hc) as (_ & _ & -> & _). rewrite IH by assumption.
    reflexivity.
Qed.

Lemma split_monthText Y M :
  0 <= Y <= 9999 -> 1 <= M <= 12 ->
  split "-" (monthText Y M) = [Z_toString Y; padStart 2 (Z_toString M)]
  /\ parseInt (Z_toString Y) = Some Y.
Proof.
  intros HY HM. destruct (Z_toString_text Y ltac:(lia)) as (Hall & Hval & Hne & _).
  split.
  - unfold monthText. change ("-" +:+ ?s) with (String "-" s).
    rewrite split_digits_sep by assumption. rewrite split_digits; [reflexivity |].
    rewrite pad2_digits by lia. cbn [all_digits].
    rewrite !isDigit_digitChar by divlia. reflexivity.
  - unfold parseInt. rewrite leading_digits_digits by assumption.
    destruct (Z_toString Y); [contradiction | rewrite Hval; reflexivity].
Qed.

End LadderMonths.

Section LadderFold.

Variable tz : Z.

Lemma seqZ_sorted {A} (R : A -> A -> Prop) (g : Z -> A) (n : nat) : forall a,
  (forall i j, a <= i -> i < j -> j < a + Z.of_nat n -> R (g i) (g j)) ->
  StronglySorted R (List.map g (seqZ a (Z.of_nat n))).
Proof.
  induction n as [| n IH]; intros a HR; [constructor |].
  rewrite seqZ_cons by lia. cbn [List.map].
  replace (Z.pred (Z.of_nat (S n))) with (Z.of_nat n) by lia.
  constructor.
  - apply IH. intros i j Hi Hij Hj. apply HR; lia.
  - apply List.Forall_forall. intros x Hx. apply in_map_iff in Hx as (j & <- & Hj).
    apply list_elem_of_In, elem_of_seqZ in Hj. apply HR; lia.
Qed.

Lemma foldl_keys {V} (g : Z -> string) (v : V) (l : list Z) : forall o,
  foldl (fun o i => obj_set (g i) v o) o l
  = foldl (fun o k => obj_set k v o) o (List.map g l).
Proof. induction l as [| i l IH]; intros o; [reflexivity | apply IH]. Qed.

Lemma ladderAdd_map (l : list (string * Double.t)) inv :
  List.NoDup (List.map fst l) ->
  ladderAdd tz l inv
  = List.map (fun kv => (fst kv, Double.sumFrom (snd kv) (maturingIn tz inv (fst kv)))) l.
Proof.
  intros Hnd. unfold ladderAdd, maturingIn, maturing, endKey.
  pose proof (obj_update (monthKey tz (ofString (endDate inv)))
                (fun v => Double.add v (amount inv)) l Hnd) as Hu.
  assert (l = List.map (fun kv : string * Double.t =>
                          (fst kv, Double.sumFrom (snd kv) [])) l) as Hid.
  { transitivity (List.map (fun kv : string * Double.t => kv) l);
      [symmetry; apply List.map_id |].
    apply List.map_ext. intros [k v]. reflexivity. }
  destruct (status inv); cbn [andb]; try exact Hid.
  - rewrite Hu. apply List.map_ext. intros [k v]. cbn [fst snd].
    rewrite (String.eqb_sym k). destruct (String.eqb _ k); reflexivity.
  - rewrite Hu. apply List.map_ext. intros [k v]. cbn [fst snd].
    rewrite (String.eqb_sym k). destruct (String.eqb _ k); reflexivity.
Qed.

Lemma ladder_fold invs : forall (l : list (string * Double.t)),
  List.NoDup (List.map fst l) ->
  foldl (ladderAdd tz) l invs
  = List.map (fun kv => (fst kv,
                Double.sumFrom (snd kv)
                  (flat_map (fun inv => maturingIn tz inv (fst kv)) invs))) l.
Proof.
  induction invs as [| inv invs IH]; intros l Hnd.
  - cbn. transitivity (List.map (fun kv : string * Double.t => kv) l);
      [symmetry; apply List.map_id |].
    apply List.map_ext. intros [k v]. reflexivity.
  - cbn [foldl]. rewrite ladderAdd_map by assumption. rewrite IH.
    + rewrite List.map_map. apply List.map_ext. intros [k v]. cbn [fst snd flat_map].
      f_equal. unfold Double.sumFrom. rewrite foldl_app. reflexivity.
    + rewrite List.map_map. cbn [fst]. exact Hnd.
Qed.

Lemma flat_map_if {A B} (p : A -> bool) (g : A -> B) (l : list A) :
  flat_map (fun a => if p a then [g a] else []) l = List.map g (List.filter p l).
Proof.
  induction l as [| a l IH]; [reflexivity |]. cbn [flat_map List.filter].
  destruct (p a); cbn [app List.map]; rewrite IH; reflexivity.
Qed.

End LadderFold.

Section LadderProof.

Variables (tz Y M D tw : Z).
Hypothesis tz_range : 0 <= tz < msPerDay.
Hypothesis Y_range : 1001 <= Y <= 9998.
Hypothesis today_valid : ValidDate Y M D.
Hypothesis tw_range : 0 <= tw < msPerDay.

Lemma monthsAfter_range i :
  -12 <= i <= 12 ->
  1000 <= fst (monthsAfter Y M i) <= 9999 /\ 1 <= snd (monthsAfter Y M i) <= 12.
Proof.
  intros Hi. destruct today_valid as [HM _]. unfold monthsAfter. cbn [fst snd]. divlia.
Qed.

Lemma monthKeyAt_lt i j :
  -12 <= i -> i < j -> j <= 12 ->
  String.leb (monthKeyAt Y M i) (monthKeyAt Y M j) = true /\ monthKeyAt Y M i <> monthKeyAt Y M j.
Proof.
  intros Hi Hij Hj. unfold monthKeyAt.
  destruct (monthsAfter_range i ltac:(lia)) as [H1 H2].
  destruct (monthsAfter_range j ltac:(lia)) as [H3 H4].
  apply monthText_lt; try assumption.
  pose proof (monthsAfter_index Y M i) as Ii. pose proof (monthsAfter_index Y M j) as Ij.
  destruct (monthsAfter Y M i), (monthsAfter Y M j). cbn [fst snd]. lia.
Qed.

Lemma keys_NoDup a (n : nat) :
  -12 <= a -> a + Z.of_nat n <= 13 ->
  List.NoDup (List.map (monthKeyAt Y M) (seqZ a (Z.of_nat n))).
Proof.
  intros Ha Hn. apply Finite.Injective_map_NoDup_in; [| apply NoDup_ListNoDup, NoDup_seqZ].
  intros i j Hi Hj E. apply list_elem_of_In, elem_of_seqZ in Hi, Hj.
  destruct (Z.lt_trichotomy i j) as [H | [H | H]]; [| assumption |].
  - destruct (monthKeyAt_lt i j) as [_ Hne]; [lia .. |]. contradiction.
  - destruct (monthKeyAt_lt j i) as [_ Hne]; [lia .. |]. symmetry in E. contradiction.
Qed.

Lemma ladderMonths_keys :
  ladderMonths tz (MakeDate (MakeDay Y (M - 1) D) tw - tz)
  = List.map (fun i => (monthKeyAt Y M i, Double.zero)) (seqZ 0 12).
Proof.
  unfold ladderMonths. cbv zeta.
  destruct (now_fields tz Y M D tw today_valid tw_range) as [-> ->].
  rewrite (foldl_keys (fun i => monthKey tz (ofFields tz (Some Y)
                                   (JSNum.add (Some (M - 1)) (Some i)) (Some 1)))
             Double.zero).
  assert (List.map (fun i => monthKey tz (ofFields tz (Some Y)
                               (JSNum.add (Some (M - 1)) (Some i)) (Some 1))) (seqZ 0 12)
          = List.map (monthKeyAt Y M) (seqZ 0 12)) as ->.
  { apply List.map_ext_in. intros i Hi. apply list_elem_of_In, elem_of_seqZ in Hi.
    destruct today_valid as [HM _].
    destruct (monthsAfter_range i ltac:(lia)) as [H1 _].
    apply (month_first tz Y M i tz_range ltac:(lia) HM H1). }
  rewrite obj_set_all.
  - cbn [app]. rewrite List.map_map. reflexivity.
  - cbn [List.map app]. apply (keys_NoDup 0 12); lia.
Qed.

End LadderProof.

(** X17: the maturity ladder.  At a time that reads [Y]-[M]-[D] on the
    local clock (years 1001 to 9998, zone at a fixed offset of 0 to 24 hours
    east of UTC) the ladder has twelve entries, for the current month and
    the eleven that follow, in the order of time; the entry of a month is
    named by its era year and month and carries the sum of the amounts of
    the investments with status Active or Renewed whose end date lies in
    that month, added in the order of the collection.  Investments that end
    outside the twelve months, or whose end date is no date, are not
    counted. *)
Theorem getMaturityLadder_months tz Y M D tw invs :
  0 <= tz < msPerDay -> 1001 <= Y <= 9998 -> ValidDate Y M D -> 0 <= tw < msPerDay ->
  getMaturityLadder tz (MakeDate (MakeDay Y (M - 1) D) tw - tz) invs
  = List.map (fun i =>
                let Yi := fst (monthsAfter Y M i) in
                let Mi := snd (monthsAfter Y M i) in
                mkLadderItem
                  (Z_toString (Yi - 1911) +:+ "/" +:+ padStart 2 (Z_toString Mi))
                  (Double.sum
                     (List.map amount
                        (List.filter (fun inv => maturing inv
                                                 && String.eqb (endKey tz inv) (monthKeyAt Y M i))
                           invs))))
      (seqZ 0 12).
Proof.
  intros Htz HY Hv Htw. unfold getMaturityLadder.
  rewrite (ladderMonths_keys tz Y M D tw Htz HY Hv Htw).
  rewrite ladder_fold
    by (rewrite List.map_map; cbn [fst]; apply (keys_NoDup tz Y M D tw Htz HY Hv Htw 0 12); lia).
  rewrite List.map_map. cbn [fst snd].
  rewrite sort_by_sorted_id.
  - rewrite List.map_map. apply List.map_ext_in. intros i Hi.
    apply list_elem_of_In, elem_of_seqZ in Hi.
    destruct (monthsAfter_range tz Y M D tw Htz HY Hv Htw i ltac:(lia)) as [H1 H2].
    cbn [fst snd]. cbv zeta. unfold monthKeyAt at 1 2.
    destruct (split_monthText (fst (monthsAfter Y M i)) (snd (monthsAfter Y M i))
                ltac:(lia) H2) as [Hs Hp].
    rewrite Hs. cbn [hd]. rewrite Hp.
    cbn [JSNum.sub mbind option_bind Number_toString]. f_equal.
    unfold maturingIn. rewrite (flat_map_if _ amount). reflexivity.
  - apply (seqZ_sorted _ _ 12 0). intros i j Hi Hij Hj. cbn [fst].
    apply (monthKeyAt_lt tz Y M D tw Htz HY Hv Htw i j); lia.
Qed.

Lemma getMaturityLadder_months_witness :
  getMaturityLadder TZ_Taipei (MakeDate (MakeDay 2025 (5 - 1) 20) 3600000 - TZ_Taipei)
    [dueLastOfJune; twoPeriods]
  = List.map (fun i =>
                let Yi := fst (monthsAfter 2025 5 i) in
                let Mi := snd (monthsAfter 2025 5 i) in
                mkLadderItem
                  (Z_toString (Yi - 1911) +:+ "/" +:+ padStart 2 (Z_toString Mi))
                  (Double.sum
                     (List.map amount
                        (List.filter (fun inv => maturing inv
                                                 && String.eqb (endKey TZ_Taipei inv)
                                                      (monthKeyAt 2025 5 i))
                           [dueLastOfJune; twoPeriods]))))
      (seqZ 0 12).
Proof.
  apply (getMaturityLadder_months TZ_Taipei 2025 5 20 3600000 [dueLastOfJune; twoPeriods]).
  - vm_compute. split; [discriminate | reflexivity].
  - lia.
  - vm_compute. repeat split; discriminate.
  - vm_compute. split; [discriminate | reflexivity].
Defined.

(** ** The chart of the months *)

Section ChartStore.

Context {V : Type}.

Lemma obj_modify_map key (f : V -> V) (o : list (string * V)) :
  List.NoDup (List.map fst o) ->
  obj_modify key f o
  = List.map (fun kv => if String.eqb (fst kv) key then (fst kv, f (snd kv)) else kv) o.
Proof.
  induction o as [| [k x] o IH]; intros Hnd; [reflexivity |].
  cbn [List.map fst] in Hnd. apply List.NoDup_cons_iff in Hnd as [Hk Hnd].
  cbn [obj_modify List.map fst snd].
  destruct (String.eqb_spec k key) as [-> | Hne].
  - f_equal. transitivity (List.map (fun kv : string * V => kv) o);
      [symmetry; apply List.map_id |].
    apply List.map_ext_in. intros [k' x'] Hin. cbn [fst snd].
    destruct (String.eqb_spec k' key) as [-> | _]; [| reflexivity].
    exfalso. apply Hk. apply (in_map fst) in Hin. exact Hin.
  - rewrite IH by assumption. reflexivity.
Qed.

Lemma map_keys_if (key : string) (g : string * V -> V) (o : list (string * V)) :
  List.map fst (List.map (fun kv => if String.eqb (fst kv) key
                                    then (fst kv, g kv) else kv) o)
  = List.map fst o.
Proof.
  rewrite List.map_map. apply List.map_ext. intros kv.
  destruct (String.eqb (fst kv) key); reflexivity.
Qed.

(** A loop over keys that are all different, each turn of which changes
    the value under its key only. *)
Lemma foldl_by_key (G : string -> V -> V) (ks : list string) :
  List.NoDup ks -> forall (o : list (string * V)),
  foldl (fun o k => List.map (fun kv => if String.eqb (fst kv) k
                                        then (fst kv, G k (snd kv)) else kv) o) o ks
  = List.map (fun kv => if existsb (String.eqb (fst kv)) ks
                        then (fst kv, G (fst kv) (snd kv)) else kv) o.
Proof.
  induction 1 as [| k ks Hk Hnd IH]; intros o; cbn [foldl existsb].
  - symmetry. apply List.map_id.
  - rewrite IH, List.map_map. apply List.map_ext. intros [k' v]. cbn [fst snd].
    destruct (String.eqb_spec k' k) as [-> | Hne]; cbn [fst snd orb].
    + assert (existsb (String.eqb k) ks = false) as ->; [| reflexivity].
      apply not_true_is_false. intros H. apply existsb_exists in H as (x & Hx & E).
      apply String.eqb_eq in E. subst x. contradiction.
    + reflexivity.
Qed.

Lemma existsb_key (o : list (string * V)) kv :
  In kv o -> existsb (String.eqb (fst kv)) (List.map fst o) = true.
Proof.
  intros H. apply existsb_exists. exists (fst kv). split; [| apply String.eqb_refl].
  apply in_map. assumption.
Qed.

End ChartStore.

Section ChartLoops.

Variable tz : Z.

Lemma obj_touch {V} key (f : V -> V) (o : list (string * V)) :
  match obj_get key o with
  | Some _ => obj_modify key f o
  | None => o
  end = obj_modify key f o.
Proof.
  destruct (obj_get key o) eqn:E; [reflexivity |].
  apply obj_get_None in E. induction o as [| [k x] o IH]; [reflexivity |].
  cbn [obj_modify fst]. cbn [List.map In fst] in E.
  destruct (String.eqb_spec k key); [tauto |]. rewrite <- IH by tauto. reflexivity.
Qed.

Lemma foldl_ext_inv {A B} (P : A -> Prop) (f g : A -> B -> A) (l : list B) : forall a,
  P a -> (forall a b, P a -> f a b = g a b) -> (forall a b, P a -> P (g a b)) ->
  foldl f a l = foldl g a l.
Proof.
  induction l as [| b l IH]; intros a Ha Hfg Hg; [reflexivity |].
  cbn [foldl]. rewrite Hfg by assumption. apply IH; auto.
Qed.

Lemma chartAdd_nil it : chartAdd [] [] [] it = it.
Proof. destruct it. reflexivity. Qed.

Lemma chartCapital_map inv (dm : list (string * ChartItem)) :
  List.NoDup (List.map fst dm) ->
  chartCapital tz inv dm
  = List.map (fun kv => (fst kv, chartAdd (chartActive tz inv (fst kv))
                                   (chartReturned tz inv (fst kv)) [] (snd kv))) dm.
Proof.
  intros Hnd. unfold chartCapital. cbv zeta.
  rewrite (foldl_ext_inv (fun o => List.NoDup (List.map fst o)) _
             (fun o k => List.map (fun kv =>
                if String.eqb (fst kv) k
                then (fst kv, chartAdd (chartActive tz inv k) (chartReturned tz inv k) []
                                (snd kv))
                else kv) o)).
  - rewrite (foldl_by_key (fun k v => chartAdd (chartActive tz inv k)
                                         (chartReturned tz inv k) [] v)) by assumption.
    apply List.map_ext_in. intros kv Hin.
    rewrite (existsb_key dm kv Hin). reflexivity.
  - assumption.
  - intros o k Ho. unfold chartActive, chartReturned. cbv zeta.
    destruct (JSNum.le _ _ && JSNum.gt _ _); destruct (strict_eq _ _ && strict_eq _ _).
    + rewrite (obj_modify_map k (addActiveCapital (amount inv)) o Ho).
      rewrite obj_modify_map by (rewrite map_keys_if; assumption).
      rewrite List.map_map. apply List.map_ext. intros [k' it]. cbn [fst snd].
      destruct (String.eqb k' k) eqn:E; cbn [fst snd]; rewrite ?E; [| reflexivity].
      destruct it. reflexivity.
    + rewrite (obj_modify_map k (addActiveCapital (amount inv)) o Ho).
      apply List.map_ext. intros [k' it]. cbn [fst snd].
      destruct (String.eqb k' k); [| reflexivity].
      destruct it. reflexivity.
    + rewrite (obj_modify_map k (addReturnedCapitalTo (amount inv)) o Ho).
      apply List.map_ext. intros [k' it]. cbn [fst snd].
      destruct (String.eqb k' k); [| reflexivity].
      destruct it. reflexivity.
    + rewrite <- (List.map_id o) at 1. apply List.map_ext. intros [k' it]. cbn [fst snd].
      destruct (String.eqb k' k); [| reflexivity]. rewrite chartAdd_nil. reflexivity.
  - intros o k Ho. rewrite map_keys_if. assumption.
Qed.

Lemma chartInterest_periods inv (l : list Z) : forall (dm : list (string * ChartItem)),
  List.NoDup (List.map fst dm) ->
  foldl (fun dataMap i =>
           match obj_get (dueKey tz inv i) dataMap with
           | Some _ => obj_modify (dueKey tz inv i) (addInterestTo (monthlyInterest inv))
                         dataMap
           | None => dataMap
           end) dm l
  = List.map (fun kv =>
                (fst kv,
                 chartAdd [] []
                   (List.map (fun _ => monthlyInterest inv)
                      (List.filter (fun i => String.eqb (dueKey tz inv i) (fst kv)) l))
                   (snd kv))) dm.
Proof.
  induction l as [| i l IH]; intros dm Hnd.
  - cbn. rewrite <- (List.map_id dm) at 1. apply List.map_ext.
    intros [k v]. cbn [fst snd]. rewrite chartAdd_nil. reflexivity.
  - cbn [foldl]. rewrite obj_touch, obj_modify_map by assumption.
    rewrite IH by (rewrite map_keys_if; assumption).
    rewrite List.map_map. apply List.map_ext. intros [k [n a r x]]. cbn [fst snd List.filter].
    rewrite (String.eqb_sym (dueKey tz inv i) k).
    destruct (String.eqb k (dueKey tz inv i)); reflexivity.
Qed.

Lemma chartInterest_map inv (dm : list (string * ChartItem)) :
  List.NoDup (List.map fst dm) ->
  chartInterest tz inv dm
  = List.map (fun kv => (fst kv, chartAdd [] [] (interestExpectedOf tz inv (fst kv))
                                   (snd kv))) dm.
Proof. intros Hnd. apply (chartInterest_periods inv _ dm Hnd). Qed.

(** The store after the loop over the investments. *)
Lemma chart_fold invs : forall (dm : list (string * ChartItem)),
  List.NoDup (List.map fst dm) ->
  foldl (fun dataMap inv => chartInterest tz inv (chartCapital tz inv dataMap)) dm invs
  = List.map (fun kv =>
                (fst kv,
                 chartAdd (flat_map (fun inv => chartActive tz inv (fst kv)) invs)
                   (flat_map (fun inv => chartReturned tz inv (fst kv)) invs)
                   (flat_map (fun inv => interestExpectedOf tz inv (fst kv)) invs)
                   (snd kv))) dm.
Proof.
  induction invs as [| inv invs IH]; intros dm Hnd.
  - cbn. rewrite <- (List.map_id dm) at 1. apply List.map_ext.
    intros [k v]. cbn [fst snd]. rewrite chartAdd_nil. reflexivity.
  - cbn [foldl]. rewrite chartCapital_map by assumption.
    rewrite chartInterest_map by (rewrite List.map_map; cbn [fst]; assumption).
    rewrite IH by (rewrite !List.map_map; cbn [fst]; assumption).
    rewrite !List.map_map. apply List.map_ext. intros [k [n a r x]].
    cbn [fst snd flat_map]. unfold chartAdd, Double.sumFrom.
    cbn [ch_name ch_activeCapital ch_returnedCapital ch_interest].
    rewrite !foldl_app. reflexivity.
Qed.

End ChartLoops.

Section ChartMonths.

Lemma obj_set_pairs {V} (kvs : list (string * V)) : forall (o : list (string * V)),
  List.NoDup (List.map fst o ++ List.map fst kvs) ->
  foldl (fun o kv => obj_set (fst kv) (snd kv) o) o kvs = o ++ kvs.
Proof.
  induction kvs as [| [k v] kvs IH]; intros o Hnd; cbn [foldl List.map fst snd] in *.
  - symmetry. apply app_nil_r.
  - rewrite obj_set_fresh.
    + rewrite IH.
      * rewrite <- app_assoc. reflexivity.
      * rewrite List.map_app. cbn [List.map fst]. rewrite <- app_assoc. exact Hnd.
    + apply NoDup_remove_2 in Hnd. intros H. apply Hnd. apply in_or_app. left. exact H.
Qed.

Lemma foldl_pairs {V} (g : Z -> string * V) (l : list Z) : forall o,
  foldl (fun o i => obj_set (fst (g i)) (snd (g i)) o) o l
  = foldl (fun o kv => obj_set (fst kv) (snd kv) o) o (List.map g l).
Proof. induction l as [| i l IH]; intros o; [reflexivity | apply IH]. Qed.

Lemma Number_of_digits ds :
  all_digits ds = true ->
  Number_of_string ds = Some (digits_value 0 ds)
  /\ Number_of_text ds = Some (digits_value 0 ds).
Proof.
  intros H. unfold Number_of_text, Number_of_string. rewrite H.
  split; [reflexivity |]. destruct ds as [| c r]; [reflexivity |].
  cbn [all_digits] in H. apply andb_true_iff in H as [Hc _].
  destruct (digit_not_special c Hc) as (_ & _ & -> & _). reflexivity.
Qed.

Lemma pad2_text m :
  0 <= m < 100 ->
  all_digits (padStart 2 (Z_toString m)) = true
  /\ digits_value 0 (padStart 2 (Z_toString m)) = m.
Proof.
  intros Hm. rewrite pad2_digits by lia. cbn [all_digits digits_value].
  rewrite !isDigit_digitChar, !digitValue_digitChar by divlia. split; [reflexivity | divlia].
Qed.

Lemma split_run sep ds rest :
  isDigit sep = false -> all_digits ds = true ->
  split sep (ds +:+ String sep rest) = ds :: split sep rest.
Proof.
  intros Hsep. induction ds as [| c r IH]; intros H.
  - rewrite append_nil. cbn [split]. rewrite Ascii.eqb_refl. reflexivity.
  - cbn [all_digits] in H. apply andb_true_iff in H as [Hc Hr].
    rewrite append_cons. cbn [split].
    assert (Ascii.eqb c sep = false) as ->
      by (apply Ascii.eqb_neq; intros ->; congruence).
    rewrite IH by assumption. reflexivity.
Qed.

Lemma split_last sep ds :
  isDigit sep = false -> all_digits ds = true -> split sep ds = [ds].
Proof.
  intros Hsep. induction ds as [| c r IH]; intros H; [reflexivity |].
  cbn [all_digits] in H. apply andb_true_iff in H as [Hc Hr]. cbn [split].
  assert (Ascii.eqb c sep = false) as -> by (apply Ascii.eqb_neq; intros ->; congruence).
  rewrite IH by assumption. reflexivity.
Qed.

(** The numbers that the loops read back from a key and from a name. *)
Lemma key_numbers Y M :
  0 <= Y <= 9999 -> 1 <= M <= 12 ->
  List.map Number_of_string (split "-" (monthText Y M)) = [Some Y; Some M].
Proof.
  intros HY HM. destruct (Z_toString_text Y ltac:(lia)) as (Hall & Hval & _).
  destruct (pad2_text M ltac:(lia)) as [Hp Hv].
  unfold monthText. change ("-" +:+ ?s) with (String "-" s).
  rewrite split_run, split_last by (reflexivity || assumption).
  cbn [List.map]. rewrite (proj1 (Number_of_digits _ Hall)), (proj1 (Number_of_digits _ Hp)).
  rewrite Hval, Hv. reflexivity.
Qed.

Lemma name_numbers R M :
  0 <= R <= 9999 -> 1 <= M <= 12 ->
  List.map Number_of_text (split "/" (Z_toString R +:+ "/" +:+ padStart 2 (Z_toString M)))
  = [Some R; Some M].
Proof.
  intros HR HM. destruct (Z_toString_text R ltac:(lia)) as (Hall & Hval & _).
  destruct (pad2_text M ltac:(lia)) as [Hp Hv].
  change ("/" +:+ ?s) with (String "/" s).
  rewrite split_run, split_last by (reflexivity || assumption).
  cbn [List.map]. rewrite (proj2 (Number_of_digits _ Hall)), (proj2 (Number_of_digits _ Hp)).
  rewrite Hval, Hv. reflexivity.
Qed.

(** The two ends of a month as the chart computes them: local midnight of
    its first and of its last day. *)
Lemma month_ends tz Y M :
  0 <= tz < msPerDay -> 1000 <= Y <= 9999 -> 1 <= M <= 12 ->
  ofFields tz (Some Y) (JSNum.sub (Some M) (Some 1)) (Some 1)
  = Some (MakeDay Y (M - 1) 1 * msPerDay - tz)
  /\ ofFields tz (Some Y) (Some M) (Some 0) = Some (MakeDay Y M 0 * msPerDay - tz).
Proof.
  intros Htz HY HM. unfold ofFields, JSNum.sub. cbn [mbind option_bind].
  destruct (Z.leb_spec Y 99); [lia |]. rewrite andb_false_r.
  unfold UTC, MakeDate, MakeTime.
  replace (0 * msPerHour + 0 * msPerMinute + 0 * msPerSecond + 0) with 0 by lia.
  rewrite !Z.add_0_r. split; apply TimeClip_ok.
  - pose proof (MakeDay_range Y (M - 1) 1). unfold msPerDay in *. lia.
  - rewrite MakeDay_norm.
    pose proof (MakeDay_range (Y + M / 12) (M mod 12) 0 ltac:(divlia) ltac:(divlia)).
    unfold msPerDay in *. lia.
Qed.

Lemma dayOf_parse s t : parse s = Some t -> dayOf s = Some (Day t) /\ t = Day t * msPerDay.
Proof.
  intros H. unfold dayOf. rewrite H. split; [reflexivity |].
  apply parse_Some in H as (y & m & d & _ & _ & ->).
  unfold Day, MakeDate, msPerDay. divlia.
Qed.

Lemma chartActive_calendar tz inv Y M :
  0 <= tz < msPerDay -> 1000 <= Y <= 9999 -> 1 <= M <= 12 ->
  chartActive tz inv (monthText Y M) = if activeIn tz inv Y M then [amount inv] else [].
Proof.
  intros Htz HY HM. unfold chartActive, activeIn. cbv zeta.
  rewrite key_numbers by lia. cbn [nth].
  destruct (month_ends tz Y M Htz HY HM) as [-> ->]. unfold ofString.
  destruct (parse (startDate inv)) as [s |] eqn:Es.
  - destruct (dayOf_parse _ _ Es) as [-> Hs].
    destruct (parse (endDate inv)) as [e |] eqn:Ee.
    + destruct (dayOf_parse _ _ Ee) as [-> He].
      unfold JSNum.le, JSNum.gt, JSNum.lt.
      set (ds := Day s) in *. set (de := Day e) in *.
      set (L := MakeDay Y M 0). set (F := MakeDay Y (M - 1) 1).
      assert ((s <=? L * msPerDay - tz) = (ds <=? L - (if 0 <? tz then 1 else 0))) as ->.
      { rewrite Hs. unfold msPerDay in *.
        destruct (Z.ltb_spec 0 tz);
          destruct (Z.leb_spec (ds * 86400000) (L * 86400000 - tz));
          destruct (Z.leb_spec ds (L - 1)); destruct (Z.leb_spec ds (L - 0));
          lia || reflexivity. }
      assert ((F * msPerDay - tz <? e) = (F - (if 0 <? tz then 1 else 0) <? de)) as ->.
      { rewrite He. unfold msPerDay in *.
        destruct (Z.ltb_spec 0 tz);
          destruct (Z.ltb_spec (F * 86400000 - tz) (de * 86400000));
          destruct (Z.ltb_spec (F - 1) de); destruct (Z.ltb_spec (F - 0) de);
          lia || reflexivity. }
      reflexivity.
    + unfold dayOf. rewrite Ee. cbn [mbind option_bind].
      unfold JSNum.gt, JSNum.lt. rewrite andb_false_r. reflexivity.
  - unfold dayOf. rewrite Es. reflexivity.
Qed.

Lemma chartReturned_calendar tz inv Y M :
  0 <= Y <= 9999 -> 1 <= M <= 12 ->
  chartReturned tz inv (monthText Y M) = if endsIn tz inv Y M then [amount inv] else [].
Proof.
  intros HY HM. unfold chartReturned, endsIn. cbv zeta.
  rewrite key_numbers by lia. cbn [nth].
  destruct (ofString (endDate inv)) as [t |]; [| reflexivity].
  unfold strict_eq, JSNum.strict_neq, getFullYear, getMonth, JSNum.add.
  cbn [mbind option_bind]. rewrite !negb_involutive. reflexivity.
Qed.

End ChartMonths.

Section ChartProof.

Variables (tz Y M D tw : Z).
Hypothesis tz_range : 0 <= tz < msPerDay.
Hypothesis Y_range : 1912 <= Y <= 9998.
Hypothesis today_valid : ValidDate Y M D.
Hypothesis tw_range : 0 <= tw < msPerDay.

Lemma chart_range i :
  -12 <= i <= 12 ->
  1911 <= fst (monthsAfter Y M i) <= 9999 /\ 1 <= snd (monthsAfter Y M i) <= 12.
Proof.
  intros Hi. destruct today_valid as [HM _]. unfold monthsAfter. cbn [fst snd]. divlia.
Qed.

Lemma chartMonths_keys :
  chartMonths tz (MakeDate (MakeDay Y (M - 1) D) tw - tz)
  = List.map (fun i => (monthKeyAt Y M i, mkChartItem (monthNameAt Y M i) Double.zero Double.zero Double.zero))
      (seqZ (-6) 19).
Proof.
  unfold chartMonths. cbv zeta.
  destruct (now_fields tz Y M D tw today_valid tw_range) as [-> ->].
  set (g := fun i : Z =>
         (monthKey tz (ofFields tz (Some Y) (JSNum.add (Some (M - 1)) (Some i)) (Some 1)),
          mkChartItem
            (Number_toString
               (JSNum.sub
                  (getFullYear tz
                     (ofFields tz (Some Y) (JSNum.add (Some (M - 1)) (Some i)) (Some 1)))
                  (Some 1911)) +:+ "/"
             +:+ padStart 2
                   (Number_toString
                      (JSNum.add
                         (getMonth tz
                            (ofFields tz (Some Y) (JSNum.add (Some (M - 1)) (Some i))
                               (Some 1))) (Some 1)))) Double.zero Double.zero Double.zero)).
  change (foldl (fun o i => obj_set (fst (g i)) (snd (g i)) o) [] (seqZ (-6) 19)
          = List.map (fun i => (monthKeyAt Y M i, mkChartItem (monthNameAt Y M i) Double.zero Double.zero Double.zero))
              (seqZ (-6) 19)).
  rewrite foldl_pairs.
  assert (List.map g (seqZ (-6) 19)
          = List.map (fun i => (monthKeyAt Y M i, mkChartItem (monthNameAt Y M i) Double.zero Double.zero Double.zero))
              (seqZ (-6) 19)) as ->.
  { apply List.map_ext_in. intros i Hi. apply list_elem_of_In, elem_of_seqZ in Hi.
    destruct today_valid as [HM _].
    destruct (chart_range i ltac:(lia)) as [H1 H2].
    destruct (month_first tz Y M i tz_range ltac:(lia) HM ltac:(lia))
      as (_ & EY & EM & EK).
    subst g. cbv beta. rewrite EK, EY, EM.
    cbn [JSNum.sub JSNum.add mbind option_bind Number_toString].
    unfold monthKeyAt, monthNameAt.
    replace (snd (monthsAfter Y M i) - 1 + 1) with (snd (monthsAfter Y M i)) by lia.
    reflexivity. }
  rewrite obj_set_pairs; [reflexivity |].
  cbn [List.map app]. rewrite List.map_map. cbn [fst].
  apply (keys_NoDup tz Y M D tw tz_range ltac:(lia) today_valid tw_range (-6) 19); lia.
Qed.

Lemma chartIndex_at i a r x :
  -12 <= i <= 12 ->
  chartIndex (mkChartItem (monthNameAt Y M i) a r x) = Some ((Y - 1911) * 12 + M + i).
Proof.
  intros Hi. destruct (chart_range i Hi) as [H1 H2].
  unfold chartIndex, monthNameAt. cbn [ch_name]. cbv zeta.
  rewrite name_numbers by lia. cbn [nth JSNum.add mbind option_bind].
  pose proof (monthsAfter_index Y M i) as Hx.
  destruct (monthsAfter Y M i) as [Yi Mi]. cbn [fst snd] in *. f_equal. lia.
Qed.

End ChartProof.



(** ** The preview of an import *)

Section Preview.

Lemma filter_split {A} (p : A -> bool) (l : list A) :
  length l = (length (List.filter p l) + length (List.filter (fun x => negb (p x)) l))%nat.
Proof.
  induction l as [| x l IH]; [reflexivity |]. cbn [List.filter length].
  destruct (p x); cbn [negb length]; lia.
Qed.

Lemma analysis_newItems prev incoming :
  an_newItems (analysis prev incoming) = nonConflicting prev incoming.
Proof.
  unfold analysis, nonConflicting, existingIds. cbn [an_newItems].
  apply List.filter_ext. intros i. f_equal. apply bool_decide_ext.
  apply elem_of_list_to_set.
Qed.

Lemma no_conflicts_lastWithId prev incoming p :
  an_hasConflicts (analysis prev incoming) = false -> In p prev ->
  lastWithId (id p) incoming = None.
Proof.
  unfold analysis. cbn [an_hasConflicts]. intros H Hp.
  apply lastWithId_None. intros Hin. apply in_map_iff in Hin as (c & Hc & Hin).
  assert (In c (List.filter
                 (fun i => bool_decide (id i ∈ (list_to_set (List.map id prev) : gset string)))
                 incoming)) as Hf.
  { apply filter_In. split; [assumption |]. apply bool_decide_eq_true_2.
    apply elem_of_list_to_set, list_elem_of_In. rewrite Hc. apply in_map. assumption. }
  destruct (List.filter _ incoming); [destruct Hf |]. cbn [length] in H.
  apply Z.ltb_ge in H. lia.
Qed.

End Preview.

(** X19: the preview of an import announces what the merge does.  The
    incoming records are the conflicting ones plus the new ones; a merge by
    skip or by overwrite adds as many records as the preview lists as new,
    and a merge as new records adds all the incoming ones; and when the
    preview finds no conflict, skip and overwrite give the same
    collection. *)
Theorem import_preview uuid prev incoming k :
  let a := analysis prev incoming in
  an_total a = (length (an_conflicts a) + length (an_newItems a))%nat
  /\ length (fst (handleImportConfirm uuid skip incoming prev k))
     = (length prev + length (an_newItems a))%nat
  /\ length (fst (handleImportConfirm uuid overwrite incoming prev k))
     = (length prev + length (an_newItems a))%nat
  /\ length (fst (handleImportConfirm uuid new incoming prev k))
     = (length prev + an_total a)%nat
  /\ (an_hasConflicts a = false ->
      fst (handleImportConfirm uuid overwrite incoming prev k)
      = fst (handleImportConfirm uuid skip incoming prev k)).
Proof.
  cbv zeta. rewrite analysis_newItems.
  rewrite handleImportConfirm_skip, handleImportConfirm_overwrite, handleImportConfirm_new.
  rewrite !length_app, !length_imap, length_map, clonesFrom_length.
  split; [| split; [| split; [| split]]]; try reflexivity.
  - unfold analysis. cbn [an_total an_conflicts]. rewrite <- analysis_newItems.
    unfold analysis. cbn [an_newItems]. apply filter_split.
  - intros H. f_equal. rewrite <- (List.map_id prev) at 2.
    apply List.map_ext_in. intros p Hp. unfold overwritten.
    rewrite (no_conflicts_lastWithId prev incoming p H Hp). reflexivity.
Qed.

(** ** Past and active investments *)

Section History.

Lemma DayFromYear_mono a b : a <= b -> DayFromYear a <= DayFromYear b.
Proof. intros H. unfold DayFromYear. divlia. Qed.

(** A valid date lies within its year. *)
Lemma MakeDay_within_year y m d :
  ValidDate y m d -> DayFromYear y <= MakeDay y (m - 1) d < DayFromYear (y + 1).
Proof.
  intros [Hm Hd]. rewrite MakeDay_in_year by lia. rewrite DayFromYear_succ.
  unfold DaysInMonth, DaysInYear in *.
  assert (m = 1 \/ m = 2 \/ m = 3 \/ m = 4 \/ m = 5 \/ m = 6 \/ m = 7
          \/ m = 8 \/ m = 9 \/ m = 10 \/ m = 11 \/ m = 12) as Hc by lia.
  repeat (destruct Hc as [-> | Hc]); try subst m;
    destruct (isLeapYear y); simpl in *; lia.
Qed.

(** The day numbers of valid dates are in the order of year, month and
    day. *)
Lemma MakeDay_lex y1 m1 d1 y2 m2 d2 :
  ValidDate y1 m1 d1 -> ValidDate y2 m2 d2 ->
  (MakeDay y1 (m1 - 1) d1 <? MakeDay y2 (m2 - 1) d2)
  = (y1 * 10000 + m1 * 100 + d1 <? y2 * 10000 + m2 * 100 + d2).
Proof.
  intros H1 H2. pose proof (ValidDate_day _ _ _ H1). pose proof (ValidDate_day _ _ _ H2).
  pose proof (MakeDay_within_year _ _ _ H1) as W1.
  pose proof (MakeDay_within_year _ _ _ H2) as W2.
  destruct H1 as [Hm1 Hd1], H2 as [Hm2 Hd2].
  destruct (Z.lt_trichotomy y1 y2) as [Hy | [-> | Hy]].
  - pose proof (DayFromYear_mono (y1 + 1) y2 ltac:(lia)).
    destruct (Z.ltb_spec (MakeDay y1 (m1 - 1) d1) (MakeDay y2 (m2 - 1) d2));
      destruct (Z.ltb_spec (y1 * 10000 + m1 * 100 + d1) (y2 * 10000 + m2 * 100 + d2));
      lia || reflexivity.
  - rewrite !MakeDay_in_year by lia. unfold DaysInMonth in *.
    assert (m1 = 1 \/ m1 = 2 \/ m1 = 3 \/ m1 = 4 \/ m1 = 5 \/ m1 = 6 \/ m1 = 7
            \/ m1 = 8 \/ m1 = 9 \/ m1 = 10 \/ m1 = 11 \/ m1 = 12) as Hc1 by lia.
    assert (m2 = 1 \/ m2 = 2 \/ m2 = 3 \/ m2 = 4 \/ m2 = 5 \/ m2 = 6 \/ m2 = 7
            \/ m2 = 8 \/ m2 = 9 \/ m2 = 10 \/ m2 = 11 \/ m2 = 12) as Hc2 by lia.
    repeat (destruct Hc1 as [-> | Hc1]); try subst m1;
      repeat (destruct Hc2 as [-> | Hc2]); try subst m2;
      destruct (isLeapYear y2); simpl in *;
      match goal with
      | |- (?a <? ?b) = (?c <? ?e) =>
          destruct (Z.ltb_spec a b); destruct (Z.ltb_spec c e); lia || reflexivity
      end.
  - pose proof (DayFromYear_mono (y2 + 1) y1 ltac:(lia)).
    destruct (Z.ltb_spec (MakeDay y1 (m1 - 1) d1) (MakeDay y2 (m2 - 1) d2));
      destruct (Z.ltb_spec (y1 * 10000 + m1 * 100 + d1) (y2 * 10000 + m2 * 100 + d2));
      lia || reflexivity.
Qed.

(** The order of the texts of two dates is the order of year, month and
    day. *)
Lemma text_lt_isoDate y1 m1 d1 y2 m2 d2 :
  0 <= y1 <= 9999 -> 0 <= m1 < 100 -> 0 <= d1 < 100 ->
  0 <= y2 <= 9999 -> 0 <= m2 < 100 -> 0 <= d2 < 100 ->
  text_lt (isoDate y1 m1 d1) (isoDate y2 m2 d2)
  = (y1 * 10000 + m1 * 100 + d1 <? y2 * 10000 + m2 * 100 + d2).
Proof.
  intros Hy1 Hm1 Hd1 Hy2 Hm2 Hd2. unfold text_lt.
  rewrite !isoDate_digits by lia.
  rewrite !compare_digit by divlia.
  change (String.compare (String "-" ?s) (String "-" ?t)) with (String.compare s t).
  rewrite !compare_digit by divlia.
  change (String.compare (String "-" ?s) (String "-" ?t)) with (String.compare s t).
  rewrite !compare_digit by divlia.
  change (String.compare "" "") with Eq.
  destruct (Z.ltb_spec (y1 * 10000 + m1 * 100 + d1) (y2 * 10000 + m2 * 100 + d2));
    destruct (Z.compare_spec (y1 / 1000) (y2 / 1000)); try reflexivity; try divlia;
    destruct (Z.compare_spec (y1 / 100 mod 10) (y2 / 100 mod 10));
    try reflexivity; try divlia;
    destruct (Z.compare_spec (y1 / 10 mod 10) (y2 / 10 mod 10));
    try reflexivity; try divlia;
    destruct (Z.compare_spec (y1 mod 10) (y2 mod 10)); try reflexivity; try divlia;
    destruct (Z.compare_spec (m1 / 10) (m2 / 10)); try reflexivity; try divlia;
    destruct (Z.compare_spec (m1 mod 10) (m2 mod 10)); try reflexivity; try divlia;
    destruct (Z.compare_spec (d1 / 10) (d2 / 10)); try reflexivity; try divlia;
    destruct (Z.compare_spec (d1 mod 10) (d2 mod 10)); try reflexivity; divlia.
Qed.

End History.

(** X20: past and active investments.  On a day [Y]-[M]-[D], an investment
    whose end date is a valid date (years 0 to 9999) counts as history
    exactly when its end date is before that day in time or its status is
    Returned or Defaulted: the comparison of the two texts agrees with the
    order of the dates.  An investment that ends today is still active. *)
Theorem checkIsHistory_calendar inv y m d Y M D :
  endDate inv = isoDate y m d -> 0 <= y <= 9999 -> ValidDate y m d ->
  0 <= Y <= 9999 -> ValidDate Y M D ->
  checkIsHistory (isoDate Y M D) inv
  = isoBefore (endDate inv) (isoDate Y M D) || closed inv.
Proof.
  intros He Hy Hv HY HV. unfold checkIsHistory, closed, isoBefore. cbv zeta.
  rewrite He, !parse_isoDate by assumption.
  pose proof (ValidDate_day _ _ _ Hv). pose proof (ValidDate_day _ _ _ HV).
  rewrite text_lt_isoDate by (destruct Hv, HV; lia).
  rewrite <- MakeDay_lex by assumption. f_equal.
  unfold MakeDate, msPerDay.
  destruct (Z.ltb_spec (MakeDay y (m - 1) d) (MakeDay Y (M - 1) D));
    destruct (Z.ltb_spec (MakeDay y (m - 1) d * 86400000 + 0)
                (MakeDay Y (M - 1) D * 86400000 + 0)); lia || reflexivity.
Qed.

Lemma checkIsHistory_calendar_witness :
  checkIsHistory (isoDate 2025 6 30) dueLastOfJune
  = isoBefore (endDate dueLastOfJune) (isoDate 2025 6 30) || closed dueLastOfJune.
Proof.
  apply (checkIsHistory_calendar dueLastOfJune 2025 6 30 2025 6 30).
  - reflexivity.
  - lia.
  - vm_compute. repeat split; discriminate.
  - lia.
  - vm_compute. repeat split; discriminate.
Defined.

(** ** Payments and the report *)

Section PaymentsAndReport.

Variable tz : Z.
Hypothesis tz_range : 0 <= tz < msPerDay.

Lemma samePlans_wf invs invs' :
  samePlans invs invs' -> List.Forall wfInvestment invs -> List.Forall wfInvestment invs'.
Proof.
  induction 1 as [| inv inv' invs invs' E _ IH]; intros Hwf; [constructor |].
  apply List.Forall_cons_iff in Hwf as [Hw Hwf]. constructor; [| auto].
  rewrite E. exact Hw.
Qed.

Lemma samePlans_sum (c : Investment -> Z) invs invs' :
  samePlans invs invs' ->
  (forall inv h, c (with_paymentHistory inv h) = c inv) ->
  sumZ (List.map c invs') = sumZ (List.map c invs).
Proof.
  intros H Hc. induction H as [| inv inv' invs invs' E _ IH]; [reflexivity |].
  cbn [List.map]. unfold sumZ in *. cbn [foldr]. rewrite IH, E, Hc. reflexivity.
Qed.

Lemma samePlans_months invs invs' k :
  samePlans invs invs' ->
  (exists inv, In inv invs' /\ In k (monthsOf tz inv))
  <-> (exists inv, In inv invs /\ In k (monthsOf tz inv)).
Proof.
  induction 1 as [| inv inv' invs invs' E _ IH].
  - split; intros (x & [] & _).
  - split; intros (x & [<- | Hx] & Hk).
    + exists inv. split; [left; reflexivity |]. rewrite E in Hk. exact Hk.
    + destruct (proj1 IH (ex_intro _ x (conj Hx Hk))) as (z & Hz & Hk').
      exists z. split; [right; assumption | assumption].
    + exists inv'. split; [left; reflexivity |]. rewrite E. exact Hk.
    + destruct (proj2 IH (ex_intro _ x (conj Hx Hk))) as (z & Hz & Hk').
      exists z. split; [right; assumption | assumption].
Qed.

Lemma samePlans_flat (c : Investment -> list Double.t) invs invs' :
  samePlans invs invs' ->
  (forall inv h, c (with_paymentHistory inv h) = c inv) ->
  flat_map c invs' = flat_map c invs.
Proof.
  intros H Hc. induction H as [| inv inv' invs invs' E _ IH]; [reflexivity |].
  cbn [flat_map]. rewrite IH, E, Hc. reflexivity.
Qed.

Lemma samePlans_Forall (P : Investment -> Prop) invs invs' :
  samePlans invs invs' ->
  (forall inv h, P inv -> P (with_paymentHistory inv h)) ->
  List.Forall P invs -> List.Forall P invs'.
Proof.
  intros H HP. induction H as [| inv inv' invs invs' E _ IH]; intros Hf; [constructor |].
  apply List.Forall_cons_iff in Hf as [Hi Hf]. constructor; [| auto].
  rewrite E. apply HP. exact Hi.
Qed.

(** The reports of two collections that differ in the payment histories
    only. *)
Lemma samePlans_report invs invs' :
  List.Forall wfInvestment invs -> samePlans invs invs' ->
  exists out out',
    getMonthlyReport tz invs = Some out /\ getMonthlyReport tz invs' = Some out'
    /\ (forall k, In k (keysOf out') <-> In k (keysOf out))
    /\ (forall it it', In it out -> In it' out' -> monthStr it = monthStr it' ->
          newCapital it' = newCapital it
          /\ returnedCapital it' = returnedCapital it
          /\ interestExpected it' = interestExpected it).
Proof.
  intros Hwf Hs. pose proof (samePlans_wf _ _ Hs Hwf) as Hwf'.
  destruct (getMonthlyReport_spec tz tz_range invs Hwf) as (out & E & _ & Hk & Hf).
  destruct (getMonthlyReport_spec tz tz_range invs' Hwf') as (out' & E' & _ & Hk' & Hf').
  exists out, out'. split; [assumption |]. split; [assumption |]. split.
  - intros k. rewrite Hk, Hk'. apply samePlans_months. assumption.
  - intros it it' Hit Hit' Hkey.
    destruct (Hf it Hit) as (a1 & a2 & a3 & _).
    destruct (Hf' it' Hit') as (b1 & b2 & b3 & _).
    rewrite a1, a2, a3, b1, b2, b3, Hkey.
    repeat split; f_equal; apply samePlans_flat; try assumption; intros; reflexivity.
Qed.

Lemma samePlans_bulkPay today m invs : samePlans invs (handleBulkPay tz today m invs).
Proof.
  unfold samePlans. rewrite handleBulkPay_map.
  induction invs as [| inv invs IH]; cbn [List.map]; constructor; [| exact IH].
  cbv zeta. destruct (snd (foldl _ _ _)); [reflexivity | destruct inv; reflexivity].
Qed.

Lemma samePlans_updatePayment today i p data invs :
  samePlans invs (handleUpdatePayment today i p data invs).
Proof.
  unfold samePlans. rewrite handleUpdatePayment_map.
  induction invs as [| inv invs IH]; cbn [List.map]; constructor; [| exact IH].
  destruct (String.eqb (id inv) i); [reflexivity | destruct inv; reflexivity].
Qed.

End PaymentsAndReport.



Section BulkPayActual.

Variable tz : Z.
Hypothesis tz_range : 0 <= tz < msPerDay.

Lemma filter_count_or (p q : Z -> bool) (l : list Z) :
  (forall j, In j l -> q j = true -> p j = false) ->
  length (List.filter (fun j => if q j then true else p j) l)
  = (length (List.filter p l) + length (List.filter q l))%nat.
Proof.
  induction l as [| j l IH]; intros H; [reflexivity |]. cbn [List.filter].
  destruct (q j) eqn:Eq.
  - rewrite (H j (or_introl eq_refl) Eq). cbn [length].
    rewrite IH by (intros; apply H; [right |]; assumption). lia.
  - destruct (p j); cbn [length];
      rewrite IH by (intros; apply H; [right |]; assumption); lia.
Qed.

(** The paid periods of an investment after the bulk operation. *)
Lemma paidPeriods_bulk today m inv :
  let r := foldl (bulkPayStep tz today inv (fst (targetMonth tz m)) (snd (targetMonth tz m)))
             (paymentHistory inv, false) (seqZ 1 (duration inv)) in
  let inv' := if snd r then with_paymentHistory inv (fst r) else inv in
  interestOf inv' * paidPeriods inv'
  = interestOf inv * (paidPeriods inv + markedPeriods tz m inv).
Proof.
  destruct (bulkPay_one tz today m inv) as [H1 H2]. cbv zeta in H1, H2 |- *.
  rewrite H1. set (h' := fst (foldl _ _ _)) in *.
  change (interestOf (with_paymentHistory inv h')) with (interestOf inv).
  f_equal. unfold paidPeriods, markedPeriods.
  change (duration (with_paymentHistory inv h')) with (duration inv).
  rewrite <- Nat2Z.inj_add. f_equal.
  rewrite <- filter_count_or.
  - f_equal. apply List.filter_ext. intros j. unfold paidAt at 1.
    change (paymentHistory (with_paymentHistory inv h')) with h'. rewrite H2.
    destruct (bulkMarks tz m inv j); reflexivity.
  - intros j _ Hq. unfold bulkMarks in Hq.
    apply andb_true_iff in Hq as [_ Hq]. apply negb_true_iff in Hq. exact Hq.
Qed.

End BulkPayActual.


